(** * Hot-and-Cold geo guessing game: a verification development for [app.js]

    The script keeps a hidden target coordinate, measures the haversine
    distance of every guess to it, and answers with a label, a colour and,
    inside the reveal radius, the target's formatted coordinates.

    JavaScript numbers are IEEE 754 binary64 values: they are modelled by
    Rocq's primitive [float]s, whose operations are specified by
    [FloatAxioms] over [SpecFloat].  The transcendental functions of the
    engine ([Math.sin], [Math.cos], [Math.atan2]) are parameters of the
    development; everything else is executable. *)

From Stdlib Require Import ZArith Bool List String Ascii Lia Floats.
From Stdlib Require Import QArith Qround Qabs DecimalString.
From Stdlib Require Import Reals Lra.
From stdpp Require Import base option gmap.

Set Warnings "-inexact-float".
Set Default Proof Using "Type".

Local Open Scope string_scope.
Local Open Scope float_scope.

(* ================================================================== *)
(** ** JavaScript numbers *)
(* ================================================================== *)

Module JsNumber.

(** [Math.PI], the binary64 value nearest to pi. *)
Definition Math_PI : float := 0x1.921fb54442d18p+1.

Definition Math_abs (x : float) : float := PrimFloat.abs x.

Definition Math_sqrt (x : float) : float := PrimFloat.sqrt x.

(** [Math.min] and [Math.max] of two arguments: NaN is contagious and
    [-0] is smaller than [+0]. *)
Definition Math_min (x y : float) : float :=
  if is_nan x || is_nan y then nan
  else if is_zero x && is_zero y then (if get_sign x then x else y)
  else if x <? y then x else y.

Definition Math_max (x y : float) : float :=
  if is_nan x || is_nan y then nan
  else if is_zero x && is_zero y then (if get_sign x then y else x)
  else if y <? x then x else y.

(** The integer [n] as a number (exact when [|n| <= 2^53]). *)
Definition Z2float (n : Z) : float :=
  SF2Prim (binary_normalize prec emax n 0%Z false).

(** The signed mantissa of a finite number [(-1)^s * m * 2^e]. *)
Definition signed (s : bool) (m : positive) : Z :=
  if s then Zneg m else Zpos m.

(** [Math.floor]: a number with a non-negative exponent is integral
    already; otherwise the mantissa is shifted right, which rounds
    towards minus infinity. *)
Definition Math_floor (x : float) : float :=
  match Prim2SF x with
  | S754_finite s m e =>
      if (0 <=? e)%Z then x else Z2float (Z.shiftl (signed s m) e)
  | _ => x
  end.

(** [Math.round]: [floor (x + 1/2)], ties towards plus infinity, with
    the sign of [x] kept on a zero result. *)
Definition Math_round (x : float) : float :=
  match Prim2SF x with
  | S754_finite s m e =>
      if (0 <=? e)%Z then x
      else
        let n := Z.shiftl (2 * signed s m + 2 ^ (- e)) (e - 1) in
        if (n =? 0)%Z then (if s then neg_zero else zero) else Z2float n
  | _ => x
  end.

(** *** Number to string *)

Definition string_of_Z (n : Z) : string :=
  NilZero.string_of_int (Z.to_int n).

Fixpoint zeros (n : nat) : string :=
  match n with
  | O => ""
  | S n' => String "0" (zeros n')
  end.

Definition Qpow2 (e : Z) : Q := Qpower 2 e.
Definition Qpow10 (e : Z) : Q := Qpower 10 e.

(** Does the rational [v] round (to nearest, ties to even) to the
    finite positive number [m * 2^e]? *)
Definition rounds_to (m : positive) (e : Z) (v : Q) : bool :=
  let x := (inject_Z (Zpos m) * Qpow2 e)%Q in
  let up := (x + Qpow2 (e - 1))%Q in
  let down :=
    if ((Zpos m =? 2 ^ 52) && (-1074 <? e))%Z
    then (x - Qpow2 (e - 2))%Q
    else (x - Qpow2 (e - 1))%Q in
  if Z.even (Zpos m)
  then Qle_bool down v && Qle_bool v up
  else negb (Qle_bool v down) && negb (Qle_bool up v).

(** The least [n], counted up from the start, with [x < 10^n]. *)
Fixpoint decimal_exponent (fuel : nat) (n : Z) (x : Q) : Z :=
  match fuel with
  | O => n
  | S fuel' =>
      if Qle_bool (Qpow10 n) x
      then decimal_exponent fuel' (n + 1)%Z x
      else n
  end.

(** The [k]-digit integers [s] for which [s * 10^(n-k)] reads back as
    the number, for the two possible [n]. *)
Definition candidates (m : positive) (e : Z) (n0 k : Z) : list (Z * Z) :=
  let x := (inject_Z (Zpos m) * Qpow2 e)%Q in
  flat_map
    (fun n =>
       let t := Qfloor (x / Qpow10 (n - k)) in
       filter
         (fun sn : Z * Z =>
            andb (andb (10 ^ (k - 1) <=? sn.1)%Z (sn.1 <? 10 ^ k)%Z)
                 (rounds_to m e (inject_Z sn.1 * Qpow10 (n - k))%Q))
         ((t, n) :: ((t + 1)%Z, n) :: nil))
    (n0 :: (n0 + 1)%Z :: nil).

Definition closer (x : Q) (k : Z) (a b : Z * Z) : Z * Z :=
  let da := Qabs (inject_Z a.1 * Qpow10 (a.2 - k) - x) in
  let db := Qabs (inject_Z b.1 * Qpow10 (b.2 - k) - x) in
  match Qcompare da db with
  | Lt => a
  | Gt => b
  | Eq => if Z.even a.1 then a else b
  end.

(** The shortest digit string [s] (of [k] digits) and its decimal
    exponent [n]; seventeen digits always suffice for a binary64. *)
Fixpoint shortest (fuel : nat) (m : positive) (e : Z) (n0 k : Z)
  : Z * Z * Z :=
  let x := (inject_Z (Zpos m) * Qpow2 e)%Q in
  match candidates m e n0 k with
  | c :: cs => let '(s, n) := fold_left (closer x k) cs c in (s, n, k)
  | nil =>
      match fuel with
      | O => (0, 0, k)%Z
      | S fuel' => shortest fuel' m e n0 (k + 1)%Z
      end
  end.

Definition layout (s n k : Z) : string :=
  let digits := string_of_Z s in
  let exponent (x : Z) :=
    (if (0 <=? x)%Z then "e+" else "e-") ++ string_of_Z (Z.abs x) in
  if ((k <=? n) && (n <=? 21))%Z then
    digits ++ zeros (Z.to_nat (n - k))
  else if ((0 <? n) && (n <=? 21))%Z then
    substring 0 (Z.to_nat n) digits ++ "."
      ++ substring (Z.to_nat n) (Z.to_nat (k - n)) digits
  else if ((-6 <? n) && (n <=? 0))%Z then
    "0." ++ zeros (Z.to_nat (- n)) ++ digits
  else if (k =? 1)%Z then digits ++ exponent (n - 1)%Z
  else
    substring 0 1 digits ++ "."
      ++ substring 1 (Z.to_nat (k - 1)) digits ++ exponent (n - 1)%Z.

(** Is [m * 2^e] an integer below [2^53]?  Such a number prints as
    the decimal numeral of that integer. *)
Definition safe_integer (m : positive) (e : Z) : bool :=
  ((Z.shiftl (Z.shiftl (Zpos m) e) (- e) =? Zpos m)
   && (Z.shiftl (Zpos m) e <? 2 ^ 53))%Z.

(** [Number::toString] in radix 10, as template literals apply it. *)
Definition NumberToString (x : float) : string :=
  match Prim2SF x with
  | S754_nan => "NaN"
  | S754_zero _ => "0"
  | S754_infinity s => if s then "-Infinity" else "Infinity"
  | S754_finite sg m e =>
      (if sg then "-" else "") ++
      (if safe_integer m e then string_of_Z (Z.shiftl (Zpos m) e)
       else
         let x := (inject_Z (Zpos m) * Qpow2 e)%Q in
         let '(s, n, k) := shortest 17 m e (decimal_exponent 640 (-324) x) 1 in
         layout s n k)
  end.

(** [Number.prototype.toFixed (f)]: the integer [n] with [n / 10^f]
    nearest to the number (the larger one on a tie), printed as the
    numeral of [n / 10^f], a point, and the [f] digits of [n mod 10^f]. *)
Definition digit (z : Z) : ascii := ascii_of_nat (48 + Z.to_nat z).

Fixpoint fraction_digits (r : Z) (f : nat) : string :=
  match f with
  | O => EmptyString
  | S f' =>
      String (digit (r / 10 ^ Z.of_nat f'))
        (fraction_digits (r mod 10 ^ Z.of_nat f') f')
  end.

Definition fixed_digits (n : Z) (f : nat) : string :=
  let scale := (10 ^ Z.of_nat f)%Z in
  string_of_Z (n / scale)
    ++ match f with
       | O => EmptyString
       | _ => "." ++ fraction_digits (n mod scale) f
       end.

Definition scaled_round (m : positive) (e : Z) (f : nat) : Z :=
  let t := (Zpos m * 10 ^ Z.of_nat f)%Z in
  if (0 <=? e)%Z then Z.shiftl t e
  else Z.shiftl (2 * t + 2 ^ (- e)) (e - 1).

Definition toFixed (x : float) (f : nat) : string :=
  match Prim2SF x with
  | S754_nan => "NaN"
  | S754_zero _ => fixed_digits 0 f
  | S754_infinity _ => NumberToString x
  | S754_finite sg m e =>
      if 1e21 <=? Math_abs x then NumberToString x
      else (if sg then "-" else "") ++ fixed_digits (scaled_round m e f) f
  end.

End JsNumber.
Export JsNumber.

(* ================================================================== *)
(** ** JavaScript values, as far as [setTarget] inspects its arguments *)
(* ================================================================== *)

Module Js.

#[local] Unset Elimination Schemes.
Inductive Value :=
| Undefined
| Null
| Boolean (b : bool)
| Number (x : float)
| Str (s : string)
| Object (props : list (string * Value)).
#[local] Set Elimination Schemes.

Definition typeof (v : Value) : string :=
  match v with
  | Undefined => "undefined"
  | Null => "object"
  | Boolean _ => "boolean"
  | Number _ => "number"
  | Str _ => "string"
  | Object _ => "object"
  end.

(** [ToBoolean]. *)
Definition truthy (v : Value) : bool :=
  match v with
  | Undefined | Null => false
  | Boolean b => b
  | Number x => negb (is_zero x || is_nan x)
  | Str s => negb (String.eqb s "")
  | Object _ => true
  end.

(** The error objects thrown: a [TypeError] of the engine, or an
    [Error] made by [new Error (message)]. *)
Inductive Error :=
| TypeError (message : string)
| PlainError (message : string).

Fixpoint assoc (name : string) (props : list (string * Value)) : Value :=
  match props with
  | nil => Undefined
  | (k, v) :: rest => if String.eqb k name then v else assoc name rest
  end.

(** [v.name] for the option names read by [setTarget] (none of them is a
    property of a primitive's prototype): reading a property of
    [undefined] or [null] throws. *)
Definition get (v : Value) (name : string) : Error + Value :=
  match v with
  | Undefined => inl (TypeError "Cannot read properties of undefined")
  | Null => inl (TypeError "Cannot read properties of null")
  | Object props => inr (assoc name props)
  | _ => inr Undefined
  end.

(** [v === true] and [v === "..."]. *)
Definition is_true (v : Value) : bool :=
  match v with Boolean true => true | _ => false end.

Definition is_string (s : string) (v : Value) : bool :=
  match v with Str s' => String.eqb s' s | _ => false end.

(** [a || b]. *)
Definition or_else (a b : Value) : Value := if truthy a then a else b.

End Js.

(* ================================================================== *)
(** ** The map collaborator

    The script imports Leaflet 1.9.4.  Its map is modelled by what the
    script can observe of it: a registry of layers keyed by the stamp
    each layer receives when it is first added, one open popup, a view,
    and the two checks by which its constructors throw.  What the view
    becomes when the script asks for one (zoom limits, panning by whole
    pixels) or opens a popup (the automatic pan that brings it into
    view) is Leaflet's business: it is a parameter of the development. *)
(* ================================================================== *)

Module Coord.
Record LatLng := mkLatLng { lat : float; lng : float }.
End Coord.
Export Coord.

Module Leaflet.

Inductive Layer :=
| TileLayer (url : string)
| CircleMarker (latlng : LatLng) (radius : float)
    (fillColor color : string) (weight fillOpacity : float)
| Circle (latlng : LatLng) (radius : float)
    (color : string) (weight opacity : float) (fill : bool)
| Marker (latlng : LatLng).

Record Popup := mkPopup { popup_latlng : LatLng; popup_content : string }.

Record Map := mkMap {
  layers : gmap positive Layer;
  lastId : positive;
  center : LatLng;
  zoom : Js.Value;
  popup : option Popup
}.

(** [new LatLng (lat, lng)], through which every position given to
    Leaflet goes: it throws when a coordinate is not a number. *)
Definition invalid_LatLng (c : LatLng) : Js.Error :=
  Js.PlainError ("Invalid LatLng object: (" ++ NumberToString (lat c)
                   ++ ", " ++ NumberToString (lng c) ++ ")").

Definition toLatLng (c : LatLng) : Js.Error + LatLng :=
  if is_nan (lat c) || is_nan (lng c) then inl (invalid_LatLng c) else inr c.

(** [L.circleMarker (latlng, options)]. *)
Definition circleMarker (latlng : LatLng) (radius : float)
  (fillColor color : string) (weight fillOpacity : float) : Js.Error + Layer :=
  match toLatLng latlng with
  | inl e => inl e
  | inr c => inr (CircleMarker c radius fillColor color weight fillOpacity)
  end.

(** [L.circle (latlng, options)]: after the position, the radius is
    checked. *)
Definition circle (latlng : LatLng) (radius : float)
  (color : string) (weight opacity : float) (fill : bool) : Js.Error + Layer :=
  match toLatLng latlng with
  | inl e => inl e
  | inr c =>
      if is_nan radius then inl (Js.PlainError "Circle radius cannot be NaN")
      else inr (Circle c radius color weight opacity fill)
  end.

(** [L.marker (latlng)]. *)
Definition marker (latlng : LatLng) : Js.Error + Layer :=
  match toLatLng latlng with
  | inl e => inl e
  | inr c => inr (Marker c)
  end.

(** [L.popup (options).setLatLng (latlng).setContent (content)]. *)
Definition popupAt (latlng : LatLng) (content : string) : Js.Error + Popup :=
  match toLatLng latlng with
  | inl e => inl e
  | inr c => inr (mkPopup c content)
  end.

(** [layer.addTo (map)]: the layer is stamped and registered. *)
Definition addLayer (l : Layer) (m : Map) : positive * Map :=
  let id := Pos.succ (lastId m) in
  (id, mkMap (<[id := l]> (layers m)) id (center m) (zoom m) (popup m)).

Definition removeLayer (id : positive) (m : Map) : Map :=
  mkMap (delete id (layers m)) (lastId m) (center m) (zoom m) (popup m).

Definition hasLayer (id : positive) (m : Map) : bool :=
  bool_decide (is_Some (layers m !! id)).

(** *** The view

    A view is a centre and a zoom.  [settle c z v] is the view the map
    settles on when [setView (c, z)] is called in the view [v], and
    [reveal p v] the view after the popup [p] has been opened in [v].
    Three facts about [setView] are relied on: asking for the view the
    map is in changes nothing, asking twice is asking once, and asking
    for the zoom the map is at keeps that zoom. *)
Definition View : Type := LatLng * Js.Value.

Record ViewModel := mkViewModel {
  settle : LatLng -> Js.Value -> View -> View;
  reveal : Popup -> View -> View;
  settle_current : forall v : View, settle v.1 v.2 v = v;
  settle_again :
    forall (c : LatLng) (z : Js.Value) (v : View),
      settle c z (settle c z v) = settle c z v;
  settle_zoom : forall (c : LatLng) (v : View), (settle c v.2 v).2 = v.2
}.

Definition view (m : Map) : View := (center m, zoom m).

Definition with_view (v : View) (m : Map) : Map :=
  mkMap (layers m) (lastId m) v.1 v.2 (popup m).

(** [map.setView (center, zoom)]. *)
Definition setView (V : ViewModel) (c : LatLng) (z : Js.Value) (m : Map)
  : Js.Error + Map :=
  match toLatLng c with
  | inl e => inl e
  | inr c => inr (with_view (settle V c z (view m)) m)
  end.

(** [popup.openOn (map)]: the popup replaces the open one. *)
Definition openPopup (V : ViewModel) (p : Popup) (m : Map) : Map :=
  mkMap (layers m) (lastId m) (reveal V p (view m)).1 (reveal V p (view m)).2
    (Some p).

End Leaflet.

(* ================================================================== *)
(** ** The program [app.js] *)
(* ================================================================== *)

Module App.

Import Leaflet.

Definition FOUND_RADIUS_METERS : float := 20.
Definition HOT_RADIUS_METERS : float := 1200.
Definition START_ZOOM : float := 7.

(** The two draws of [Math.random ()] are inputs of [randomOffset]. *)
Definition randBetween (random min max : float) : float :=
  random * (max - min) + min.

Definition randomOffset (random1 random2 : float) : LatLng :=
  {| lat := randBetween random1 (-0.6) 0.6;
     lng := randBetween random2 (-1.2) 1.2 |}.

(** The module-level bindings ([TARGET], [START_OFFSET], [lastMarker],
    [lastCircle], [prevDistance], [map]) and the console. *)
Record State := mkState {
  TARGET : LatLng;
  START_OFFSET : LatLng;
  lastMarker : option positive;
  lastCircle : option positive;
  prevDistance : option float;
  map : Map;
  console : list string
}.

Definition initial_TARGET : LatLng :=
  {| lat := 32 + 42.568 / 60; lng := 35 + 6.469 / 60 |}.

Definition tiles : string := "https://{s}.tile.openstreetmap.org/{z}/{x}/{y}.png".

(** *** Statements: a state monad with exceptions *)

Inductive Completion (A : Type) :=
| Normal (a : A) (s : State)
| Throw (e : Js.Error) (s : State).
Arguments Normal {A} a s.
Arguments Throw {A} e s.

Definition M (A : Type) : Type := State -> Completion A.

Definition ret {A} (a : A) : M A := fun s => Normal a s.

Definition bind {A B} (m : M A) (k : A -> M B) : M B :=
  fun s =>
    match m s with
    | Normal a s' => k a s'
    | Throw e s' => Throw e s'
    end.

Notation "'let!' x ':=' m 'in' k" := (bind m (fun x => k))
  (at level 10, x name, m at level 100, k at level 200).
Notation "m ';;' k" := (bind m (fun _ => k))
  (at level 100, k at level 200, right associativity).

Definition gets {A} (f : State -> A) : M A := fun s => Normal (f s) s.
Definition modify (f : State -> State) : M unit := fun s => Normal tt (f s).

Definition lift {A} (r : Js.Error + A) : M A :=
  fun s => match r with inl e => Throw e s | inr a => Normal a s end.

Definition final_state {A} (c : Completion A) : State :=
  match c with Normal _ s => s | Throw _ s => s end.

(** Assignments to the module-level bindings. *)
Definition set_TARGET (v : LatLng) : M unit :=
  modify (fun s => mkState v (START_OFFSET s) (lastMarker s) (lastCircle s)
                     (prevDistance s) (map s) (console s)).
Definition set_lastMarker (v : option positive) : M unit :=
  modify (fun s => mkState (TARGET s) (START_OFFSET s) v (lastCircle s)
                     (prevDistance s) (map s) (console s)).
Definition set_lastCircle (v : option positive) : M unit :=
  modify (fun s => mkState (TARGET s) (START_OFFSET s) (lastMarker s) v
                     (prevDistance s) (map s) (console s)).
Definition set_prevDistance (v : option float) : M unit :=
  modify (fun s => mkState (TARGET s) (START_OFFSET s) (lastMarker s)
                     (lastCircle s) v (map s) (console s)).
Definition on_map (f : Map -> Map) : M unit :=
  modify (fun s => mkState (TARGET s) (START_OFFSET s) (lastMarker s)
                     (lastCircle s) (prevDistance s) (f (map s)) (console s)).
(** A call on the map that may throw. *)
Definition try_on_map (f : Map -> Js.Error + Map) : M unit :=
  let! m := gets map in
  let! m' := lift (f m) in
  on_map (fun _ => m').
Definition console_warn (msg : string) : M unit :=
  modify (fun s => mkState (TARGET s) (START_OFFSET s) (lastMarker s)
                     (lastCircle s) (prevDistance s) (map s)
                     (console s ++ msg :: nil)).

(** [layer.addTo (map)], returning the reference to the new layer. *)
Definition addTo_map (l : Layer) : M positive :=
  let! m := gets map in
  on_map (fun _ => (addLayer l m).2) ;;
  ret (addLayer l m).1.

(** [if (ref) map.removeLayer (ref)]. *)
Definition remove_if_set (ref : option positive) : M unit :=
  match ref with
  | Some id => on_map (removeLayer id)
  | None => ret tt
  end.

(** *** [lerpColor] *)

Definition lerpColor (t : float) : string :=
  let cold := (0x2c, 0x98, 0xf0) in
  let hot := (0xe2, 0x4b, 0x4b) in
  let r := Math_round (cold.1.1 + (hot.1.1 - cold.1.1) * t) in
  let g := Math_round (cold.1.2 + (hot.1.2 - cold.1.2) * t) in
  let b := Math_round (cold.2 + (hot.2 - cold.2) * t) in
  "rgb(" ++ NumberToString r ++ "," ++ NumberToString g ++ ","
    ++ NumberToString b ++ ")".

(** *** [formatDeg] *)

Definition formatDeg (latOrLng : float) : string :=
  let negative := latOrLng <? 0 in
  let abs := Math_abs latOrLng in
  let deg := Math_floor abs in
  let minutes := (abs - deg) * 60 in
  NumberToString deg ++ "° " ++ toFixed minutes 3 ++ "'"
    ++ (if negative then "W/S" else "").

(** *** The feedback computed by [onMapClick] *)

(** Lines 89-90: the heat of a distance. *)
Definition heatOf (d : float) : float :=
  let raw := 1 - Math_min d HOT_RADIUS_METERS / HOT_RADIUS_METERS in
  Math_max 0 (Math_min 1 raw).

(** Lines 93-115: the label. *)
Definition chooseTitle (d heat : float) (prevDistance : option float) : string :=
  if d <=? FOUND_RADIUS_METERS then "FOUND!"
  else
    match prevDistance with
    | None =>
        if 0.72 <=? heat then "Very Hot"
        else if 0.36 <=? heat then "Warm"
        else "Cold"
    | Some prevDistance =>
        let EPS := 0.5 in
        if d <? prevDistance - EPS then "Warmer"
        else if prevDistance + EPS <? d then "Colder"
        else "Same"
    end.

(** Lines 141-144: the popup body. *)
Definition popupBody (d : float) (target : LatLng) : string :=
  if d <=? FOUND_RADIUS_METERS
  then "Coordinates: N " ++ formatDeg (lat target) ++ "  E "
         ++ formatDeg (lng target)
  else "".

(** Lines 154-156: the popup content. *)
Definition dquote : string := String (ascii_of_nat 34) EmptyString.

Definition popupContent (title body : string) : string :=
  match body with
  | EmptyString => "<strong>" ++ title ++ "</strong>"
  | _ =>
      "<strong>" ++ title
        ++ "</strong><div style=" ++ dquote
        ++ "margin-top:6px;white-space:pre-line" ++ dquote ++ ">"
        ++ body ++ "</div>"
  end.

(** *** The engine's transcendental functions

    ECMA-262 fixes the results of [Math.sin], [Math.cos] and [Math.atan2]
    at NaN, zeros and infinities and leaves the rest to an
    implementation-approximated value: that part is a parameter. *)

Section Engine.

Variable sin_approx cos_approx : float -> float.
Variable atan2_approx : float -> float -> float.

Definition Math_sin (x : float) : float :=
  if is_nan x then nan
  else if is_zero x then x
  else if is_infinity x then nan
  else sin_approx x.

Definition Math_cos (x : float) : float :=
  if is_nan x then nan
  else if is_zero x then 1
  else if is_infinity x then nan
  else cos_approx x.

Definition Math_atan2 (y x : float) : float :=
  if is_nan y || is_nan x then nan
  else if is_zero y && ((0 <? x) || (is_zero x && negb (get_sign x)))
  then y
  else atan2_approx y x.

(** *** [distanceMeters]: haversine distance in meters *)

Definition toRad (d : float) : float := (d * Math_PI) / 180.

Definition distanceMeters (a b : LatLng) : float :=
  let R := 6371000 in
  let dLat := toRad (lat b - lat a) in
  let dLon := toRad (lng b - lng a) in
  let lat1 := toRad (lat a) in
  let lat2 := toRad (lat b) in
  let sinDlat := Math_sin (dLat / 2) in
  let sinDlon := Math_sin (dLon / 2) in
  let aa := sinDlat * sinDlat
            + Math_cos lat1 * Math_cos lat2 * sinDlon * sinDlon in
  let c := 2 * Math_atan2 (Math_sqrt aa) (Math_sqrt (1 - aa)) in
  R * c.

End Engine.

(** *** The handlers, for a given behaviour of the view *)

Inductive Event :=
| Guess (latlng : LatLng)
| KeyDown (key : string)
| SetTarget (lat lng opts : Js.Value).

Section Handlers.

Variable V : ViewModel.
Variable sin_approx cos_approx : float -> float.
Variable atan2_approx : float -> float -> float.

(** Lines 31-43 and 205: the map is made with its centre and zoom, the
    tile layer is added, and the same view is asked for once more (the
    draws of [Math.random] are numbers, and so is the centre). *)
Definition initial_state (random1 random2 : float) : State :=
  let offset := randomOffset random1 random2 in
  let view :=
    {| lat := lat initial_TARGET + lat offset;
       lng := lng initial_TARGET + lng offset |} in
  let m := mkMap ∅ 1%positive view (Js.Number START_ZOOM) None in
  let m := (addLayer (TileLayer tiles) m).2 in
  {| TARGET := initial_TARGET;
     START_OFFSET := offset;
     lastMarker := None;
     lastCircle := None;
     prevDistance := None;
     map := match setView V view (Js.Number START_ZOOM) m with
            | inr m' => m'
            | inl _ => m
            end;
     console := nil |}.

(** *** [onMapClick] *)

Definition onMapClick (e : LatLng) : M unit :=
  let clicked := {| lat := lat e; lng := lng e |} in
  let! target := gets TARGET in
  let d := distanceMeters sin_approx cos_approx atan2_approx clicked target in
  (* remove previous visuals *)
  let! marker := gets lastMarker in
  remove_if_set marker ;;
  let! circle := gets lastCircle in
  remove_if_set circle ;;
  (* heat and label *)
  let heat := heatOf d in
  let! prev := gets prevDistance in
  let title := chooseTitle d heat prev in
  (* color and marker scale respond to heat *)
  let color := lerpColor heat in
  let markerRadius := 6 + Math_round (6 * heat) in
  let ringRadius := Math_min (Math_max 20 d) 300 in
  (* marker at click *)
  let! l := lift (Leaflet.circleMarker clicked markerRadius color "#fff" 2 0.95) in
  let! m := addTo_map l in
  set_lastMarker (Some m) ;;
  (* ring *)
  let! l := lift (Leaflet.circle clicked ringRadius color 1.4
                    (0.35 + 0.5 * heat) false) in
  let! c := addTo_map l in
  set_lastCircle (Some c) ;;
  (* popup *)
  let body := popupBody d target in
  let! p := lift (popupAt clicked (popupContent title body)) in
  on_map (openPopup V p) ;;
  (* store this click distance for the next comparison *)
  set_prevDistance (Some d).

(** The [keydown] listener: Enter places a guess at the view's center. *)
Definition onKeyDown (key : string) : M unit :=
  if String.eqb key "Enter"
  then (let! m := gets map in onMapClick (center m))
  else ret tt.

(** *** [setTarget] *)

Definition setTarget (lat lng : Js.Value) (opts : Js.Value) : M unit :=
  let opts := match opts with Js.Undefined => Js.Object nil | _ => opts end in
  match lat, lng with
  | Js.Number lat, Js.Number lng =>
      set_TARGET {| lat := lat; lng := lng |} ;;
      (* clear visual state *)
      let! marker := gets lastMarker in
      match marker with
      | Some id => on_map (removeLayer id) ;; set_lastMarker None
      | None => ret tt
      end ;;
      let! circle := gets lastCircle in
      match circle with
      | Some id => on_map (removeLayer id) ;; set_lastCircle None
      | None => ret tt
      end ;;
      set_prevDistance None ;;
      (* optionally recenter the map around the new target *)
      let! recenter := lift (Js.get opts "recenter") in
      (if Js.is_true recenter then
         let! offset := gets START_OFFSET in
         let! zoom := lift (Js.get opts "zoom") in
         let! m := gets map in
         try_on_map (setView V {| lat := lat + Coord.lat offset;
                                  lng := lng + Coord.lng offset |}
                       (Js.or_else zoom (Leaflet.zoom m)))
       else if Js.is_string "center" recenter then
         let! zoom := lift (Js.get opts "zoom") in
         let! m := gets map in
         try_on_map (setView V {| lat := lat; lng := lng |}
                       (Js.or_else zoom (Leaflet.zoom m)))
       else ret tt) ;;
      (* debug marker for the new target *)
      let! debug := lift (Js.get opts "debug") in
      if Js.truthy debug then
        let! l := lift (Leaflet.marker {| lat := lat; lng := lng |}) in
        let! _ := addTo_map l in
        on_map (openPopup V (mkPopup {| lat := lat; lng := lng |} "Target set"))
      else ret tt
  | _, _ => console_warn "setTarget requires numeric lat and lng"
  end.

(** *** Events

    Clicks, converted touches and the Enter key all end in [onMapClick];
    [setTarget] is called from the console or from other scripts.  An
    exception thrown by a handler leaves the state as it was when thrown. *)

Definition handle (ev : Event) : M unit :=
  match ev with
  | Guess latlng => onMapClick latlng
  | KeyDown key => onKeyDown key
  | SetTarget lat lng opts => setTarget lat lng opts
  end.

Definition step (s : State) (ev : Event) : State := final_state (handle ev s).

Definition run (s : State) (evs : list Event) : State := fold_left step evs s.

Inductive reachable : State -> Prop :=
| reachable_initial random1 random2 :
    reachable (initial_state random1 random2)
| reachable_step s ev : reachable s -> reachable (step s ev).

End Handlers.

End App.
Export App.
Import Leaflet.

(* ================================================================== *)
(** ** Specification-level definitions *)
(* ================================================================== *)


(** The popup content shown by the last guess. *)
Definition shown (s : State) : string :=
  match popup (map s) with
  | Some p => popup_content p
  | None => EmptyString
  end.

(** The drawn overlays: the circle markers and circles on the map. *)
Definition is_overlay (l : Layer) : bool :=
  match l with
  | CircleMarker _ _ _ _ _ _ | Circle _ _ _ _ _ _ => true
  | _ => false
  end.


(** The registry once the referenced marker and ring are removed. *)
Definition cleared_layers (s : State) : gmap positive Layer :=
  match lastCircle s with
  | Some c => delete c
  | None => fun m => m
  end
    (match lastMarker s with
     | Some m => delete m
     | None => fun m => m
     end (layers (map s))).


Section GuessMap.

Context (V : ViewModel).
Context (sin_approx cos_approx : float -> float).
Context (atan2_approx : float -> float -> float).

(** The state in which a guess ends when the position of the guess is
    rejected by [L.circleMarker]: the old visuals are off the map, the
    references to them are still held. *)
Definition guess_rejected (s : State) : State :=
  {| TARGET := TARGET s;
     START_OFFSET := START_OFFSET s;
     lastMarker := lastMarker s;
     lastCircle := lastCircle s;
     prevDistance := prevDistance s;
     map := mkMap (cleared_layers s) (lastId (map s)) (center (map s))
              (zoom (map s)) (popup (map s));
     console := console s |}.

(** The state in which a guess ends when [L.circle] rejects its radius:
    the new marker is drawn and referenced, the ring reference is the
    old one, the popup and the previous distance are the old ones. *)
Definition guess_marked (e : LatLng) (s : State) : State :=
  let d := distanceMeters sin_approx cos_approx atan2_approx e (TARGET s) in
  let heat := heatOf d in
  let id1 := Pos.succ (lastId (map s)) in
  {| TARGET := TARGET s;
     START_OFFSET := START_OFFSET s;
     lastMarker := Some id1;
     lastCircle := lastCircle s;
     prevDistance := prevDistance s;
     map := mkMap
              (<[id1 := CircleMarker e (6 + Math_round (6 * heat))
                          (lerpColor heat) "#fff" 2 0.95]> (cleared_layers s))
              id1 (center (map s)) (zoom (map s)) (popup (map s));
     console := console s |}.

(** The popup of a guess. *)
Definition guess_popup (e : LatLng) (s : State) : Popup :=
  let d := distanceMeters sin_approx cos_approx atan2_approx e (TARGET s) in
  mkPopup e (popupContent (chooseTitle d (heatOf d) (prevDistance s))
               (popupBody d (TARGET s))).

(** The map after a guess that returns: the old visuals are gone, the
    new marker and ring are registered under two fresh stamps, the popup
    is open and the view is where opening it has left it. *)
Definition guess_map (e : LatLng) (s : State) : Map :=
  let d := distanceMeters sin_approx cos_approx atan2_approx e (TARGET s) in
  let heat := heatOf d in
  let color := lerpColor heat in
  let id1 := Pos.succ (lastId (map s)) in
  let id2 := Pos.succ id1 in
  let v := reveal V (guess_popup e s) (view (map s)) in
  mkMap
    (<[id2 := Circle e (Math_min (Math_max 20 d) 300) color 1.4
                (0.35 + 0.5 * heat) false]>
       (<[id1 := CircleMarker e (6 + Math_round (6 * heat)) color "#fff"
                   2 0.95]> (cleared_layers s)))
    id2 v.1 v.2 (Some (guess_popup e s)).

(** The state after a guess that returns. *)
Definition guess_state (e : LatLng) (s : State) : State :=
  {| TARGET := TARGET s;
     START_OFFSET := START_OFFSET s;
     lastMarker := Some (Pos.succ (lastId (map s)));
     lastCircle := Some (Pos.succ (Pos.succ (lastId (map s))));
     prevDistance :=
       Some (distanceMeters sin_approx cos_approx atan2_approx e (TARGET s));
     map := guess_map e s;
     console := console s |}.

End GuessMap.

(** The view that is exactly the one asked for, and that no popup
    moves: one behaviour of the view among those allowed, to run closed
    examples. *)
Definition exact_view : ViewModel :=
  {| settle := fun c z _ => (c, z);
     reveal := fun _ v => v;
     settle_current := fun v => match v with (c, z) => eq_refl end;
     settle_again := fun _ _ _ => eq_refl;
     settle_zoom := fun _ _ => eq_refl |}.

(** First-order approximations of the engine's three functions (sine of
    a small angle is the angle, its cosine is one, the arc tangent of a
    small ratio is the ratio), to run closed examples. *)
Definition sin1 (x : float) : float := x.
Definition cos1 (x : float) : float := 1.
Definition atan2_1 (y x : float) : float := y / x.



(** The clamp to the unit interval used for the heat (line 90). *)
Definition clamp01 (x : float) : float := Math_max 0 (Math_min 1 x).

(* ================================================================== *)
(** ** Real values of binary64 numbers and round-to-nearest *)
(* ================================================================== *)

(** [2^e] for integer [e]. *)
Definition bpow (e : Z) : R := powerRZ 2 e.

Definition F2R (m e : Z) : R := (IZR m * bpow e)%R.

(** The real value of a finite number (zero for the others). *)
Definition SF2R (f : spec_float) : R :=
  match f with
  | S754_finite s m e => F2R (signed s m) e
  | _ => 0%R
  end.

Definition B2R (x : float) : R := SF2R (Prim2SF x).

Definition SFfinite (f : spec_float) : bool :=
  match f with
  | S754_finite _ _ _ | S754_zero _ => true
  | _ => false
  end.

(** Finite numbers: zeros included, NaN and the infinities excluded. *)
Definition finite (x : float) : bool := SFfinite (Prim2SF x).

(** A real [x] seen from the grid point [m * 2^e] just below it. *)
Definition located (x : R) (m e : Z) (l : location) : Prop :=
  match l with
  | loc_Exact => x = F2R m e
  | loc_Inexact Lt => (F2R m e < x < F2R m e + bpow e / 2)%R
  | loc_Inexact Eq => x = (F2R m e + bpow e / 2)%R
  | loc_Inexact Gt => (F2R m e + bpow e / 2 < x < F2R m e + bpow e)%R
  end.

(** The reals with a 53-bit mantissa and an exponent not below [emin]
    (no upper bound on the exponent). *)
Definition fmt (v : R) : Prop :=
  exists k e : Z, v = F2R k e /\ (emin <= e)%Z /\ (Z.abs k <= 2 ^ 53)%Z.

(** [v] is a point of the format nearest to [x]. *)
Definition nearest (x v : R) : Prop :=
  fmt v /\ forall b, fmt b -> (Rabs (x - v) <= Rabs (x - b))%R.

(** The number [r] is a rounding to nearest of the real [x], with
    overflow to an infinity. *)
Definition rounds (x : R) (r : spec_float) : Prop :=
  valid_binary r = true
  /\ exists v,
      nearest x v
      /\ match r with
         | S754_nan => False
         | S754_infinity s =>
             (bpow 1024 <= Rabs v)%R /\ (if s then v < 0 else 0 < v)%R
         | S754_zero _ => v = 0%R
         | S754_finite _ _ _ => SF2R r = v
         end.

(** The order of two valid positive numbers, read off their fields. *)
Definition cmp_fields (p1 : positive) (e1 : Z) (p2 : positive) (e2 : Z)
  : comparison :=
  match Z.compare e1 e2 with
  | Lt => Lt
  | Gt => Gt
  | Eq => Pos.compare_cont Eq p1 p2
  end.

Definition Rcmp (x y : R) (c : comparison) : Prop :=
  match c with
  | Lt => (x < y)%R
  | Eq => x = y
  | Gt => (y < x)%R
  end.


(* ================================================================== *)
(** ** The [touchend] listener, and properties of events and states *)
(* ================================================================== *)

(** [try { body } catch (err) { handler }]. *)
Definition try_catch {A} (body : M A) (handler : Js.Error -> M A) : M A :=
  fun s =>
    match body s with
    | Normal a s' => Normal a s'
    | Throw e s' => handler e s'
    end.

(** [String (err)] for an error object. *)
Definition error_text (e : Js.Error) : string :=
  match e with
  | Js.TypeError message => "TypeError: " ++ message
  | Js.PlainError message => "Error: " ++ message
  end.

(** A touch point of a [TouchEvent], and a pixel position in the map's
    container. *)
Record Touch := mkTouch { clientX : float; clientY : float }.
Record Point := mkPoint { point_x : float; point_y : float }.

Section TouchEnd.

Variable V : ViewModel.
Variable sin_approx cos_approx : float -> float.
Variable atan2_approx : float -> float -> float.

(** Leaflet's two conversions, which may throw. *)
Variable mouseEventToContainerPoint : Map -> Touch -> Js.Error + Point.
Variable containerPointToLatLng : Map -> Point -> Js.Error + LatLng.

(** Lines 188-201.  [changedTouches] is [None] when the event has no
    such list; the two arguments of [console.warn] are recorded as one
    entry, joined by a space.  The guess is inside the [try] block: what
    it throws is caught as well. *)
Definition onTouchEnd (changedTouches : option (list Touch)) : M unit :=
  try_catch
    (match changedTouches with
     | Some (t :: _) =>
         let! m := gets map in
         let! containerPoint := lift (mouseEventToContainerPoint m t) in
         let! m := gets map in
         let! latlng := lift (containerPointToLatLng m containerPoint) in
         onMapClick V sin_approx cos_approx atan2_approx latlng
     | _ => ret tt
     end)
    (fun err =>
       console_warn ("touchend conversion failed " ++ error_text err)).

End TouchEnd.

(** A call of [setTarget] that passes the numeric check. *)
Definition is_retarget (ev : Event) : bool :=
  match ev with
  | SetTarget (Js.Number _) (Js.Number _) _ => true
  | _ => false
  end.


(** Rings, among the overlays. *)
Definition is_ring (l : Layer) : bool :=
  match l with
  | Circle _ _ _ _ _ _ => true
  | _ => false
  end.

(** What holds of the drawing at any time: a circle marker on the map is
    the one [lastMarker] refers to and a ring the one [lastCircle]
    refers to, so that there is at most one of each; and a ring is never
    on the map without its marker and a previous distance. *)
Definition in_step (s : State) : Prop :=
  (forall id l,
      layers (map s) !! id = Some l -> is_overlay l = true ->
      if is_ring l then lastCircle s = Some id else lastMarker s = Some id)
  /\ (forall m l,
         lastMarker s = Some m -> layers (map s) !! m = Some l ->
         is_overlay l = true /\ is_ring l = false)
  /\ (forall c l,
         lastCircle s = Some c -> layers (map s) !! c = Some l ->
         is_ring l = true
         /\ prevDistance s <> None
         /\ exists m lm,
             lastMarker s = Some m /\ m <> c
             /\ layers (map s) !! m = Some lm).

(* ================================================================== *)
(** ** Powers of two *)
(* ================================================================== *)

Local Open Scope R_scope.

Lemma bpow_gt_0 e : 0 < bpow e.
Proof. apply powerRZ_lt. lra. Qed.

Lemma bpow_add e1 e2 : bpow (e1 + e2) = bpow e1 * bpow e2.
Proof. apply powerRZ_add. lra. Qed.

Lemma bpow_succ e : bpow (e + 1) = 2 * bpow e.
Proof. rewrite bpow_add. unfold bpow at 2. simpl. lra. Qed.

Lemma bpow_pred e : bpow (e - 1) = bpow e / 2.
Proof.
  replace e with ((e - 1) + 1)%Z at 2 by lia. rewrite bpow_succ. lra.
Qed.

Lemma bpow_0 : bpow 0 = 1.
Proof. reflexivity. Qed.

Lemma bpow_IZR (n : Z) : (0 <= n)%Z -> bpow n = IZR (2 ^ n).
Proof.
  intros Hn. pattern n. apply natlike_ind; [reflexivity | | exact Hn].
  intros k Hk IH. unfold Z.succ. rewrite bpow_succ, IH, Z.pow_add_r by lia.
  rewrite mult_IZR. change (2 ^ 1)%Z with 2%Z. lra.
Qed.

Lemma bpow_le e1 e2 : (e1 <= e2)%Z -> bpow e1 <= bpow e2.
Proof.
  intros H. replace e2 with (e1 + (e2 - e1))%Z by lia.
  rewrite bpow_add, (bpow_IZR (e2 - e1)) by lia.
  assert (1 <= IZR (2 ^ (e2 - e1))).
  { apply IZR_le. assert (0 < 2 ^ (e2 - e1))%Z by (apply Z.pow_pos_nonneg; lia). lia. }
  pose proof (bpow_gt_0 e1). nra.
Qed.

Lemma bpow_lt e1 e2 : (e1 < e2)%Z -> bpow e1 < bpow e2.
Proof.
  intros H. apply Rlt_le_trans with (bpow (e1 + 1)).
  - rewrite bpow_succ. pose proof (bpow_gt_0 e1). lra.
  - apply bpow_le. lia.
Qed.

Lemma bpow_lt_inv e1 e2 : bpow e1 < bpow e2 -> (e1 < e2)%Z.
Proof.
  intros H. destruct (Z_lt_le_dec e1 e2) as [|Hle]; [assumption|].
  apply bpow_le in Hle. lra.
Qed.

Lemma F2R_0 e : F2R 0 e = 0.
Proof. unfold F2R. lra. Qed.

Lemma F2R_shift m e k :
  (0 <= k)%Z -> F2R (m * 2 ^ k) (e - k) = F2R m e.
Proof.
  intros Hk. unfold F2R. rewrite mult_IZR, <- bpow_IZR by lia.
  replace e with ((e - k) + k)%Z at 2 by lia. rewrite bpow_add. lra.
Qed.

Lemma F2R_opp m e : F2R (- m) e = - F2R m e.
Proof. unfold F2R. rewrite opp_IZR. lra. Qed.

Lemma F2R_le m1 m2 e : (m1 <= m2)%Z -> F2R m1 e <= F2R m2 e.
Proof.
  intros H. unfold F2R. apply IZR_le in H. pose proof (bpow_gt_0 e). nra.
Qed.

Lemma F2R_lt m1 m2 e : (m1 < m2)%Z -> F2R m1 e < F2R m2 e.
Proof.
  intros H. unfold F2R. apply IZR_lt in H. pose proof (bpow_gt_0 e). nra.
Qed.

Lemma F2R_lt_inv m1 m2 e : F2R m1 e < F2R m2 e -> (m1 < m2)%Z.
Proof.
  intros H. destruct (Z_lt_le_dec m1 m2) as [|Hle]; [assumption|].
  apply (F2R_le _ _ e) in Hle. lra.
Qed.

Lemma F2R_le_inv m1 m2 e : F2R m1 e <= F2R m2 e -> (m1 <= m2)%Z.
Proof.
  intros H. destruct (Z_le_gt_dec m1 m2) as [|Hgt]; [assumption|].
  assert (m2 < m1)%Z as Hlt by lia. apply (F2R_lt _ _ e) in Hlt. lra.
Qed.

Lemma F2R_succ m e : F2R (m + 1) e = F2R m e + bpow e.
Proof. unfold F2R. rewrite plus_IZR. lra. Qed.

(** *** Binary digits *)

Lemma digits2_pos_bounds (p : positive) :
  (2 ^ (Zpos (digits2_pos p) - 1) <= Zpos p < 2 ^ Zpos (digits2_pos p))%Z.
Proof.
  induction p as [p IH | p IH |]; cbn [digits2_pos].
  - rewrite Pos2Z.inj_succ.
    replace (Z.succ (Zpos (digits2_pos p)) - 1)%Z
      with (Z.succ (Zpos (digits2_pos p) - 1)) by lia.
    rewrite !Z.pow_succ_r by lia. lia.
  - rewrite Pos2Z.inj_succ.
    replace (Z.succ (Zpos (digits2_pos p)) - 1)%Z
      with (Z.succ (Zpos (digits2_pos p) - 1)) by lia.
    rewrite !Z.pow_succ_r by lia. lia.
  - cbn. lia.
Qed.

Lemma Zdigits2_bounds (m : Z) :
  (0 < m)%Z -> (2 ^ (Zdigits2 m - 1) <= m < 2 ^ Zdigits2 m)%Z.
Proof.
  destruct m as [|p|p]; try lia. intros _. apply digits2_pos_bounds.
Qed.

Lemma Zdigits2_unique (m d : Z) :
  (2 ^ (d - 1) <= m < 2 ^ d)%Z -> (0 < d)%Z -> Zdigits2 m = d.
Proof.
  intros H Hd.
  assert (0 < m)%Z as Hm.
  { assert (0 < 2 ^ (d - 1))%Z by (apply Z.pow_pos_nonneg; lia). lia. }
  pose proof (Zdigits2_bounds m Hm) as H'.
  assert (0 < Zdigits2 m)%Z as Hd' by (destruct m; cbn; lia).
  destruct (Z.lt_trichotomy (Zdigits2 m) d) as [Hlt | [Heq | Hgt]]; [|exact Heq|].
  - assert (2 ^ Zdigits2 m <= 2 ^ (d - 1))%Z by (apply Z.pow_le_mono_r; lia). lia.
  - assert (2 ^ d <= 2 ^ (Zdigits2 m - 1))%Z by (apply Z.pow_le_mono_r; lia). lia.
Qed.

(** *** Shifting a mantissa right keeps track of the real it stands for *)

Lemma shr_1_located (x : R) (mrs : shr_record) (e : Z) :
  (0 <= shr_m mrs)%Z ->
  located x (shr_m mrs) e (loc_of_shr_record mrs) ->
  located x (shr_m (shr_1 mrs)) (e + 1) (loc_of_shr_record (shr_1 mrs))
  /\ (0 <= shr_m (shr_1 mrs))%Z
  /\ shr_m (shr_1 mrs) = (shr_m mrs / 2)%Z.
Proof.
  destruct mrs as [m r s]. cbn [shr_m]. intros Hm H.
  assert (forall p : positive, (Zpos p~0 / 2 = Zpos p)%Z) as HxO
    by (intros p; rewrite Pos2Z.inj_xO, Z.mul_comm, Z.div_mul; lia).
  assert (forall p : positive, (Zpos p~1 / 2 = Zpos p)%Z) as HxI.
  { intros p. rewrite Pos2Z.inj_xI. symmetry.
    apply (Z.div_unique _ 2 _ 1); lia. }
  pose proof (bpow_gt_0 e) as Hb.
  destruct m as [|[p|p|]|p]; try lia;
    (split; [|split; [cbn; lia | cbn; rewrite ?HxO, ?HxI; reflexivity]]);
    destruct r, s; cbn in H |- *; unfold located, F2R in *;
    rewrite ?bpow_succ, ?(IZR_POS_xO p), ?(IZR_POS_xI p) in *; lra.
Qed.

Lemma iter_pos_nat {A} (f : A -> A) (p : positive) (a : A) :
  SpecFloat.iter_pos f p a = Nat.iter (Pos.to_nat p) f a.
Proof.
  revert a. induction p as [p IH | p IH |]; intros a; cbn [SpecFloat.iter_pos].
  - rewrite !IH, Pos2Nat.inj_xI.
    replace (S (2 * Pos.to_nat p)) with (Pos.to_nat p + (Pos.to_nat p + 1))%nat by lia.
    rewrite !Nat.iter_add. reflexivity.
  - rewrite !IH, Pos2Nat.inj_xO.
    replace (2 * Pos.to_nat p)%nat with (Pos.to_nat p + Pos.to_nat p)%nat by lia.
    rewrite Nat.iter_add. reflexivity.
  - reflexivity.
Qed.

Lemma shr_iter_located (x : R) (n : nat) (mrs : shr_record) (e : Z) :
  (0 <= shr_m mrs)%Z ->
  located x (shr_m mrs) e (loc_of_shr_record mrs) ->
  let mrs' := Nat.iter n shr_1 mrs in
  located x (shr_m mrs') (e + Z.of_nat n) (loc_of_shr_record mrs')
  /\ (0 <= shr_m mrs')%Z
  /\ shr_m mrs' = (shr_m mrs / 2 ^ Z.of_nat n)%Z.
Proof.
  intros Hm H. induction n as [|n IH]; cbn zeta.
  - cbn [Nat.iter]. rewrite Z.add_0_r, Z.pow_0_r, Z.div_1_r. auto.
  - cbn zeta in IH. destruct IH as (IH1 & IH2 & IH3).
    destruct (shr_1_located x _ _ IH2 IH1) as (H1 & H2 & H3).
    change (Nat.iter (S n) shr_1 mrs) with (shr_1 (Nat.iter n shr_1 mrs)).
    rewrite Nat2Z.inj_succ. unfold Z.succ.
    rewrite Z.add_assoc. split; [exact H1|]. split; [exact H2|].
    rewrite H3, IH3, Z.pow_add_r, Z.pow_1_r by lia.
    rewrite Z.div_div; lia.
Qed.

Lemma loc_of_shr_record_of_loc m l :
  loc_of_shr_record (shr_record_of_loc m l) = l.
Proof. destruct l as [|[| |]]; reflexivity. Qed.

Lemma shr_m_record_of_loc m l : shr_m (shr_record_of_loc m l) = m.
Proof. destruct l as [|[| |]]; reflexivity. Qed.

(** [shr] by [n] bits: nothing happens when [n <= 0]. *)
Lemma shr_located (x : R) (m e n : Z) (l : location) :
  (0 <= m)%Z ->
  located x m e l ->
  let '(mrs', e') := shr (shr_record_of_loc m l) e n in
  e' = (e + Z.max n 0)%Z
  /\ located x (shr_m mrs') e' (loc_of_shr_record mrs')
  /\ (0 <= shr_m mrs')%Z
  /\ shr_m mrs' = (m / 2 ^ Z.max n 0)%Z.
Proof.
  intros Hm H. unfold shr. destruct n as [|p|p].
  - cbn [Z.max Z.compare]. rewrite Z.add_0_r, loc_of_shr_record_of_loc, shr_m_record_of_loc.
    rewrite Z.pow_0_r, Z.div_1_r. auto.
  - rewrite iter_pos_nat.
    assert (Z.max (Zpos p) 0 = Z.of_nat (Pos.to_nat p)) as -> by lia.
    pose proof (shr_iter_located x (Pos.to_nat p) (shr_record_of_loc m l) e) as H'.
    rewrite loc_of_shr_record_of_loc, shr_m_record_of_loc in H'.
    specialize (H' Hm H). cbn zeta in H'.
    replace (e + Zpos p)%Z with (e + Z.of_nat (Pos.to_nat p))%Z by lia.
    tauto.
  - assert (Z.max (Zneg p) 0 = 0%Z) as -> by lia.
    rewrite Z.add_0_r, loc_of_shr_record_of_loc, shr_m_record_of_loc.
    rewrite Z.pow_0_r, Z.div_1_r. auto.
Qed.

(** *** The format and its nearest points *)

Lemma Rabs_le_inv (a b : R) : Rabs a <= b -> - b <= a <= b.
Proof. unfold Rabs. destruct (Rcase_abs a); lra. Qed.

Lemma emin_eq : emin = (-1074)%Z.
Proof. reflexivity. Qed.

Lemma fexp_eq (e : Z) : fexp prec emax e = Z.max (e - 53) (-1074).
Proof. reflexivity. Qed.

Lemma fmt_0 : fmt 0.
Proof. exists 0%Z, 0%Z. rewrite F2R_0, emin_eq. repeat split; lia. Qed.

Lemma fmt_opp v : fmt v -> fmt (- v).
Proof.
  intros (k & e & -> & He & Hk). exists (- k)%Z, e.
  rewrite F2R_opp. repeat split; [assumption | lia].
Qed.

Lemma fmt_F2R k e : (emin <= e)%Z -> (Z.abs k <= 2 ^ 53)%Z -> fmt (F2R k e).
Proof. intros He Hk. exists k, e. auto. Qed.

Lemma nearest_opp x v : nearest x v -> nearest (- x) (- v).
Proof.
  intros [Hf Hn]. split; [apply fmt_opp, Hf|].
  intros b Hb. specialize (Hn (- b) (fmt_opp _ Hb)).
  replace (- x - - v) with (- (x - v)) by lra.
  replace (- x - b) with (- (x - - b)) by lra.
  rewrite !Rabs_Ropp. exact Hn.
Qed.

Lemma nearest_exact x v : fmt x -> nearest x v -> v = x.
Proof.
  intros Hx [_ Hn]. specialize (Hn x Hx).
  replace (x - x) with 0 in Hn by lra. rewrite Rabs_R0 in Hn.
  pose proof (Rabs_pos (x - v)) as Hp.
  assert (Rabs (x - v) = 0) as H0 by lra.
  destruct (Req_dec (x - v) 0) as [E | E]; [lra|].
  apply Rabs_no_R0 in E. contradiction.
Qed.

Lemma nearest_le x v b : nearest x v -> fmt b -> x <= b -> v <= b.
Proof.
  intros [_ Hn] Hb Hxb. specialize (Hn b Hb).
  destruct (Rle_dec v b) as [|Hgt]; [assumption|]. exfalso.
  rewrite (Rabs_left1 (x - v)), (Rabs_left1 (x - b)) in Hn by lra. lra.
Qed.

Lemma nearest_ge x v b : nearest x v -> fmt b -> b <= x -> b <= v.
Proof.
  intros Hn Hb Hbx.
  pose proof (nearest_le _ _ _ (nearest_opp _ _ Hn) (fmt_opp _ Hb)). lra.
Qed.

Lemma nearest_mono x y vx vy :
  nearest x vx -> nearest y vy -> x < y -> vx <= vy.
Proof.
  intros Hx Hy Hlt.
  destruct (Rle_dec vx vy) as [|Hgt]; [assumption|]. exfalso.
  assert (vy < vx) as Hvv by lra.
  destruct (Rle_dec x vy) as [Hxvy | Hxvy].
  { pose proof (nearest_le _ _ _ Hx (proj1 Hy) Hxvy). lra. }
  destruct (Rle_dec vx y) as [Hvxy | Hvxy].
  { pose proof (nearest_ge _ _ _ Hy (proj1 Hx) Hvxy). lra. }
  destruct Hx as [Hfx Hnx], Hy as [Hfy Hny].
  specialize (Hnx vy Hfy). specialize (Hny vx Hfx).
  rewrite (Rabs_left1 (x - vx)), (Rabs_right (x - vy)) in Hnx by lra.
  rewrite (Rabs_right (y - vy)), (Rabs_left1 (y - vx)) in Hny by lra.
  lra.
Qed.

(** A nearest multiple of [2^e] is nearest among all multiples. *)
Lemma grid_nearest_multiple (x : R) (k j e : Z) :
  Rabs (x - F2R k e) <= bpow e / 2 ->
  Rabs (x - F2R k e) <= Rabs (x - F2R j e).
Proof.
  intros H. pose proof (bpow_gt_0 e) as Hb.
  destruct (Z.lt_trichotomy j k) as [Hlt | [-> | Hgt]]; [| lra |].
  - assert (F2R j e + bpow e <= F2R k e).
    { rewrite <- F2R_succ. apply F2R_le. lia. }
    apply Rabs_le_inv in H.
    rewrite (Rabs_right (x - F2R j e)) by lra.
    apply Rabs_le. lra.
  - assert (F2R k e + bpow e <= F2R j e).
    { rewrite <- F2R_succ. apply F2R_le. lia. }
    apply Rabs_le_inv in H.
    rewrite (Rabs_left1 (x - F2R j e)) by lra.
    apply Rabs_le. lra.
Qed.

(** On the grid of the canonical exponent of [x], a nearest multiple is
    a nearest point of the format. *)
Lemma grid_nearest (x : R) (k e : Z) :
  0 < x ->
  (emin <= e)%Z ->
  (0 <= k <= 2 ^ 53)%Z ->
  Rabs (x - F2R k e) <= bpow e / 2 ->
  e = emin \/ bpow (e + 52) <= x ->
  nearest x (F2R k e).
Proof.
  intros Hx He Hk Hn Hc. split; [apply fmt_F2R; [assumption | lia]|].
  intros b (kb & eb & -> & Heb & Hkb).
  destruct (Z_le_gt_dec e eb) as [Hle | Hgt].
  - replace eb with (e + (eb - e))%Z by lia.
    assert (F2R kb (e + (eb - e)) = F2R (kb * 2 ^ (eb - e)) e) as ->.
    { rewrite <- (F2R_shift kb (e + (eb - e)) (eb - e)) by lia.
      f_equal. lia. }
    apply grid_nearest_multiple, Hn.
  - destruct Hc as [-> | Hc]; [lia|].
    assert (F2R kb eb <= bpow (e + 52)) as Hb.
    { apply Rle_trans with (F2R (2 ^ 53) eb).
      - apply F2R_le. lia.
      - unfold F2R. rewrite <- bpow_IZR, <- bpow_add by lia.
        apply bpow_le. lia. }
    apply Rle_trans with (Rabs (x - F2R (2 ^ 52) e)).
    + apply grid_nearest_multiple, Hn.
    + assert (F2R (2 ^ 52) e = bpow (e + 52)) as ->.
      { unfold F2R. rewrite <- bpow_IZR, <- bpow_add by lia. f_equal. lia. }
      rewrite !Rabs_right by lra. lra.
Qed.

(** *** Rounding a located real *)

Lemma located_bounds x m e l :
  located x m e l -> F2R m e <= x < F2R m e + bpow e.
Proof.
  pose proof (bpow_gt_0 e).
  destruct l as [|[| |]]; unfold located; lra.
Qed.

Lemma round_nearest_even_located x m e l :
  located x m e l ->
  let k := round_nearest_even m l in
  (m <= k <= m + 1)%Z /\ Rabs (x - F2R k e) <= bpow e / 2.
Proof.
  pose proof (bpow_gt_0 e) as Hb.
  destruct l as [|[| |]]; unfold located; cbn [round_nearest_even]; intros H.
  - split; [lia|]. subst x. replace (F2R m e - F2R m e) with 0 by lra.
    rewrite Rabs_R0. lra.
  - destruct (Z.even m); (split; [lia|]); rewrite ?F2R_succ;
      apply Rabs_le; lra.
  - split; [lia|]. apply Rabs_le; lra.
  - split; [lia|]. rewrite F2R_succ. apply Rabs_le; lra.
Qed.

Lemma F2R_pow2 (n e : Z) : (0 <= n)%Z -> F2R (2 ^ n) e = bpow (n + e).
Proof.
  intros Hn. unfold F2R. rewrite <- bpow_IZR, <- bpow_add by lia. reflexivity.
Qed.

Lemma valid_finite (s : bool) (p : positive) (e : Z) :
  (Zpos p < 2 ^ 53)%Z ->
  (emin <= e <= 971)%Z ->
  e = emin \/ (2 ^ 52 <= Zpos p)%Z ->
  valid_binary (S754_finite s p e) = true.
Proof.
  intros Hp He Hc. unfold valid_binary, bounded, canonical_mantissa.
  apply andb_true_intro. split; [|apply Z.leb_le; unfold emax, prec; lia].
  apply Z.eqb_eq. rewrite fexp_eq.
  pose proof (digits2_pos_bounds p) as Hd.
  assert (Zpos (digits2_pos p) <= 53)%Z as Hd53.
  { destruct (Z_le_gt_dec (Zpos (digits2_pos p)) 53) as [|Hgt]; [assumption|].
    assert (2 ^ 53 <= 2 ^ (Zpos (digits2_pos p) - 1))%Z
      by (apply Z.pow_le_mono_r; lia). lia. }
  rewrite emin_eq in *.
  destruct Hc as [-> | Hc]; [lia|].
  assert (Zpos (digits2_pos p) = 53%Z) as ->; [|lia].
  apply (Zdigits2_unique (Zpos p) 53); lia.
Qed.

(** The heart of the matter: [binary_round_aux] rounds to nearest. *)
Lemma binary_round_aux_rounds (s : bool) (x : R) (mx ex : Z) (lx : location) :
  0 < x ->
  (0 <= mx)%Z ->
  located x mx ex lx ->
  (ex <= fexp prec emax (Zdigits2 mx + ex))%Z ->
  rounds (if s then - x else x) (binary_round_aux prec emax s mx ex lx).
Proof.
  intros Hx Hmx Hloc Hex.
  set (c := fexp prec emax (Zdigits2 mx + ex)) in *.
  assert (emin <= c)%Z as Hc_min by (subst c; rewrite fexp_eq, emin_eq; lia).
  (* the canonical exponent of x *)
  assert (x < bpow (c + 53) /\ (c = emin \/ bpow (c + 52) <= x)) as [Hup Hlow].
  { pose proof (located_bounds _ _ _ _ Hloc) as [Hl Hu].
    rewrite <- F2R_succ in Hu.
    destruct (Z.eq_dec mx 0%Z) as [-> | Hnz].
    - subst c. rewrite fexp_eq, emin_eq in *.
      change (Zdigits2 0) with 0%Z in *. rewrite Z.add_0_l in *.
      assert (ex <= -1074)%Z by lia.
      assert (Z.max (ex - 53) (-1074) = (-1074)%Z) as -> by lia.
      split; [|left; reflexivity].
      apply Rlt_le_trans with (1 := Hu).
      replace (F2R 1 ex) with (bpow ex) by (unfold F2R; lra).
      apply bpow_le. lia.
    - assert (0 < mx)%Z as Hpos by lia.
      pose proof (Zdigits2_bounds mx Hpos) as Hd.
      assert (0 < Zdigits2 mx)%Z as Hd0 by (destruct mx; cbn; lia).
      split.
      + apply Rlt_le_trans with (1 := Hu).
        apply Rle_trans with (F2R (2 ^ Zdigits2 mx) ex).
        * apply F2R_le. lia.
        * rewrite F2R_pow2 by lia. apply bpow_le.
          subst c. rewrite fexp_eq. lia.
      + subst c. rewrite fexp_eq, emin_eq in *.
        destruct (Z_le_gt_dec (Zdigits2 mx + ex - 53) (-1074)) as [Hsub | Hnorm].
        * left. lia.
        * right.
          assert (Z.max (Zdigits2 mx + ex - 53) (-1074) = Zdigits2 mx + ex - 53)%Z
            as -> by lia.
          apply Rle_trans with (2 := Hl).
          apply Rle_trans with (F2R (2 ^ (Zdigits2 mx - 1)) ex).
          -- rewrite F2R_pow2 by lia. apply bpow_le. lia.
          -- apply F2R_le. lia. }
  unfold binary_round_aux, shr_fexp. fold c.
  pose proof (shr_located x mx ex (c - ex) lx Hmx Hloc) as H1.
  destruct (shr (shr_record_of_loc mx lx) ex (c - ex)) as [mrs1 e1].
  destruct H1 as (-> & Hloc1 & Hm1 & _).
  replace (ex + Z.max (c - ex) 0)%Z with c in * by lia.
  pose proof (round_nearest_even_located _ _ _ _ Hloc1) as [Hk Hnear].
  set (k := round_nearest_even (shr_m mrs1) (loc_of_shr_record mrs1)) in *.
  pose proof (located_bounds _ _ _ _ Hloc1) as [Hl1 Hu1].
  rewrite <- F2R_succ in Hu1.
  assert (shr_m mrs1 < 2 ^ 53)%Z as Hm1_53.
  { apply (F2R_lt_inv _ _ c). rewrite F2R_pow2 by lia.
    replace (53 + c)%Z with (c + 53)%Z by lia. lra. }
  assert (c = emin \/ (2 ^ 52 <= k)%Z) as Hnorm.
  { destruct Hlow as [-> | Hlow]; [left; reflexivity | right].
    assert (2 ^ 52 < shr_m mrs1 + 1)%Z; [|lia].
    apply (F2R_lt_inv _ _ c). rewrite F2R_pow2 by lia.
    replace (52 + c)%Z with (c + 52)%Z by lia. lra. }
  assert (nearest x (F2R k c)) as Hnearest
    by (apply grid_nearest; auto; lia).
  assert (nearest (if s then - x else x) (F2R (if s then - k else k) c)) as Hns.
  { destruct s; [rewrite F2R_opp; apply nearest_opp|]; exact Hnearest. }
  (* the second shift only absorbs a carry *)
  assert (0 <= k)%Z as Hk0 by lia.
  pose proof (shr_located (F2R k c) k c (fexp prec emax (Zdigits2 k + c) - c)
                loc_Exact Hk0 eq_refl) as H3.
  destruct (shr (shr_record_of_loc k loc_Exact) c
              (fexp prec emax (Zdigits2 k + c) - c)) as [mrs3 e3].
  destruct H3 as (-> & _ & Hm3 & Hm3eq).
  rewrite fexp_eq in *.
  destruct (Z.eq_dec k 0%Z) as [Hkz | Hkz].
  { (* rounded to zero *)
    rewrite Hkz in *. cbn [Zdigits2] in *.
    rewrite emin_eq in *.
    assert (Z.max (Z.max (0 + c - 53) (-1074) - c) 0 = 0%Z) as E by lia.
    rewrite E, Z.pow_0_r, Z.div_1_r in Hm3eq. rewrite Hm3eq.
    split; [reflexivity|].
    exists 0. split; [|reflexivity].
    destruct s; rewrite ?Z.opp_0, F2R_0 in Hns; exact Hns. }
  assert (0 < k)%Z as Hkpos by lia.
  pose proof (Zdigits2_bounds k Hkpos) as Hdk.
  assert (0 < Zdigits2 k)%Z as Hdk0 by (destruct k; cbn; lia).
  destruct (Z.eq_dec k (2 ^ 53)%Z) as [Hcarry | Hnocarry].
  - (* a carry: the mantissa is halved *)
    assert (Zdigits2 k = 54%Z) as Hd54 by (rewrite Hcarry; reflexivity).
    rewrite Hd54, emin_eq in *.
    assert (Z.max (Z.max (54 + c - 53) (-1074) - c) 0 = 1%Z) as E by lia.
    rewrite E in *. rewrite Hcarry in Hm3eq. cbn in Hm3eq. rewrite Hm3eq.
    assert (F2R k c = F2R (2 ^ 52) (c + 1)) as Hval.
    { rewrite Hcarry, !F2R_pow2 by lia. f_equal. lia. }
    destruct (Z.leb (c + 1) (emax - prec)) eqn:Hov.
    + apply Z.leb_le in Hov. unfold emax, prec in Hov.
      split.
      * apply valid_finite; cbn; rewrite ?emin_eq; lia.
      * exists (F2R (if s then - k else k) c). split; [exact Hns|].
        cbn [SF2R]. destruct s; cbn [signed]; rewrite ?F2R_opp, Hval;
          reflexivity || (rewrite <- F2R_opp; reflexivity).
    + apply Z.leb_gt in Hov. unfold emax, prec in Hov.
      split; [reflexivity|].
      exists (F2R (if s then - k else k) c). split; [exact Hns|].
      assert (bpow 1024 <= F2R k c) as Hbig.
      { rewrite Hcarry, F2R_pow2 by lia. apply bpow_le. lia. }
      pose proof (bpow_gt_0 1024).
      destruct s; rewrite ?F2R_opp, ?Rabs_Ropp, ?Rabs_right by lra; split; lra.
  - assert (k < 2 ^ 53)%Z as Hk53 by lia.
    assert (Zdigits2 k <= 53)%Z as Hd53.
    { destruct (Z_le_gt_dec (Zdigits2 k) 53) as [|Hgt]; [assumption|].
      assert (2 ^ 53 <= 2 ^ (Zdigits2 k - 1))%Z
        by (apply Z.pow_le_mono_r; lia). lia. }
    rewrite emin_eq in *.
    assert (Z.max (Z.max (Zdigits2 k + c - 53) (-1074) - c) 0 = 0%Z) as E by lia.
    rewrite E, Z.pow_0_r, Z.div_1_r, ?Z.add_0_r in *. rewrite Hm3eq.
    destruct k as [|p|p]; try lia.
    destruct (Z.leb c (emax - prec)) eqn:Hov.
    + apply Z.leb_le in Hov. unfold emax, prec in Hov.
      split.
      * apply valid_finite; rewrite ?emin_eq; lia.
      * exists (F2R (if s then - Zpos p else Zpos p) c). split; [exact Hns|].
        destruct s; reflexivity.
    + apply Z.leb_gt in Hov. unfold emax, prec in Hov.
      split; [reflexivity|].
      exists (F2R (if s then - Zpos p else Zpos p) c). split; [exact Hns|].
      assert (bpow 1024 <= F2R (Zpos p) c) as Hbig.
      { destruct Hnorm as [-> | Hnorm]; [lia|].
        apply Rle_trans with (F2R (2 ^ 52) c); [|apply F2R_le; lia].
        rewrite F2R_pow2 by lia. apply bpow_le. lia. }
      pose proof (bpow_gt_0 1024).
      destruct s; rewrite ?F2R_opp, ?Rabs_Ropp, ?Rabs_right by lra; split; lra.
Qed.

(** *** Valid numbers and their order *)

Lemma valid_finite_inv (s : bool) (p : positive) (e : Z) :
  valid_binary (S754_finite s p e) = true ->
  (Zpos p < 2 ^ 53)%Z /\ (emin <= e <= 971)%Z
  /\ (e = emin \/ (2 ^ 52 <= Zpos p)%Z).
Proof.
  unfold valid_binary, bounded, canonical_mantissa.
  intros H. apply andb_prop in H as [Hc Hb].
  apply Z.eqb_eq in Hc. apply Z.leb_le in Hb. unfold emax, prec in Hb.
  rewrite fexp_eq in Hc. rewrite emin_eq.
  pose proof (digits2_pos_bounds p) as Hd.
  assert (Zpos (digits2_pos p) <= 53)%Z as Hd53 by lia.
  assert (2 ^ Zpos (digits2_pos p) <= 2 ^ 53)%Z
    by (apply Z.pow_le_mono_r; lia).
  split; [lia|]. split; [lia|].
  destruct (Z.eq_dec e (-1074)%Z) as [|Hne]; [left; assumption | right].
  assert (Zpos (digits2_pos p) = 53%Z) as E by lia.
  rewrite E in Hd. lia.
Qed.

Lemma SF2R_signed (s : bool) (p : positive) (e : Z) :
  SF2R (S754_finite s p e) = if s then - F2R (Zpos p) e else F2R (Zpos p) e.
Proof. destruct s; cbn [SF2R signed]; [apply (F2R_opp (Zpos p))|reflexivity]. Qed.

Lemma F2R_pos_gt_0 (p : positive) (e : Z) : 0 < F2R (Zpos p) e.
Proof.
  unfold F2R. pose proof (bpow_gt_0 e).
  assert (0 < IZR (Zpos p)) by (apply IZR_lt; lia). nra.
Qed.

Lemma valid_fmt (f : spec_float) :
  valid_binary f = true -> fmt (SF2R f) /\ Rabs (SF2R f) < bpow 1024.
Proof.
  pose proof (bpow_gt_0 1024) as Hb.
  destruct f as [s|s| |s p e]; intros Hv;
    try (cbn [SF2R]; split; [apply fmt_0 | rewrite Rabs_R0; exact Hb]).
  apply valid_finite_inv in Hv as (Hp & He & _).
  split.
  - cbn [SF2R]. apply fmt_F2R; [lia | destruct s; cbn; lia].
  - rewrite SF2R_signed.
    pose proof (F2R_pos_gt_0 p e).
    assert (F2R (Zpos p) e < bpow 1024).
    { apply Rlt_le_trans with (F2R (2 ^ 53) e); [apply F2R_lt; lia|].
      rewrite F2R_pow2 by lia. apply bpow_le. lia. }
    destruct s; rewrite ?Rabs_Ropp, Rabs_right; lra.
Qed.

Lemma cmp_fields_spec s1 s2 p1 e1 p2 e2 :
  valid_binary (S754_finite s1 p1 e1) = true ->
  valid_binary (S754_finite s2 p2 e2) = true ->
  Rcmp (F2R (Zpos p1) e1) (F2R (Zpos p2) e2) (cmp_fields p1 e1 p2 e2)
  /\ (cmp_fields p1 e1 p2 e2 = Eq -> p1 = p2 /\ e1 = e2).
Proof.
  intros H1 H2.
  apply valid_finite_inv in H1 as (Hp1 & He1 & Hn1).
  apply valid_finite_inv in H2 as (Hp2 & He2 & Hn2).
  assert (forall pa ea pb eb,
             (Zpos pa < 2 ^ 53)%Z -> (emin <= ea)%Z -> (ea < eb)%Z ->
             (eb = emin \/ (2 ^ 52 <= Zpos pb)%Z) ->
             F2R (Zpos pa) ea < F2R (Zpos pb) eb) as Hexp.
  { intros pa ea pb eb Hpa Hea Hlt [-> | Hpb]; [lia|].
    apply Rlt_le_trans with (F2R (2 ^ 53) ea); [apply F2R_lt; lia|].
    apply Rle_trans with (F2R (2 ^ 52) eb); [|apply F2R_le; lia].
    rewrite !F2R_pow2 by lia. apply bpow_le. lia. }
  unfold cmp_fields.
  destruct (Z.compare_spec e1 e2) as [-> | Hlt | Hgt].
  - change (Pos.compare_cont Eq p1 p2) with (Pos.compare p1 p2).
    destruct (Pos.compare_spec p1 p2) as [-> | Hl | Hg]; cbn [Rcmp].
    + split; [reflexivity | auto].
    + split; [apply F2R_lt; lia | discriminate].
    + split; [apply F2R_lt; lia | discriminate].
  - split; [apply Hexp; auto; lia | discriminate].
  - split; [apply Hexp; auto; lia | discriminate].
Qed.

Lemma SFcompare_spec (f g : spec_float) :
  valid_binary f = true -> valid_binary g = true ->
  SFfinite f = true -> SFfinite g = true ->
  exists c, SFcompare f g = Some c /\ Rcmp (SF2R f) (SF2R g) c.
Proof.
  intros Hf Hg Ff Fg.
  destruct f as [s1|s1| |s1 p1 e1]; try discriminate;
    destruct g as [s2|s2| |s2 p2 e2]; try discriminate; cbn [SFcompare].
  - exists Eq. split; reflexivity.
  - rewrite SF2R_signed. pose proof (F2R_pos_gt_0 p2 e2).
    destruct s2; eexists; (split; [reflexivity|]); cbn [SF2R Rcmp]; lra.
  - rewrite SF2R_signed. pose proof (F2R_pos_gt_0 p1 e1).
    destruct s1; eexists; (split; [reflexivity|]); cbn [SF2R Rcmp]; lra.
  - rewrite !SF2R_signed.
    pose proof (F2R_pos_gt_0 p1 e1). pose proof (F2R_pos_gt_0 p2 e2).
    pose proof (cmp_fields_spec s1 s2 p1 e1 p2 e2 Hf Hg) as [Hc _].
    unfold cmp_fields in Hc.
    destruct s1, s2; eexists; (split; [reflexivity|]);
      try (cbn [Rcmp]; lra);
      destruct (Z.compare e1 e2); cbn [Rcmp CompOpp] in *;
      try lra;
      destruct (Pos.compare_cont Eq p1 p2); cbn [Rcmp CompOpp] in *; lra.
Qed.

(** *** Comparisons of numbers are comparisons of their values *)

Lemma compare_B2R (x y : float) :
  finite x = true -> finite y = true ->
  exists c,
    SFcompare (Prim2SF x) (Prim2SF y) = Some c /\ Rcmp (B2R x) (B2R y) c.
Proof.
  intros Hx Hy. apply SFcompare_spec; auto using Prim2SF_valid.
Qed.

Lemma ltb_B2R (x y : float) :
  finite x = true -> finite y = true ->
  ((x <? y)%float = true <-> B2R x < B2R y).
Proof.
  intros Hx Hy. rewrite FloatAxioms.ltb_spec. unfold SFltb.
  destruct (compare_B2R x y Hx Hy) as (c & -> & Hc).
  destruct c; cbn [Rcmp] in Hc; split; intros H;
    try reflexivity; try discriminate; lra.
Qed.

Lemma leb_B2R (x y : float) :
  finite x = true -> finite y = true ->
  ((x <=? y)%float = true <-> B2R x <= B2R y).
Proof.
  intros Hx Hy. rewrite FloatAxioms.leb_spec. unfold SFleb.
  destruct (compare_B2R x y Hx Hy) as (c & -> & Hc).
  destruct c; cbn [Rcmp] in Hc; split; intros H;
    try reflexivity; try discriminate; lra.
Qed.

Lemma eqb_B2R (x y : float) :
  finite x = true -> finite y = true ->
  ((x =? y)%float = true <-> B2R x = B2R y).
Proof.
  intros Hx Hy. rewrite FloatAxioms.eqb_spec. unfold SFeqb.
  destruct (compare_B2R x y Hx Hy) as (c & -> & Hc).
  destruct c; cbn [Rcmp] in Hc; split; intros H;
    try reflexivity; try discriminate; lra.
Qed.

Lemma ltb_false_B2R (x y : float) :
  finite x = true -> finite y = true ->
  ((x <? y)%float = false <-> B2R y <= B2R x).
Proof.
  intros Hx Hy. pose proof (ltb_B2R x y Hx Hy) as H.
  destruct (x <? y)%float; split; intros H'; try reflexivity; try discriminate.
  - assert (B2R x < B2R y) by (apply H; reflexivity). lra.
  - apply Rnot_lt_le. intros Hlt. apply H in Hlt. discriminate.
Qed.

Lemma leb_false_B2R (x y : float) :
  finite x = true -> finite y = true ->
  ((x <=? y)%float = false <-> B2R y < B2R x).
Proof.
  intros Hx Hy. pose proof (leb_B2R x y Hx Hy) as H.
  destruct (x <=? y)%float; split; intros H'; try reflexivity; try discriminate.
  - assert (B2R x <= B2R y) by (apply H; reflexivity). lra.
  - apply Rnot_le_lt. intros Hle. apply H in Hle. discriminate.
Qed.

(** A number between two finite numbers is finite. *)
Lemma leb_finite (a x b : float) :
  finite a = true -> finite b = true ->
  (a <=? x)%float = true -> (x <=? b)%float = true -> finite x = true.
Proof.
  unfold finite. intros Ha Hb H1 H2.
  rewrite FloatAxioms.leb_spec in H1, H2. unfold SFleb in *.
  destruct (Prim2SF a) as [sa|sa| |sa pa ea]; try discriminate;
    destruct (Prim2SF x) as [sx|sx| |sx px ex]; try reflexivity;
    destruct (Prim2SF b) as [sb|sb| |sb pb eb]; try discriminate;
    cbn in *; try discriminate;
    destruct sx; cbn in *; try discriminate;
    try destruct sa; try destruct sb; discriminate.
Qed.

(** Two finite numbers with the same value are the same number, or the
    two zeros. *)
Lemma B2R_inj (x y : float) :
  finite x = true -> finite y = true -> B2R x = B2R y ->
  x = y \/ (is_zero x = true /\ is_zero y = true).
Proof.
  intros Hx Hy E.
  pose proof (Prim2SF_valid x) as Vx. pose proof (Prim2SF_valid y) as Vy.
  assert (is_zero x = SFeqb (Prim2SF x) (S754_zero false)) as Zx
    by (unfold is_zero; rewrite FloatAxioms.eqb_spec; reflexivity).
  assert (is_zero y = SFeqb (Prim2SF y) (S754_zero false)) as Zy
    by (unfold is_zero; rewrite FloatAxioms.eqb_spec; reflexivity).
  unfold B2R, finite in *.
  destruct (Prim2SF x) as [sx|sx| |sx px ex] eqn:Ex; try discriminate;
    destruct (Prim2SF y) as [sy|sy| |sy py ey] eqn:Ey; try discriminate.
  - right. rewrite Zx, Zy. split; reflexivity.
  - exfalso. rewrite SF2R_signed in E. pose proof (F2R_pos_gt_0 py ey).
    cbn [SF2R] in E. destruct sy; lra.
  - exfalso. rewrite SF2R_signed in E. pose proof (F2R_pos_gt_0 px ex).
    cbn [SF2R] in E. destruct sx; lra.
  - left. apply Prim2SF_inj. rewrite Ex, Ey.
    rewrite !SF2R_signed in E.
    pose proof (F2R_pos_gt_0 px ex). pose proof (F2R_pos_gt_0 py ey).
    pose proof (cmp_fields_spec sx sy px ex py ey Vx Vy) as [Hc Heq].
    assert (sx = sy) as -> by (destruct sx, sy; try reflexivity; lra).
    assert (F2R (Zpos px) ex = F2R (Zpos py) ey) as E' by (destruct sy; lra).
    destruct (cmp_fields px ex py ey); cbn [Rcmp] in Hc; try lra.
    destruct (Heq eq_refl) as [-> ->]. reflexivity.
Qed.

(** *** What a rounding gives *)

Lemma rounds_zero (s : bool) : rounds 0 (S754_zero s).
Proof.
  split; [reflexivity|]. exists 0. split; [|reflexivity].
  split; [apply fmt_0|]. intros b _.
  replace (0 - 0) with 0 by lra. rewrite Rabs_R0. apply Rabs_pos.
Qed.

Lemma nearest_self (v : R) : fmt v -> nearest v v.
Proof.
  intros Hv. split; [exact Hv|]. intros b _.
  replace (v - v) with 0 by lra. rewrite Rabs_R0. apply Rabs_pos.
Qed.

Lemma rounds_self (f : spec_float) :
  valid_binary f = true -> SFfinite f = true -> rounds (SF2R f) f.
Proof.
  intros Hv Hf. split; [exact Hv|].
  exists (SF2R f). split; [apply nearest_self, valid_fmt, Hv|].
  destruct f; try discriminate; reflexivity.
Qed.

Lemma rounds_bounds (x : R) (r : spec_float) (a b : R) :
  rounds x r ->
  fmt a -> fmt b -> Rabs a < bpow 1024 -> Rabs b < bpow 1024 ->
  a <= x <= b ->
  SFfinite r = true /\ a <= SF2R r <= b /\ nearest x (SF2R r).
Proof.
  intros (Hv & v & Hn & Hr) Ha Hb Ha' Hb' [Hax Hxb].
  pose proof (nearest_le _ _ _ Hn Hb Hxb) as Hvb.
  pose proof (nearest_ge _ _ _ Hn Ha Hax) as Hva.
  apply Rabs_def2 in Ha', Hb'.
  destruct r as [s|s| |s p e]; try contradiction.
  - subst v. cbn [SF2R]. auto.
  - exfalso. destruct Hr as [Hbig Hs].
    destruct s; [rewrite Rabs_left in Hbig | rewrite Rabs_right in Hbig]; lra.
  - rewrite Hr. auto.
Qed.

Lemma rounds_exact (x : R) (r : spec_float) :
  rounds x r -> fmt x -> Rabs x < bpow 1024 ->
  SFfinite r = true /\ SF2R r = x.
Proof.
  intros Hr Hx Hb.
  destruct (rounds_bounds x r x x Hr Hx Hx Hb Hb) as (Hf & Hv & _); [lra|].
  split; [exact Hf | lra].
Qed.

(** *** Multiplication *)

Lemma Zdigits2_ge (m n : Z) :
  (0 <= n)%Z -> (2 ^ n <= m)%Z -> (n + 1 <= Zdigits2 m)%Z.
Proof.
  intros Hn Hm.
  assert (0 < 2 ^ n)%Z by (apply Z.pow_pos_nonneg; lia).
  pose proof (Zdigits2_bounds m ltac:(lia)) as Hd.
  destruct (Z_le_gt_dec (n + 1) (Zdigits2 m)) as [|Hgt]; [assumption|].
  assert (2 ^ Zdigits2 m <= 2 ^ n)%Z; [|lia].
  apply Z.pow_le_mono_r; [lia|].
  assert (0 < Zdigits2 m)%Z by (destruct m; cbn; lia). lia.
Qed.

Lemma F2R_mul m1 e1 m2 e2 :
  F2R m1 e1 * F2R m2 e2 = F2R (m1 * m2) (e1 + e2).
Proof. unfold F2R. rewrite mult_IZR, bpow_add. lra. Qed.

Lemma SFmul_rounds (f g : spec_float) :
  valid_binary f = true -> valid_binary g = true ->
  SFfinite f = true -> SFfinite g = true ->
  rounds (SF2R f * SF2R g) (SFmul prec emax f g).
Proof.
  intros Vf Vg Ff Fg.
  destruct f as [s1|s1| |s1 p1 e1]; try discriminate;
    destruct g as [s2|s2| |s2 p2 e2]; try discriminate;
    cbn [SFmul SF2R];
    rewrite ?Rmult_0_l, ?Rmult_0_r; try apply rounds_zero.
  pose proof (valid_finite_inv _ _ _ Vf) as (Hp1 & He1 & Hn1).
  pose proof (valid_finite_inv _ _ _ Vg) as (Hp2 & He2 & Hn2).
  assert (F2R (signed s1 p1) e1 * F2R (signed s2 p2) e2
          = if xorb s1 s2 then - F2R (Zpos (p1 * p2)) (e1 + e2)
            else F2R (Zpos (p1 * p2)) (e1 + e2)) as ->.
  { rewrite F2R_mul.
    destruct s1, s2; cbn [signed xorb]; rewrite <- ?F2R_opp; f_equal. }
  apply binary_round_aux_rounds.
  - apply F2R_pos_gt_0.
  - lia.
  - reflexivity.
  - rewrite fexp_eq, emin_eq in *.
    destruct Hn1 as [-> | Hn1]; [destruct Hn2 as [-> | Hn2]|].
    + lia.
    + assert (52 + 1 <= Zdigits2 (Zpos (p1 * p2)))%Z; [|lia].
      apply Zdigits2_ge; [lia|]. rewrite Pos2Z.inj_mul. nia.
    + assert (52 + 1 <= Zdigits2 (Zpos (p1 * p2)))%Z; [|lia].
      apply Zdigits2_ge; [lia|]. rewrite Pos2Z.inj_mul. nia.
Qed.

(** *** Addition and subtraction *)

Lemma Pos_iter_xO (p d : positive) :
  Zpos (Pos.iter xO p d) = (Zpos p * 2 ^ Zpos d)%Z.
Proof.
  revert p. induction d as [|d IH] using Pos.peano_ind; intros p.
  - cbn. lia.
  - rewrite Pos.iter_succ, Pos2Z.inj_xO, IH, Pos2Z.inj_succ, Z.pow_succ_r by lia.
    lia.
Qed.

Lemma shl_align_spec (p : positive) (e e' : Z) :
  let '(p', e'') := shl_align p e e' in
  e'' = Z.min e e' /\ Zpos p' = (Zpos p * 2 ^ (e - e''))%Z.
Proof.
  unfold shl_align. destruct (e' - e)%Z as [|d|d] eqn:E.
  - assert (Z.min e e' = e) as -> by lia. rewrite Z.sub_diag. lia.
  - assert (Z.min e e' = e) as -> by lia. rewrite Z.sub_diag. lia.
  - assert (Z.min e e' = e') as -> by lia.
    rewrite Pos_iter_xO. split; [reflexivity|]. f_equal. f_equal. lia.
Qed.

Lemma binary_round_rounds (s : bool) (p : positive) (e : Z) :
  rounds (if s then - F2R (Zpos p) e else F2R (Zpos p) e)
    (binary_round prec emax s p e).
Proof.
  unfold binary_round.
  pose proof (shl_align_spec p e (fexp prec emax (Zpos (digits2_pos p) + e)))
    as H.
  destruct (shl_align p e (fexp prec emax (Zpos (digits2_pos p) + e)))
    as [p' e'].
  destruct H as [He' Hp'].
  assert (F2R (Zpos p) e = F2R (Zpos p') e') as ->.
  { rewrite Hp'. rewrite <- (F2R_shift (Zpos p) e (e - e')) by lia.
    f_equal. lia. }
  apply binary_round_aux_rounds.
  - apply F2R_pos_gt_0.
  - lia.
  - reflexivity.
  - assert (Zdigits2 (Zpos p') = Zpos (digits2_pos p) + (e - e'))%Z as Hd.
    { apply Zdigits2_unique.
      - pose proof (digits2_pos_bounds p) as Hb. rewrite Hp'.
        assert (0 < 2 ^ (e - e'))%Z by (apply Z.pow_pos_nonneg; lia).
        replace (Zpos (digits2_pos p) + (e - e') - 1)%Z
          with ((Zpos (digits2_pos p) - 1) + (e - e'))%Z by lia.
        rewrite !Z.pow_add_r by lia. nia.
      - lia. }
    rewrite Hd.
    replace (Zpos (digits2_pos p) + (e - e') + e')%Z
      with (Zpos (digits2_pos p) + e)%Z by lia.
    lia.
Qed.

Lemma binary_normalize_rounds (z e : Z) (szero : bool) :
  rounds (F2R z e) (binary_normalize prec emax z e szero).
Proof.
  destruct z as [|p|p]; cbn [binary_normalize].
  - rewrite F2R_0. apply rounds_zero.
  - apply (binary_round_rounds false).
  - change (Zneg p) with (- Zpos p)%Z. rewrite F2R_opp.
    apply (binary_round_rounds true).
Qed.

Lemma shl_align_F2R (s : bool) (p : positive) (e ez : Z) :
  (ez <= e)%Z ->
  F2R (cond_Zopp s (Zpos (shl_align p e ez).1)) ez = SF2R (S754_finite s p e).
Proof.
  intros Hle. pose proof (shl_align_spec p e ez) as H.
  destruct (shl_align p e ez) as [p' e']. destruct H as [He' Hp'].
  cbn [fst]. assert (e' = ez) as -> by lia.
  rewrite SF2R_signed.
  assert (F2R (Zpos p') ez = F2R (Zpos p) e) as E.
  { rewrite Hp'. rewrite <- (F2R_shift (Zpos p) e (e - ez)) by lia.
    f_equal. lia. }
  destruct s; cbn [cond_Zopp]; rewrite ?F2R_opp, E; reflexivity.
Qed.

Lemma F2R_add m1 m2 e : F2R (m1 + m2) e = F2R m1 e + F2R m2 e.
Proof. unfold F2R. rewrite plus_IZR. lra. Qed.

Lemma F2R_sub m1 m2 e : F2R (m1 - m2) e = F2R m1 e - F2R m2 e.
Proof. unfold F2R. rewrite minus_IZR. lra. Qed.

Lemma SFadd_rounds (f g : spec_float) :
  valid_binary f = true -> valid_binary g = true ->
  SFfinite f = true -> SFfinite g = true ->
  rounds (SF2R f + SF2R g) (SFadd prec emax f g).
Proof.
  intros Vf Vg Ff Fg.
  destruct f as [s1|s1| |s1 p1 e1]; try discriminate;
    destruct g as [s2|s2| |s2 p2 e2]; try discriminate;
    cbn [SFadd].
  - cbn [SF2R]. rewrite Rplus_0_l. destruct s1, s2; apply rounds_zero.
  - replace (SF2R (S754_zero s1)) with 0 by reflexivity. rewrite Rplus_0_l.
    apply rounds_self; auto.
  - replace (SF2R (S754_zero s2)) with 0 by reflexivity. rewrite Rplus_0_r.
    apply rounds_self; auto.
  - rewrite <- (shl_align_F2R s1 p1 e1 (Z.min e1 e2)) by lia.
    rewrite <- (shl_align_F2R s2 p2 e2 (Z.min e1 e2)) by lia.
    rewrite <- F2R_add. apply binary_normalize_rounds.
Qed.

Lemma SFsub_rounds (f g : spec_float) :
  valid_binary f = true -> valid_binary g = true ->
  SFfinite f = true -> SFfinite g = true ->
  rounds (SF2R f - SF2R g) (SFsub prec emax f g).
Proof.
  intros Vf Vg Ff Fg.
  destruct f as [s1|s1| |s1 p1 e1]; try discriminate;
    destruct g as [s2|s2| |s2 p2 e2]; try discriminate;
    cbn [SFsub].
  - cbn [SF2R]. rewrite Rminus_0_r. destruct s1, s2; apply rounds_zero.
  - replace (SF2R (S754_zero s1)) with 0 by reflexivity.
    replace (0 - SF2R (S754_finite s2 p2 e2))
      with (SF2R (S754_finite (negb s2) p2 e2))
      by (rewrite !SF2R_signed; destruct s2; cbn [negb]; lra).
    apply rounds_self; auto.
  - replace (SF2R (S754_zero s2)) with 0 by reflexivity. rewrite Rminus_0_r.
    apply rounds_self; auto.
  - rewrite <- (shl_align_F2R s1 p1 e1 (Z.min e1 e2)) by lia.
    rewrite <- (shl_align_F2R s2 p2 e2 (Z.min e1 e2)) by lia.
    rewrite <- F2R_sub. apply binary_normalize_rounds.
Qed.

(** *** Division *)

Lemma new_location_spec (nb k : Z) :
  (0 <= k < nb)%Z ->
  located (IZR k / IZR nb) 0 0 (new_location nb k).
Proof.
  intros Hk.
  assert (0 < IZR nb) as Hnb by (apply IZR_lt; lia).
  set (t := IZR k / IZR nb).
  assert (t * IZR nb = IZR k) as Ht by (unfold t; field; lra).
  assert (IZR k < IZR nb) as Hk1 by (apply IZR_lt; lia).
  assert (0 <= IZR k) as Hk0 by (apply IZR_le; lia).
  assert (bpow 0 = 1) as Hb0 by reflexivity.
  pose proof (F2R_0 0) as HF.
  unfold new_location.
  destruct (Z.even nb) eqn:Hev;
    unfold new_location_even, new_location_odd;
    (destruct (Z.eqb_spec k 0) as [E0 | Hnz];
     [assert (t = 0) by (rewrite E0 in Ht; nra);
      unfold located; rewrite HF; assumption|]);
    assert (0 < IZR k) as Hkpos by (apply IZR_lt; lia).
  - destruct (Z.compare_spec (2 * k) nb) as [E | L | G];
      unfold located; rewrite HF, Hb0.
    + apply (f_equal IZR) in E. rewrite mult_IZR in E. nra.
    + apply IZR_lt in L. rewrite mult_IZR in L. nra.
    + apply IZR_lt in G. rewrite mult_IZR in G. nra.
  - assert (2 * k <> nb)%Z as Hodd.
    { intros E. rewrite <- E, Z.even_mul in Hev. discriminate. }
    destruct (Z.compare_spec (2 * k + 1) nb) as [E | L | G];
      unfold located; rewrite HF, Hb0.
    + assert (2 * k < nb)%Z as L by lia.
      apply IZR_lt in L. rewrite mult_IZR in L. nra.
    + assert (2 * k < nb)%Z as L' by lia.
      apply IZR_lt in L'. rewrite mult_IZR in L'. nra.
    + assert (nb < 2 * k)%Z as G' by lia.
      apply IZR_lt in G'. rewrite mult_IZR in G'. nra.
Qed.

Lemma located_scale (t : R) (q e : Z) (l : location) :
  located t 0 0 l -> located ((IZR q + t) * bpow e) q e l.
Proof.
  pose proof (bpow_gt_0 e) as Hb.
  assert (bpow 0 = 1) as Hb0 by reflexivity.
  destruct l as [|[| |]]; unfold located; rewrite ?F2R_0, ?Hb0; unfold F2R;
    intros H; nra.
Qed.

Lemma SFdiv_core_located (p1 p2 : positive) (e1 e2 : Z) :
  let '(q, e', l) := SFdiv_core_binary prec emax (Zpos p1) e1 (Zpos p2) e2 in
  located (F2R (Zpos p1) e1 / F2R (Zpos p2) e2) q e' l
  /\ (0 <= q)%Z
  /\ (e' <= fexp prec emax (Zdigits2 q + e'))%Z.
Proof.
  unfold SFdiv_core_binary.
  set (d1 := Zdigits2 (Zpos p1)). set (d2 := Zdigits2 (Zpos p2)).
  set (delta := (d1 + e1 - (d2 + e2))%Z).
  set (e' := Z.min (fexp prec emax delta) (e1 - e2)).
  set (s := (e1 - e2 - e')%Z).
  assert (0 <= s)%Z as Hs by (subst s e'; lia).
  set (m' := match s with
             | 0%Z => Zpos p1
             | Zpos _ => Z.shiftl (Zpos p1) s
             | Zneg _ => 0%Z
             end).
  assert (m' = Zpos p1 * 2 ^ s)%Z as Hm'.
  { subst m'. destruct s as [|ps|ps] eqn:Es; try lia.
    rewrite Z.shiftl_mul_pow2 by lia. reflexivity. }
  pose proof (Z_div_mod m' (Zpos p2) ltac:(lia)) as Hdiv.
  destruct (Z.div_eucl m' (Zpos p2)) as [q r]. destruct Hdiv as [Hqr Hr].
  assert (0 < 2 ^ s)%Z as H2s by (apply Z.pow_pos_nonneg; lia).
  assert (0 <= q)%Z as Hq by nia.
  pose proof (F2R_pos_gt_0 p1 e1) as HA. pose proof (F2R_pos_gt_0 p2 e2) as HB.
  set (X := F2R (Zpos p1) e1 / F2R (Zpos p2) e2).
  assert (0 < IZR (Zpos p2)) as Hp2 by (apply IZR_lt; lia).
  assert (X = (IZR q + IZR r / IZR (Zpos p2)) * bpow e') as HX.
  { subst X. unfold F2R.
    assert (IZR (Zpos p1) * bpow e1
            = IZR m' * bpow e' * bpow e2) as ->.
    { rewrite Hm', mult_IZR, <- bpow_IZR by lia.
      rewrite !Rmult_assoc, <- !bpow_add. do 2 f_equal. lia. }
    apply (f_equal IZR) in Hqr. rewrite plus_IZR, mult_IZR in Hqr.
    rewrite Hqr. pose proof (bpow_gt_0 e2). field. lra. }
  split; [|split; [exact Hq|]].
  - rewrite HX. apply located_scale, new_location_spec. lia.
  - rewrite fexp_eq. destruct (Z_le_gt_dec e' (-1074)) as [|Hgt]; [lia|].
    assert (e' <= delta - 53)%Z as Hd.
    { subst e'. rewrite fexp_eq in *. lia. }
    (* the quotient has enough digits *)
    assert (bpow (delta - 1) < X) as Hlow.
    { pose proof (Zdigits2_bounds (Zpos p1) ltac:(lia)) as [H1 _].
      pose proof (Zdigits2_bounds (Zpos p2) ltac:(lia)) as [_ H2].
      fold d1 in H1. fold d2 in H2.
      assert (0 < d1)%Z by (subst d1; cbn; lia).
      assert (0 < d2)%Z by (subst d2; cbn; lia).
      assert (bpow (d1 - 1 + e1) <= F2R (Zpos p1) e1) as HA'.
      { rewrite <- F2R_pow2 by lia. apply F2R_le. exact H1. }
      assert (F2R (Zpos p2) e2 < bpow (d2 + e2)) as HB'.
      { rewrite <- F2R_pow2 by lia. apply F2R_lt. exact H2. }
      assert (bpow (d1 - 1 + e1) = bpow (delta - 1) * bpow (d2 + e2)) as E.
      { rewrite <- bpow_add. f_equal. subst delta. lia. }
      assert (X * F2R (Zpos p2) e2 = F2R (Zpos p1) e1) as EX
        by (subst X; field; lra).
      pose proof (bpow_gt_0 (delta - 1)).
      assert (0 < X) by (subst X; apply Rdiv_lt_0_compat; lra).
      nra. }
    assert (2 ^ (delta - 1 - e') <= q)%Z as Hqbig.
    { assert (2 ^ (delta - 1 - e') < q + 1)%Z; [|lia].
      apply lt_IZR. rewrite <- bpow_IZR by lia.
      assert (X < (IZR q + 1) * bpow e') as Hup.
      { rewrite HX. pose proof (bpow_gt_0 e').
        assert (IZR r / IZR (Zpos p2) < 1).
        { apply Rmult_lt_reg_r with (IZR (Zpos p2)); [lra|].
          unfold Rdiv. rewrite Rmult_assoc, Rinv_l, Rmult_1_r, Rmult_1_l by lra.
          apply IZR_lt. lia. }
        nra. }
      assert (bpow (delta - 1) = bpow (delta - 1 - e') * bpow e') as E.
      { rewrite <- bpow_add. f_equal. lia. }
      rewrite plus_IZR. pose proof (bpow_gt_0 e'). nra. }
    pose proof (Zdigits2_ge q (delta - 1 - e') ltac:(lia) Hqbig). lia.
Qed.

Lemma SFdiv_rounds (f : spec_float) (s2 : bool) (p2 : positive) (e2 : Z) :
  valid_binary f = true -> SFfinite f = true ->
  rounds (SF2R f / SF2R (S754_finite s2 p2 e2))
    (SFdiv prec emax f (S754_finite s2 p2 e2)).
Proof.
  intros Vf Ff. pose proof (F2R_pos_gt_0 p2 e2) as HB.
  destruct f as [s1|s1| |s1 p1 e1]; try discriminate; cbn [SFdiv].
  - replace (SF2R (S754_zero s1)) with 0 by reflexivity.
    unfold Rdiv. rewrite Rmult_0_l. apply rounds_zero.
  - pose proof (SFdiv_core_located p1 p2 e1 e2) as H.
    destruct (SFdiv_core_binary prec emax (Zpos p1) e1 (Zpos p2) e2)
      as [[q e'] l].
    destruct H as (Hloc & Hq & He').
    pose proof (F2R_pos_gt_0 p1 e1) as HA.
    assert (SF2R (S754_finite s1 p1 e1) / SF2R (S754_finite s2 p2 e2)
            = if xorb s1 s2
              then - (F2R (Zpos p1) e1 / F2R (Zpos p2) e2)
              else F2R (Zpos p1) e1 / F2R (Zpos p2) e2) as ->.
    { rewrite !SF2R_signed. destruct s1, s2; cbn [xorb]; field; lra. }
    apply binary_round_aux_rounds; auto.
    apply Rdiv_lt_0_compat; lra.
Qed.

(** *** Values of constants *)

Lemma F2R_reduce (m e k : Z) : (0 <= k)%Z -> F2R (m * 2 ^ k) e = F2R m (e + k).
Proof.
  intros Hk. rewrite <- (F2R_shift m (e + k) k) by lia. f_equal. lia.
Qed.

Lemma F2R_IZR (m e : Z) : (0 <= e)%Z -> F2R m e = IZR (m * 2 ^ e).
Proof. intros He. unfold F2R. rewrite mult_IZR, bpow_IZR by lia. reflexivity. Qed.

Ltac float_const c :=
  unfold B2R;
  let v := eval vm_compute in (Prim2SF c) in
  change (Prim2SF c) with v; cbn [SF2R signed].

Lemma B2R_1200 : B2R 1200 = 1200.
Proof.
  float_const 1200%float.
  change 5277655813324800%Z with (75 * 2 ^ 46)%Z.
  rewrite F2R_reduce, F2R_IZR by lia. reflexivity.
Qed.

Lemma B2R_half : B2R 0.5 = / 2.
Proof.
  float_const 0.5%float.
  change 4503599627370496%Z with (1 * 2 ^ 52)%Z.
  rewrite F2R_reduce by lia. unfold F2R. simpl. lra.
Qed.

Local Close Scope R_scope.

(* ================================================================== *)
(** ** Primitive operations on finite numbers *)
(* ================================================================== *)

Lemma mul_rounds (x y : float) :
  finite x = true -> finite y = true ->
  rounds (B2R x * B2R y) (Prim2SF (x * y)).
Proof.
  intros Hx Hy. rewrite mul_spec.
  apply SFmul_rounds; auto using Prim2SF_valid.
Qed.

Lemma add_rounds (x y : float) :
  finite x = true -> finite y = true ->
  rounds (B2R x + B2R y) (Prim2SF (x + y)).
Proof.
  intros Hx Hy. rewrite add_spec.
  apply SFadd_rounds; auto using Prim2SF_valid.
Qed.

Lemma sub_rounds (x y : float) :
  finite x = true -> finite y = true ->
  rounds (B2R x - B2R y) (Prim2SF (x - y)).
Proof.
  intros Hx Hy. rewrite sub_spec.
  apply SFsub_rounds; auto using Prim2SF_valid.
Qed.

Lemma div_rounds (x y : float) :
  finite x = true -> finite y = true -> B2R y <> 0%R ->
  rounds (B2R x / B2R y) (Prim2SF (x / y)).
Proof.
  intros Hx Hy Hnz. rewrite div_spec. unfold B2R, finite in *.
  pose proof (Prim2SF_valid x) as Vx.
  destruct (Prim2SF y) as [s|s| |s p e]; try discriminate.
  - exfalso. apply Hnz. reflexivity.
  - apply SFdiv_rounds; assumption.
Qed.

(** A rounding between two bounds of the format is finite and stays
    between them. *)
Lemma rounds_float (x : R) (r : float) (a b : R) :
  rounds x (Prim2SF r) ->
  fmt a -> fmt b ->
  (Rabs a < bpow 1024)%R -> (Rabs b < bpow 1024)%R ->
  (a <= x <= b)%R ->
  finite r = true /\ (a <= B2R r <= b)%R /\ nearest x (B2R r).
Proof. apply rounds_bounds. Qed.

Lemma B2R_fmt (x : float) : fmt (B2R x) /\ (Rabs (B2R x) < bpow 1024)%R.
Proof. apply valid_fmt, Prim2SF_valid. Qed.

Lemma fmt_IZR (n : Z) : (Z.abs n <= 2 ^ 53)%Z -> fmt (IZR n).
Proof.
  intros Hn. replace (IZR n) with (F2R n 0) by (unfold F2R, bpow; simpl; lra).
  apply fmt_F2R; [rewrite emin_eq; lia | exact Hn].
Qed.

Lemma small_lt_bpow_1024 (n : Z) :
  (Z.abs n <= 2 ^ 53)%Z -> (Rabs (IZR n) < bpow 1024)%R.
Proof.
  intros Hn. rewrite Rabs_Zabs.
  apply Rle_lt_trans with (bpow 53); [|apply bpow_lt; lia].
  rewrite bpow_IZR by lia. apply IZR_le. exact Hn.
Qed.

Lemma B2R_0 : B2R 0 = 0%R.
Proof. reflexivity. Qed.

Lemma B2R_1 : B2R 1 = 1%R.
Proof.
  float_const 1%float.
  change 4503599627370496%Z with (1 * 2 ^ 52)%Z.
  rewrite F2R_reduce by lia. unfold F2R, bpow. simpl. lra.
Qed.

Lemma finite_is_nan (x : float) : finite x = true -> is_nan x = false.
Proof.
  intros Hx. unfold is_nan.
  rewrite (proj2 (eqb_B2R x x Hx Hx) eq_refl). reflexivity.
Qed.

Lemma is_zero_B2R (x : float) :
  finite x = true -> (is_zero x = true <-> B2R x = 0%R).
Proof.
  intros Hx. unfold is_zero. rewrite (eqb_B2R x zero Hx eq_refl).
  reflexivity.
Qed.

Lemma is_zero_false_B2R (x : float) :
  finite x = true -> B2R x <> 0%R -> is_zero x = false.
Proof.
  intros Hx Hnz. destruct (is_zero x) eqn:E; [|reflexivity].
  apply (is_zero_B2R x Hx) in E. contradiction.
Qed.

(** *** Comparisons with numbers that need not be finite *)

Lemma leb_cases (a d : float) :
  finite a = true -> (a <=? d) = true ->
  (finite d = true /\ (B2R a <= B2R d)%R) \/ d = infinity.
Proof.
  intros Ha H.
  destruct (finite d) eqn:Hd.
  - left. split; [reflexivity|]. apply leb_B2R; assumption.
  - right. rewrite FloatAxioms.leb_spec in H. unfold SFleb, finite in *.
    rewrite <- (SF2Prim_Prim2SF d).
    destruct (Prim2SF a) as [sa|sa| |sa pa ea]; try discriminate;
      destruct (Prim2SF d) as [sd|sd| |sd pd ed]; try discriminate;
      destruct sd; try discriminate; reflexivity.
Qed.

Lemma geb_cases (a d : float) :
  finite a = true -> (d <=? a) = true ->
  (finite d = true /\ (B2R d <= B2R a)%R) \/ d = neg_infinity.
Proof.
  intros Ha H.
  destruct (finite d) eqn:Hd.
  - left. split; [reflexivity|]. apply leb_B2R; assumption.
  - right. rewrite FloatAxioms.leb_spec in H. unfold SFleb, finite in *.
    rewrite <- (SF2Prim_Prim2SF d).
    destruct (Prim2SF a) as [sa|sa| |sa pa ea]; try discriminate;
      destruct (Prim2SF d) as [sd|sd| |sd pd ed]; try discriminate;
      destruct sd; try discriminate; reflexivity.
Qed.

Lemma eqb_zero_cases (d : float) :
  (d =? 0) = true -> d = 0 \/ d = -0.
Proof.
  rewrite FloatAxioms.eqb_spec. unfold SFeqb.
  change (Prim2SF 0) with (S754_zero false).
  intros H. rewrite <- (SF2Prim_Prim2SF d).
  destruct (Prim2SF d) as [s|s| |s p e]; try discriminate.
  - destruct s; [right | left]; reflexivity.
  - destruct s; discriminate.
  - destruct s; discriminate.
Qed.

(** *** [Math.min] and [Math.max] on finite numbers *)

Lemma Math_min_le (x y : float) :
  finite x = true -> finite y = true -> is_zero y = false ->
  (B2R x <= B2R y)%R -> Math_min x y = x.
Proof.
  intros Hx Hy Hz Hle. unfold Math_min.
  rewrite (finite_is_nan x Hx), (finite_is_nan y Hy), Hz, andb_false_r.
  cbn [orb]. destruct (x <? y) eqn:E; [reflexivity|].
  apply ltb_false_B2R in E; auto.
  destruct (B2R_inj x y Hx Hy ltac:(lra)) as [-> | [_ Hz']]; [reflexivity|].
  congruence.
Qed.

Lemma Math_min_ge (x y : float) :
  finite x = true -> finite y = true -> is_zero y = false ->
  (B2R y <= B2R x)%R -> Math_min x y = y.
Proof.
  intros Hx Hy Hz Hle. unfold Math_min.
  rewrite (finite_is_nan x Hx), (finite_is_nan y Hy), Hz, andb_false_r.
  cbn [orb]. destruct (x <? y) eqn:E; [|reflexivity].
  apply ltb_B2R in E; auto. lra.
Qed.

Lemma Math_min_1 (r : float) :
  finite r = true -> (B2R r <= 1)%R -> Math_min 1 r = r.
Proof.
  intros Hr Hle. unfold Math_min.
  rewrite (finite_is_nan r Hr).
  change (is_nan 1) with false. change (is_zero 1) with false. cbn [orb andb].
  destruct (1 <? r) eqn:E; [|reflexivity].
  apply ltb_B2R in E; auto. rewrite B2R_1 in E. lra.
Qed.

Lemma Math_max_0 (r : float) :
  finite r = true -> (0 <= B2R r)%R ->
  finite (Math_max 0 r) = true /\ B2R (Math_max 0 r) = B2R r.
Proof.
  intros Hr Hle. unfold Math_max.
  rewrite (finite_is_nan r Hr).
  change (is_nan 0) with false. change (is_zero 0) with true.
  change (get_sign 0) with false. cbn [orb andb].
  destruct (is_zero r) eqn:Hz.
  - apply (is_zero_B2R r Hr) in Hz. rewrite Hz. split; reflexivity.
  - destruct (r <? 0) eqn:E; [|split; [assumption | reflexivity]].
    apply ltb_B2R in E; auto. rewrite B2R_0 in E. lra.
Qed.

(* ================================================================== *)
(** ** The heat of a distance *)
(* ================================================================== *)

Lemma heatOf_far (d : float) :
  (HOT_RADIUS_METERS <=? d) = true -> heatOf d = 0.
Proof.
  unfold HOT_RADIUS_METERS. intros H.
  assert (Math_min d 1200 = 1200) as Hmin.
  { destruct (leb_cases 1200 d eq_refl H) as [[Hd Hle] | ->];
      [|vm_compute; reflexivity].
    rewrite B2R_1200 in Hle.
    apply Math_min_ge; auto; rewrite ?B2R_1200; lra. }
  unfold heatOf, HOT_RADIUS_METERS. rewrite Hmin. vm_compute. reflexivity.
Qed.

Lemma heatOf_zero (d : float) : (d =? 0) = true -> heatOf d = 1.
Proof.
  intros H. destruct (eqb_zero_cases d H) as [-> | ->];
    vm_compute; reflexivity.
Qed.

(** Between 0 and the hot radius nothing is clamped: the heat is the
    rounded [1 - d / 1200], computed by two roundings to nearest. *)
Lemma heatOf_near (d : float) :
  finite d = true -> (0 <= B2R d <= 1200)%R ->
  let q := d / 1200 in
  let raw := 1 - q in
  finite q = true /\ (0 <= B2R q <= 1)%R
  /\ nearest (B2R d / 1200) (B2R q)
  /\ finite raw = true /\ (0 <= B2R raw <= 1)%R
  /\ nearest (1 - B2R q) (B2R raw)
  /\ finite (heatOf d) = true /\ B2R (heatOf d) = B2R raw.
Proof.
  intros Hd Hrange q raw. subst q raw.
  set (q := d / 1200). set (raw := 1 - q).
  assert (fmt 0 /\ fmt 1) as [F0 F1]
    by (split; [apply (fmt_IZR 0) | apply (fmt_IZR 1)]; lia).
  assert (Rabs 0 < bpow 1024 /\ Rabs 1 < bpow 1024)%R as [B0 B1]
    by (split; [apply (small_lt_bpow_1024 0) | apply (small_lt_bpow_1024 1)]; lia).
  assert (rounds (B2R d / 1200) (Prim2SF q)) as Rq.
  { rewrite <- B2R_1200. apply div_rounds; auto. rewrite B2R_1200. lra. }
  destruct (rounds_float _ _ 0 1 Rq F0 F1 B0 B1 ltac:(lra)) as (Fq & Bq & Nq).
  assert (rounds (1 - B2R q) (Prim2SF raw)) as Rr.
  { rewrite <- B2R_1. apply sub_rounds; auto. }
  destruct (rounds_float _ _ 0 1 Rr F0 F1 B0 B1 ltac:(lra)) as (Fr & Br & Nr).
  assert (heatOf d = Math_max 0 raw) as ->.
  { unfold heatOf, HOT_RADIUS_METERS.
    rewrite (Math_min_le d 1200) by (auto; rewrite ?B2R_1200; lra).
    fold q. fold raw. rewrite (Math_min_1 raw Fr) by lra. reflexivity. }
  destruct (Math_max_0 raw Fr ltac:(lra)) as [Fm Em].
  exact (conj Fq (conj Bq (conj Nq (conj Fr (conj Br (conj Nr (conj Fm Em))))))).
Qed.

Lemma heatOf_monotone (d1 d2 : float) :
  (0 <=? d1) = true -> (d1 <=? d2) = true ->
  (heatOf d2 <=? heatOf d1) = true.
Proof.
  intros H0 H12.
  (* d1 is a finite non-negative number or plus infinity *)
  destruct (leb_cases 0 d1 eq_refl H0) as [[F1 P1] | ->].
  2:{ (* d1 is infinite, so is d2 *)
      assert (d2 = infinity) as ->.
      { rewrite FloatAxioms.leb_spec in H12. unfold SFleb in H12.
        rewrite <- (SF2Prim_Prim2SF d2).
        change (Prim2SF infinity) with (S754_infinity false) in H12.
        destruct (Prim2SF d2) as [s|s| |s p e]; try discriminate;
          destruct s; try discriminate; reflexivity. }
      vm_compute. reflexivity. }
  rewrite B2R_0 in P1.
  destruct (HOT_RADIUS_METERS <=? d1) eqn:Hfar1.
  { (* both are beyond the hot radius *)
    assert ((HOT_RADIUS_METERS <=? d2) = true) as Hfar2.
    { unfold HOT_RADIUS_METERS in *.
      destruct (leb_cases d1 d2 F1 H12) as [[F2 P2] | ->];
        [|vm_compute; reflexivity].
      apply leb_B2R in Hfar1; auto.
      apply leb_B2R; auto. lra. }
    rewrite (heatOf_far d1 Hfar1), (heatOf_far d2 Hfar2).
    vm_compute. reflexivity. }
  unfold HOT_RADIUS_METERS in Hfar1.
  apply leb_false_B2R in Hfar1; auto. rewrite B2R_1200 in Hfar1.
  destruct (heatOf_near d1 F1 ltac:(lra))
    as (Fq1 & Bq1 & Nq1 & Fr1 & Br1 & Nr1 & Fh1 & Eh1).
  destruct (HOT_RADIUS_METERS <=? d2) eqn:Hfar2.
  { rewrite (heatOf_far d2 Hfar2).
    apply leb_B2R; auto. rewrite B2R_0, Eh1. lra. }
  unfold HOT_RADIUS_METERS in Hfar2.
  destruct (leb_cases d1 d2 F1 H12) as [[F2 P2] | ->];
    [|vm_compute in Hfar2; discriminate].
  apply leb_false_B2R in Hfar2; auto. rewrite B2R_1200 in Hfar2.
  destruct (heatOf_near d2 F2 ltac:(lra))
    as (Fq2 & Bq2 & Nq2 & Fr2 & Br2 & Nr2 & Fh2 & Eh2).
  apply leb_B2R; auto. rewrite Eh1, Eh2.
  (* the quotients are ordered as the distances *)
  assert (B2R (d1 / 1200) <= B2R (d2 / 1200))%R as Hq.
  { destruct (Rle_lt_or_eq_dec _ _ P2) as [Hlt | Heq].
    - apply (nearest_mono _ _ _ _ Nq1 Nq2). lra.
    - destruct (B2R_inj d1 d2 F1 F2 Heq) as [-> | [Z1 Z2]]; [lra|].
      destruct (eqb_zero_cases d1 Z1) as [-> | ->];
        destruct (eqb_zero_cases d2 Z2) as [-> | ->];
        vm_compute; lra. }
  destruct (Rle_lt_or_eq_dec _ _ Hq) as [Hlt | Heq].
  - apply (nearest_mono _ _ _ _ Nr2 Nr1). lra.
  - destruct (B2R_inj _ _ Fq1 Fq2 Heq) as [E | [Z1 Z2]]; [rewrite E; lra|].
    destruct (eqb_zero_cases _ Z1) as [E1 | E1];
      destruct (eqb_zero_cases _ Z2) as [E2 | E2];
      rewrite E1, E2; vm_compute; lra.
Qed.

(* ================================================================== *)
(** ** The tolerance band of the comparison with the previous distance *)
(* ================================================================== *)

Lemma B2R_20 : B2R 20 = 20%R.
Proof.
  float_const 20%float.
  change 5629499534213120%Z with (5 * 2 ^ 50)%Z.
  rewrite F2R_reduce, F2R_IZR by lia. reflexivity.
Qed.

Lemma abs_finite (x : float) : finite (Math_abs x) = finite x.
Proof.
  unfold finite, Math_abs. rewrite abs_spec.
  destruct (Prim2SF x); reflexivity.
Qed.

Lemma B2R_abs (x : float) : B2R (Math_abs x) = Rabs (B2R x).
Proof.
  unfold B2R, Math_abs. rewrite abs_spec.
  destruct (Prim2SF x) as [s|s| |s p e]; cbn [SFabs];
    try (cbn [SF2R]; rewrite Rabs_R0; reflexivity).
  rewrite !SF2R_signed. pose proof (F2R_pos_gt_0 p e).
  destruct s; rewrite ?Rabs_Ropp, Rabs_right; lra.
Qed.

Lemma abs_not_neg_infinity (x : float) : Math_abs x <> neg_infinity.
Proof.
  intros E. apply (f_equal Prim2SF) in E. unfold Math_abs in E.
  rewrite abs_spec in E.
  change (Prim2SF neg_infinity) with (S754_infinity true) in E.
  destruct (Prim2SF x); discriminate.
Qed.

Lemma sub_finite_inv (x y : float) :
  finite (x - y) = true -> finite x = true /\ finite y = true.
Proof.
  unfold finite. rewrite sub_spec. unfold SF64sub.
  destruct (Prim2SF x) as [sx|sx| |sx px ex];
    destruct (Prim2SF y) as [sy|sy| |sy py ey]; cbn [SFsub SFfinite];
    try (intros; split; reflexivity); try discriminate;
    destruct sx, sy; discriminate.
Qed.

(** A finite number of magnitude 16 or more is a multiple of [2^-48]. *)
Lemma coarse_grid (x : float) :
  finite x = true -> (16 <= Rabs (B2R x))%R ->
  exists k, B2R x = F2R k (-48).
Proof.
  intros Hx Hbig. pose proof (Prim2SF_valid x) as Hv.
  unfold B2R, finite in *.
  destruct (Prim2SF x) as [s|s| |s p e]; try discriminate.
  { cbn [SF2R] in Hbig. rewrite Rabs_R0 in Hbig. lra. }
  apply valid_finite_inv in Hv as (Hp & He & _).
  assert (-48 <= e)%Z as He48.
  { assert (4 < 53 + e)%Z; [|lia]. apply bpow_lt_inv.
    rewrite SF2R_signed in Hbig. pose proof (F2R_pos_gt_0 p e).
    assert (Rabs (if s then (- F2R (Zpos p) e)%R else F2R (Zpos p) e)
            = F2R (Zpos p) e) as E
      by (destruct s; rewrite ?Rabs_Ropp, Rabs_right; lra).
    rewrite E in Hbig.
    apply Rle_lt_trans with (F2R (Zpos p) e).
    - rewrite bpow_IZR by lia. exact Hbig.
    - rewrite <- F2R_pow2 by lia. apply F2R_lt. exact Hp. }
  exists (signed s p * 2 ^ (e + 48))%Z. cbn [SF2R].
  rewrite <- (F2R_shift (signed s p) e (e + 48)) by lia.
  f_equal. lia.
Qed.

(** A rounding of a non-negative real is finite or plus infinity. *)
Lemma rounds_nonneg (x : R) (r : float) :
  rounds x (Prim2SF r) -> (0 <= x)%R ->
  (finite r = true /\ nearest x (B2R r)) \/ r = infinity.
Proof.
  intros (Hv & v & Hn & Hr) Hx. unfold finite, B2R.
  pose proof (nearest_ge _ _ _ Hn fmt_0 Hx) as Hv0.
  destruct (Prim2SF r) as [s|s| |s p e] eqn:E; try contradiction.
  - left. split; [reflexivity|]. subst v. exact Hn.
  - right. destruct Hr as [_ Hs]. destruct s; [lra|].
    rewrite <- (SF2Prim_Prim2SF r), E. reflexivity.
  - left. split; [reflexivity|]. rewrite Hr. exact Hn.
Qed.

Lemma infinity_ltb (d : float) : (infinity <? d) = false.
Proof.
  rewrite FloatAxioms.ltb_spec. unfold SFltb.
  change (Prim2SF infinity) with (S754_infinity false).
  destruct (Prim2SF d) as [s|s| |s p e]; try reflexivity.
  destruct s; reflexivity.
Qed.

(** Within half a meter of the previous distance neither comparison of
    the label fires. *)
Lemma same_band (d p : float) :
  (20 <? d) = true -> (Math_abs (d - p) <=? 0.5) = true ->
  (d <? p - 0.5) = false /\ (p + 0.5 <? d) = false.
Proof.
  intros Hd Habs.
  destruct (geb_cases 0.5 _ eq_refl Habs) as [[Fa Ba] | E];
    [|exfalso; exact (abs_not_neg_infinity _ E)].
  rewrite abs_finite in Fa. rewrite B2R_abs, B2R_half in Ba.
  destruct (sub_finite_inv d p Fa) as [Fd Fp].
  apply ltb_B2R in Hd; auto. rewrite B2R_20 in Hd.
  set (D := B2R d) in *. set (P := B2R p) in *.
  pose proof (sub_rounds d p Fd Fp) as Rs. fold D P in Rs.
  destruct Rs as (_ & v & Hn & Hr).
  assert (B2R (d - p) = v) as Ev.
  { unfold B2R, finite in *.
    destruct (Prim2SF (d - p)); try discriminate; auto. }
  rewrite Ev in Ba. apply Rabs_le_inv in Ba.
  assert (fmt 1 /\ fmt (-1)) as [F1 Fm1]
    by (split; [apply (fmt_IZR 1) | apply (fmt_IZR (-1))]; lia).
  assert (D - P < 1)%R as Hlt1.
  { apply Rnot_le_lt. intros H.
    pose proof (nearest_ge _ _ _ Hn F1 H). lra. }
  assert (-1 < D - P)%R as Hgtm1.
  { apply Rnot_le_lt. intros H.
    pose proof (nearest_le _ _ _ Hn Fm1 H). lra. }
  (* the difference is exact *)
  assert (v = D - P)%R as Hexact.
  { apply nearest_exact; [|exact Hn].
    destruct (coarse_grid d Fd) as [kd Hkd];
      [fold D; rewrite Rabs_right; lra|].
    destruct (coarse_grid p Fp) as [kp Hkp];
      [fold P; rewrite Rabs_right; lra|].
    fold D in Hkd. fold P in Hkp. rewrite Hkd, Hkp, <- F2R_sub.
    apply fmt_F2R; [rewrite emin_eq; lia|].
    assert (Z.abs (kd - kp) < 2 ^ 48)%Z; [|lia].
    rewrite Hkd, Hkp, <- F2R_sub in Hlt1, Hgtm1.
    assert (F2R (2 ^ 48) (-48) = 1)%R as E1
      by (rewrite F2R_pow2 by lia; reflexivity).
    assert (F2R (- 2 ^ 48) (-48) = -1)%R as Em1
      by (rewrite F2R_opp, E1; lra).
    rewrite <- E1 in Hlt1. rewrite <- Em1 in Hgtm1.
    apply F2R_lt_inv in Hlt1, Hgtm1. lia. }
  rewrite Hexact in Ba.
  destruct (B2R_fmt d) as [FD _]. fold D in FD.
  split.
  - (* p - 0.5 is at most d *)
    pose proof (sub_rounds p 0.5 Fp eq_refl) as Ra.
    rewrite B2R_half in Ra. fold P in Ra.
    destruct (B2R_fmt p) as [FP BP]. fold P in FP, BP.
    assert (Rabs 0 < bpow 1024)%R as B0
      by (apply (small_lt_bpow_1024 0); lia).
    destruct (rounds_float _ _ 0 P Ra fmt_0 FP B0 BP ltac:(lra))
      as (Fa' & _ & Na).
    apply ltb_false_B2R; auto. fold D.
    apply (nearest_le _ _ _ Na FD). lra.
  - (* p + 0.5 is at least d *)
    pose proof (add_rounds p 0.5 Fp eq_refl) as Rb.
    rewrite B2R_half in Rb. fold P in Rb.
    destruct (rounds_nonneg _ _ Rb ltac:(lra)) as [[Fb Nb] | ->];
      [|apply infinity_ltb].
    apply ltb_false_B2R; auto. fold D.
    apply (nearest_ge _ _ _ Nb FD). lra.
Qed.


Lemma leb_nan_r (c h : float) : is_nan h = true -> (c <=? h) = false.
Proof.
  unfold is_nan. rewrite FloatAxioms.eqb_spec, FloatAxioms.leb_spec.
  unfold SFeqb, SFleb.
  destruct (Prim2SF h) as [s|s| |s p e]; cbn.
  - discriminate.
  - destruct s; discriminate.
  - intros _. destruct (Prim2SF c); reflexivity.
  - intros H. exfalso. destruct s;
      rewrite Z.compare_refl, Pos.compare_cont_refl in H; discriminate.
Qed.

(* ================================================================== *)
(** ** The claims about heat and labels *)
(* ================================================================== *)

(** C3: the heat is [clamp01 (1 - min (d, 1200) / 1200)]; it is 1 at
    distance 0, it is 0 from the hot radius on, it lies between 0 and 1
    for every distance [d >= 0], and it never increases with the
    distance. *)
Theorem heat_is_clamped_linear_falloff :
  (forall d,
      heatOf d
      = clamp01 (1 - Math_min d HOT_RADIUS_METERS / HOT_RADIUS_METERS))
  /\ (forall d, (d =? 0) = true -> heatOf d = 1)
  /\ (forall d, (1200 <=? d) = true -> heatOf d = 0)
  /\ (forall d, (0 <=? d) = true ->
                (0 <=? heatOf d) = true /\ (heatOf d <=? 1) = true)
  /\ (forall d1 d2,
         (0 <=? d1) = true -> (d1 <=? d2) = true ->
         (heatOf d2 <=? heatOf d1) = true).
Proof.
  split; [reflexivity|].
  split; [exact heatOf_zero|].
  split; [exact heatOf_far|].
  split; [|exact heatOf_monotone].
  intros d Hd.
  destruct (HOT_RADIUS_METERS <=? d) eqn:Hfar.
  - rewrite (heatOf_far d Hfar). split; reflexivity.
  - destruct (leb_cases 0 d eq_refl Hd) as [[Fd Pd] | ->];
      [|vm_compute in Hfar; discriminate].
    unfold HOT_RADIUS_METERS in Hfar.
    apply leb_false_B2R in Hfar; auto.
    rewrite B2R_1200 in Hfar. rewrite B2R_0 in Pd.
    destruct (heatOf_near d Fd ltac:(lra))
      as (_ & _ & _ & _ & Br & _ & Fh & Eh).
    split; apply leb_B2R; auto; rewrite ?B2R_0, ?B2R_1, Eh; lra.
Qed.

Lemma heat_is_clamped_linear_falloff_witness :
  (0 <=? 100) = true /\ (100 <=? 500) = true
  /\ (heatOf 500 <=? heatOf 100) = true
  /\ (1200 <=? 5000) = true /\ heatOf 5000 = 0.
Proof.
  destruct heat_is_clamped_linear_falloff as (_ & _ & Hfar & _ & Hmono).
  exact (conj eq_refl
           (conj eq_refl
              (conj (Hmono 100 500 eq_refl eq_refl)
                 (conj eq_refl (Hfar 5000 eq_refl))))).
Defined.



(* ================================================================== *)
(** ** Integers as numbers, [Math.floor], and the strings of numbers *)
(* ================================================================== *)

Lemma F2R_int (n : Z) : F2R n 0 = IZR n.
Proof. unfold F2R, bpow. simpl. lra. Qed.

Lemma Z2float_spec (n : Z) :
  (Z.abs n <= 2 ^ 53)%Z ->
  finite (Z2float n) = true /\ B2R (Z2float n) = IZR n.
Proof.
  intros Hn. unfold Z2float, finite, B2R.
  pose proof (binary_normalize_rounds n 0 false) as Hr.
  rewrite F2R_int in Hr.
  rewrite Prim2SF_SF2Prim by apply Hr.
  apply rounds_exact; [exact Hr | apply fmt_IZR, Hn |].
  apply small_lt_bpow_1024, Hn.
Qed.

Lemma finite_nonneg_fields (a : float) :
  finite a = true -> (0 <= B2R a)%R ->
  (exists s, Prim2SF a = S754_zero s)
  \/ (exists p e, Prim2SF a = S754_finite false p e).
Proof.
  unfold finite, B2R. intros Ha Hpos.
  destruct (Prim2SF a) as [s|s| |s p e]; try discriminate.
  - left. eauto.
  - right. rewrite SF2R_signed in Hpos. pose proof (F2R_pos_gt_0 p e).
    destruct s; [lra | eauto].
Qed.

(** [Math.floor] of a non-negative number below [2^53]: the integer [D]
    with [D <= a < D + 1]; the remainder [a - D] is in the format. *)
Lemma Math_floor_spec (a : float) :
  finite a = true -> (0 <= B2R a < bpow 53)%R ->
  exists D : Z,
    (0 <= D < 2 ^ 53)%Z
    /\ (IZR D <= B2R a < IZR D + 1)%R
    /\ finite (Math_floor a) = true
    /\ B2R (Math_floor a) = IZR D
    /\ fmt (B2R a - IZR D).
Proof.
  intros Ha [Hpos Hlt]. pose proof (Prim2SF_valid a) as Hv.
  rewrite bpow_IZR in Hlt by lia.
  destruct (finite_nonneg_fields a Ha Hpos) as [[s E] | (p & e & E)].
  - exists 0%Z. unfold Math_floor, B2R, finite in *. rewrite E in *.
    rewrite E. cbn [SF2R SFfinite].
    replace (0 - 0)%R with 0%R by lra.
    repeat split; try lia; try lra; try reflexivity. apply fmt_0.
  - unfold Math_floor, B2R, finite in *. rewrite E in *.
    apply valid_finite_inv in Hv as (Hp & He & _).
    cbn [SF2R signed] in *.
    destruct (Z.leb_spec 0 e) as [He0 | He0].
    + (* integral already *)
      exists (Zpos p * 2 ^ e)%Z. rewrite E. cbn [SF2R SFfinite signed].
      rewrite F2R_IZR in * by lia.
      apply lt_IZR in Hlt.
      assert (0 < 2 ^ e)%Z by (apply Z.pow_pos_nonneg; lia).
      replace (IZR (Zpos p * 2 ^ e) - IZR (Zpos p * 2 ^ e))%R with 0%R by lra.
      repeat split; try nia; try lra. apply fmt_0.
    + set (k := (- e)%Z). set (D := Z.shiftl (Zpos p) e).
      assert (0 < 2 ^ k)%Z as H2k by (apply Z.pow_pos_nonneg; lia).
      assert (D = Zpos p / 2 ^ k)%Z as HD
        by (subst D k; apply Z.shiftl_div_pow2; lia).
      pose proof (Z.div_mod (Zpos p) (2 ^ k) ltac:(lia)) as Hdm.
      pose proof (Z.mod_pos_bound (Zpos p) (2 ^ k) H2k) as Hmod.
      rewrite <- HD in Hdm.
      assert (0 <= D)%Z as HD0 by (rewrite HD; apply Z.div_pos; lia).
      assert (D <= Zpos p)%Z as HDp by nia.
      assert (F2R (Zpos p) e = IZR D + F2R (Zpos p mod 2 ^ k) e)%R as Hval.
      { rewrite Hdm at 1. rewrite F2R_add. f_equal.
        rewrite Z.mul_comm. replace e with (0 - k)%Z at 1 by lia.
        rewrite F2R_shift by lia. apply F2R_int. }
      assert (0 <= F2R (Zpos p mod 2 ^ k) e < 1)%R as Hfrac.
      { split.
        - rewrite <- (F2R_0 e). apply F2R_le. lia.
        - replace 1%R with (F2R (2 ^ k) e)
            by (rewrite F2R_pow2 by lia; subst k;
                replace (- e + e)%Z with 0%Z by lia; reflexivity).
          apply F2R_lt. lia. }
      destruct (Z2float_spec D ltac:(lia)) as [Fz Bz].
      exists D. unfold finite, B2R in Fz, Bz.
      repeat split; try lia; try lra; try assumption.
      rewrite Hval.
      replace (IZR D + F2R (Zpos p mod 2 ^ k) e - IZR D)%R
        with (F2R (Zpos p mod 2 ^ k) e) by lra.
      apply fmt_F2R; lia.
Qed.

(** A number whose value is an integer below [2^53] prints as the
    numeral of that integer. *)
Lemma NumberToString_integer (x : float) (D : Z) :
  finite x = true -> B2R x = IZR D -> (0 <= D < 2 ^ 53)%Z ->
  NumberToString x = string_of_Z D.
Proof.
  intros Hx Hval HD.
  destruct (finite_nonneg_fields x Hx) as [[s E] | (p & e & E)].
  { rewrite Hval. apply IZR_le. lia. }
  - unfold NumberToString, B2R in *. rewrite E in *. cbn [SF2R] in Hval.
    apply eq_IZR in Hval. subst D. reflexivity.
  - unfold NumberToString, B2R in *. rewrite E in *.
    cbn [SF2R signed] in Hval.
    assert (Z.shiftl (Zpos p) e = D
            /\ Z.shiftl (Z.shiftl (Zpos p) e) (- e) = Zpos p) as [HD1 HD2].
    { destruct (Z.leb_spec 0 e) as [He0 | He0].
      - rewrite F2R_IZR in Hval by lia. apply eq_IZR in Hval.
        rewrite Z.shiftl_mul_pow2 by lia. split; [exact Hval|].
        rewrite Z.shiftl_div_pow2 by lia.
        replace (- - e)%Z with e by lia.
        apply Z.div_mul. apply Z.pow_nonzero; lia.
      - assert (Zpos p = D * 2 ^ (- e))%Z as Hp.
        { apply eq_IZR. rewrite mult_IZR, <- bpow_IZR by lia.
          unfold F2R in Hval. rewrite <- Hval, Rmult_assoc, <- bpow_add.
          replace (e + - e)%Z with 0%Z by lia. rewrite bpow_0. lra. }
        rewrite Z.shiftl_div_pow2 by lia. rewrite Hp.
        rewrite Z.div_mul by (apply Z.pow_nonzero; lia).
        split; [reflexivity|].
        rewrite Z.shiftl_mul_pow2 by lia. reflexivity. }
    unfold safe_integer. rewrite HD2, HD1, Z.eqb_refl.
    assert ((D <? 2 ^ 53)%Z = true) as -> by (apply Z.ltb_lt; lia).
    reflexivity.
Qed.

(** [scaled_round m e f] is the integer nearest to [m * 2^e * 10^f],
    the larger one on a tie. *)
Lemma scaled_round_spec (m : positive) (e : Z) (f : nat) :
  (IZR (scaled_round m e f) - / 2
     <= IZR (10 ^ Z.of_nat f) * F2R (Zpos m) e
     < IZR (scaled_round m e f) + / 2)%R.
Proof.
  unfold scaled_round. set (t := (Zpos m * 10 ^ Z.of_nat f)%Z).
  assert (IZR (10 ^ Z.of_nat f) * F2R (Zpos m) e = F2R t e)%R as ->
    by (unfold F2R, t; rewrite mult_IZR; lra).
  destruct (Z.leb_spec 0 e) as [He | He].
  - rewrite Z.shiftl_mul_pow2, F2R_IZR by lia. lra.
  - set (k := (- e)%Z).
    assert (0 < 2 ^ k)%Z as H2k by (apply Z.pow_pos_nonneg; lia).
    rewrite Z.shiftl_div_pow2 by lia.
    replace (- (e - 1))%Z with (k + 1)%Z by lia.
    rewrite Z.pow_add_r by lia. change (2 ^ 1)%Z with 2%Z.
    set (n := ((2 * t + 2 ^ k) / (2 ^ k * 2))%Z).
    pose proof (Z.div_mod (2 * t + 2 ^ k) (2 ^ k * 2) ltac:(lia)) as Hdm.
    pose proof (Z.mod_pos_bound (2 * t + 2 ^ k) (2 ^ k * 2) ltac:(lia)) as Hr.
    fold n in Hdm. set (r := ((2 * t + 2 ^ k) mod (2 ^ k * 2))%Z) in *.
    assert (2 * t = 2 ^ k * (2 * n) + (r - 2 ^ k))%Z as Ht by lia.
    apply (f_equal IZR) in Ht.
    rewrite plus_IZR, !mult_IZR, minus_IZR in Ht.
    destruct Hr as [Hr0 Hr1]. apply IZR_le in Hr0. apply IZR_lt in Hr1.
    rewrite mult_IZR in Hr1. apply IZR_lt in H2k.
    set (P := IZR (2 ^ k)) in *.
    assert (F2R t e * P = IZR t)%R as Hy.
    { unfold F2R, P. rewrite <- bpow_IZR by lia.
      rewrite Rmult_assoc, <- bpow_add.
      replace (e + k)%Z with 0%Z by lia. rewrite bpow_0. lra. }
    set (y := F2R t e) in *.
    split.
    + apply (Rmult_le_reg_r P); [exact H2k|]. rewrite Hy. nra.
    + apply (Rmult_lt_reg_r P); [exact H2k|]. rewrite Hy. nra.
Qed.

Lemma B2R_1e21 : B2R 1e21 = IZR (10 ^ 21).
Proof.
  float_const 1e21%float.
  rewrite F2R_IZR by lia. reflexivity.
Qed.

Lemma B2R_60 : B2R 60 = 60%R.
Proof.
  float_const 60%float.
  change 8444249301319680%Z with (15 * 2 ^ 49)%Z.
  rewrite F2R_reduce, F2R_IZR by lia. reflexivity.
Qed.

(** [toFixed] on a non-negative number below [10^21]: the digits of the
    nearest multiple of [10^-f]. *)
Lemma toFixed_spec (x : float) (f : nat) :
  finite x = true -> (0 <= B2R x < IZR (10 ^ 21))%R ->
  exists n : Z,
    (IZR n - / 2 <= IZR (10 ^ Z.of_nat f) * B2R x < IZR n + / 2)%R
    /\ toFixed x f = fixed_digits n f.
Proof.
  intros Hx [Hpos Hlt].
  assert ((1e21 <=? Math_abs x) = false) as Hbig.
  { apply leb_false_B2R; [reflexivity | rewrite abs_finite; exact Hx |].
    rewrite B2R_abs, B2R_1e21, Rabs_pos_eq; assumption. }
  destruct (finite_nonneg_fields x Hx Hpos) as [[s E] | (p & e & E)].
  - exists 0%Z. unfold toFixed, B2R. rewrite E. cbn [SF2R].
    split; [lra | reflexivity].
  - exists (scaled_round p e f). unfold toFixed, B2R. rewrite E, Hbig.
    cbn [SF2R signed]. split; [apply scaled_round_spec | reflexivity].
Qed.

Lemma fraction_digits_length (r : Z) (f : nat) :
  String.length (fraction_digits r f) = f.
Proof.
  revert r. induction f as [|f IH]; intros r; [reflexivity|].
  cbn [fraction_digits String.length]. rewrite IH. reflexivity.
Qed.

(** The minutes of [formatDeg]: the fraction of a degree, times 60. *)
Lemma minutes_spec (a : float) (D : Z) :
  finite a = true -> finite (Math_floor a) = true ->
  B2R (Math_floor a) = IZR D ->
  (IZR D <= B2R a < IZR D + 1)%R -> fmt (B2R a - IZR D) ->
  finite ((a - Math_floor a) * 60) = true
  /\ (0 <= B2R ((a - Math_floor a) * 60) <= 60)%R
  /\ nearest ((B2R a - IZR D) * 60) (B2R ((a - Math_floor a) * 60)).
Proof.
  intros Ha Hf HD Hbounds Hfmt.
  pose proof (sub_rounds a (Math_floor a) Ha Hf) as Hs. rewrite HD in Hs.
  apply rounds_exact in Hs as [Fs Vs]; [|exact Hfmt|].
  2:{ apply Rle_lt_trans with 1%R;
        [rewrite Rabs_pos_eq; lra | rewrite <- bpow_0; apply bpow_lt; lia]. }
  fold (finite (a - Math_floor a)) in Fs. fold (B2R (a - Math_floor a)) in Vs.
  assert (finite 60 = true) as F60 by reflexivity.
  pose proof (mul_rounds _ _ Fs F60) as Hm. rewrite Vs, B2R_60 in Hm.
  apply (rounds_float _ _ 0%R 60%R) in Hm; [exact Hm | | | | |].
  - apply fmt_0.
  - rewrite <- B2R_60. apply B2R_fmt.
  - rewrite Rabs_R0. apply bpow_gt_0.
  - rewrite <- B2R_60. apply B2R_fmt.
  - lra.
Qed.

Lemma B2R_2p53 : B2R 9007199254740992 = bpow 53.
Proof.
  float_const 9007199254740992%float.
  change 4503599627370496%Z with (2 ^ 52)%Z.
  rewrite F2R_pow2 by lia. reflexivity.
Qed.

(** C9: for a finite value below [2^53] in magnitude, [formatDeg] prints
    the numeral of the integer degrees [D] of the absolute value
    ([D <= |v| < D + 1]), the degree sign and a space, then the minutes
    [(|v| - D) * 60] rounded to thousandths and printed with exactly
    three decimals, then a quote mark; a negative value gets the suffix
    W/S and a non-negative one none, whatever the value stands for. *)
Theorem formatDeg_degrees_and_minutes (v : float) :
  finite v = true -> (Math_abs v <? 9007199254740992) = true ->
  exists (D n : Z) (minutes : float) (suffix : string),
    (0 <= D)%Z
    /\ (IZR D <= Rabs (B2R v) < IZR D + 1)%R
    /\ nearest ((Rabs (B2R v) - IZR D) * 60) (B2R minutes)
    /\ (IZR n - / 2 <= 1000 * B2R minutes < IZR n + / 2)%R
    /\ (0 <= n <= 60000)%Z
    /\ formatDeg v
       = string_of_Z D ++ "° "
           ++ (string_of_Z (n / 1000) ++ "." ++ fraction_digits (n mod 1000) 3)
           ++ "'" ++ suffix
    /\ String.length (fraction_digits (n mod 1000) 3) = 3%nat
    /\ ((B2R v < 0)%R -> suffix = "W/S")
    /\ ((0 <= B2R v)%R -> suffix = "").
Proof.
  intros Hv Hsmall.
  assert (finite (Math_abs v) = true) as Ha by (rewrite abs_finite; exact Hv).
  apply ltb_B2R in Hsmall; [|exact Ha|reflexivity].
  rewrite B2R_2p53 in Hsmall.
  assert (0 <= B2R (Math_abs v))%R as Hpos
    by (rewrite B2R_abs; apply Rabs_pos).
  destruct (Math_floor_spec (Math_abs v) Ha (conj Hpos Hsmall))
    as (D & HD & Hbounds & Ff & Vf & Hfmt).
  destruct (minutes_spec (Math_abs v) D Ha Ff Vf Hbounds Hfmt)
    as (Fm & Bm & Nm).
  set (minutes := (Math_abs v - Math_floor (Math_abs v)) * 60) in *.
  destruct (toFixed_spec minutes 3 Fm) as (n & Hn & Hstr).
  { split; [apply Bm|]. apply Rle_lt_trans with 60%R; [apply Bm|].
    apply IZR_lt. reflexivity. }
  change (IZR (10 ^ Z.of_nat 3)) with 1000%R in Hn.
  exists D, n, minutes, (if v <? 0 then "W/S" else "").
  rewrite B2R_abs in *.
  split; [lia|]. split; [exact Hbounds|]. split; [exact Nm|].
  split; [exact Hn|].
  split.
  { split.
    - destruct (Z.le_gt_cases 0 n) as [H|H]; [exact H|].
      assert (n <= -1)%Z as H' by lia. apply IZR_le in H'. lra.
    - destruct (Z.le_gt_cases n 60000) as [H|H]; [exact H|].
      assert (60001 <= n)%Z as H' by lia. apply IZR_le in H'. lra. }
  split.
  { unfold formatDeg. fold minutes. rewrite Hstr.
    rewrite (NumberToString_integer _ D Ff Vf HD). reflexivity. }
  split; [apply fraction_digits_length|].
  split; intros Hs.
  - assert ((v <? 0) = true) as ->; [|reflexivity].
    apply ltb_B2R; [exact Hv | reflexivity | rewrite B2R_0; exact Hs].
  - assert ((v <? 0) = false) as ->; [|reflexivity].
    apply ltb_false_B2R; [exact Hv | reflexivity | rewrite B2R_0; exact Hs].
Qed.

Lemma formatDeg_degrees_and_minutes_witness :
  formatDeg 32.709466666666664 = "32° 42.568'"
  /\ formatDeg (-117.5) = "117° 30.000'W/S"
  /\ exists (D n : Z) (minutes : float) (suffix : string),
       (0 <= D)%Z
       /\ (IZR D <= Rabs (B2R (-117.5)) < IZR D + 1)%R
       /\ nearest ((Rabs (B2R (-117.5)) - IZR D) * 60) (B2R minutes)
       /\ (IZR n - / 2 <= 1000 * B2R minutes < IZR n + / 2)%R
       /\ (0 <= n <= 60000)%Z
       /\ formatDeg (-117.5)
          = string_of_Z D ++ "° "
              ++ (string_of_Z (n / 1000) ++ "."
                    ++ fraction_digits (n mod 1000) 3)
              ++ "'" ++ suffix
       /\ String.length (fraction_digits (n mod 1000) 3) = 3%nat
       /\ ((B2R (-117.5) < 0)%R -> suffix = "W/S")
       /\ ((0 <= B2R (-117.5))%R -> suffix = "").
Proof.
  split; [vm_compute; reflexivity|].
  split; [vm_compute; reflexivity|].
  exact (formatDeg_degrees_and_minutes (-117.5) eq_refl eq_refl).
Defined.

(* ================================================================== *)
(** ** Signs: negation commutes with the operations of [distanceMeters] *)
(* ================================================================== *)







Lemma SFmul_comm (f g : spec_float) :
  SFmul prec emax f g = SFmul prec emax g f.
Proof.
  destruct f as [sf|sf| |sf mf ef], g as [sg|sg| |sg mg eg];
    cbn [SFmul]; rewrite ?(xorb_comm sf sg); try reflexivity.
  rewrite (Pos.mul_comm mf mg), (Z.add_comm ef eg). reflexivity.
Qed.





Lemma mul_comm (x y : float) : x * y = y * x.
Proof. apply Prim2SF_inj. rewrite !mul_spec. apply SFmul_comm. Qed.





(** *** The kinds of numbers *)

Lemma float_kinds (x : float) :
  x = nan \/ x = infinity \/ x = neg_infinity \/ finite x = true.
Proof.
  unfold finite. destruct (Prim2SF x) as [s|s| |s m e] eqn:E; auto.
  - destruct s; [right; right; left | right; left];
      apply Prim2SF_inj; rewrite E; reflexivity.
  - left. apply Prim2SF_inj. rewrite E. reflexivity.
Qed.


Lemma B2R_opp (x : float) : B2R (- x) = (- B2R x)%R.
Proof.
  unfold B2R. rewrite opp_spec.
  destruct (Prim2SF x) as [s|s| |s m e]; cbn [SFopp SF2R]; try lra.
  destruct s; cbn [negb signed]; [|change (Zneg m) with (- Zpos m)%Z; rewrite F2R_opp; lra].
  change (Zneg m) with (- Zpos m)%Z. rewrite F2R_opp. lra.
Qed.

Lemma finite_is_infinity (x : float) : finite x = true -> is_infinity x = false.
Proof.
  unfold finite, is_infinity. rewrite FloatAxioms.eqb_spec, abs_spec.
  destruct (Prim2SF x) as [s|s| |s m e]; intros H; try discriminate;
    reflexivity.
Qed.


(** *** Zeros: finite numbers of value 0, of either sign *)

Lemma zero_fields (x : float) :
  finite x = true -> B2R x = 0%R -> exists s, Prim2SF x = S754_zero s.
Proof.
  unfold finite, B2R.
  destruct (Prim2SF x) as [s|s| |s m e]; intros Hf Hv; try discriminate.
  - eauto.
  - rewrite SF2R_signed in Hv. pose proof (F2R_pos_gt_0 m e).
    destruct s; lra.
Qed.

Lemma rounds_to_zero (r : float) :
  rounds 0 (Prim2SF r) -> finite r = true /\ B2R r = 0%R.
Proof.
  intros Hr.
  apply (rounds_float _ _ 0%R 0%R) in Hr as (Hf & Hb & _);
    try apply fmt_0; try (rewrite Rabs_R0; apply bpow_gt_0); [|lra].
  split; [exact Hf | lra].
Qed.

Lemma sub_self (x : float) :
  finite x = true -> finite (x - x) = true /\ B2R (x - x) = 0%R.
Proof.
  intros Hx. apply rounds_to_zero.
  replace 0%R with (B2R x - B2R x)%R by lra. apply sub_rounds; exact Hx.
Qed.

Lemma mul_zero_l (x y : float) :
  finite x = true -> B2R x = 0%R -> finite y = true ->
  finite (x * y) = true /\ B2R (x * y) = 0%R.
Proof.
  intros Hx Vx Hy. apply rounds_to_zero.
  replace 0%R with (B2R x * B2R y)%R by (rewrite Vx; lra).
  apply mul_rounds; assumption.
Qed.

Lemma mul_zero_r (x y : float) :
  finite x = true -> finite y = true -> B2R y = 0%R ->
  finite (x * y) = true /\ B2R (x * y) = 0%R.
Proof. intros Hx Hy Vy. rewrite mul_comm. apply mul_zero_l; assumption. Qed.

Lemma div_zero_l (x y : float) :
  finite x = true -> B2R x = 0%R -> finite y = true -> B2R y <> 0%R ->
  finite (x / y) = true /\ B2R (x / y) = 0%R.
Proof.
  intros Hx Vx Hy Vy. apply rounds_to_zero.
  replace 0%R with (B2R x / B2R y)%R by (rewrite Vx; unfold Rdiv; lra).
  apply div_rounds; assumption.
Qed.

Lemma add_zero (x y : float) :
  finite x = true -> B2R x = 0%R -> finite y = true -> B2R y = 0%R ->
  finite (x + y) = true /\ B2R (x + y) = 0%R.
Proof.
  intros Hx Vx Hy Vy. apply rounds_to_zero.
  replace 0%R with (B2R x + B2R y)%R by lra.
  apply add_rounds; assumption.
Qed.

Lemma sqrt_zero (x : float) :
  finite x = true -> B2R x = 0%R ->
  finite (Math_sqrt x) = true /\ B2R (Math_sqrt x) = 0%R.
Proof.
  intros Hx Vx. destruct (zero_fields x Hx Vx) as [s E].
  unfold finite, B2R, Math_sqrt. rewrite sqrt_spec, E. split; reflexivity.
Qed.

Lemma one_minus_zero (x : float) :
  finite x = true -> B2R x = 0%R -> 1 - x = 1.
Proof.
  intros Hx Vx.
  pose proof (sub_rounds 1 x eq_refl Hx) as Hr. rewrite B2R_1, Vx in Hr.
  replace (1 - 0)%R with 1%R in Hr by lra.
  apply rounds_exact in Hr as [Hf Hv].
  - destruct (B2R_inj (1 - x) 1 Hf eq_refl) as [E | [_ E]];
      [rewrite B2R_1; exact Hv | exact E | discriminate E].
  - rewrite <- B2R_1. apply B2R_fmt.
  - rewrite <- B2R_1. apply B2R_fmt.
Qed.

Lemma B2R_180 : B2R 180 = 180%R.
Proof.
  float_const 180%float.
  change 6333186975989760%Z with (45 * 2 ^ 47)%Z.
  rewrite F2R_reduce, F2R_IZR by lia. reflexivity.
Qed.

Lemma B2R_2 : B2R 2 = 2%R.
Proof.
  float_const 2%float.
  change 4503599627370496%Z with (1 * 2 ^ 52)%Z.
  rewrite F2R_reduce, F2R_IZR by lia. reflexivity.
Qed.

Lemma B2R_90 : B2R 90 = 90%R.
Proof.
  float_const 90%float.
  change 6333186975989760%Z with (45 * 2 ^ 47)%Z.
  rewrite F2R_reduce, F2R_IZR by lia. reflexivity.
Qed.

Lemma B2R_PI_bounds : (0 <= B2R Math_PI <= 4)%R.
Proof.
  float_const Math_PI. split.
  - apply Rlt_le, F2R_pos_gt_0.
  - replace 4%R with (F2R (2 ^ 53) (-51))
      by (rewrite F2R_pow2 by lia; change (53 + -51)%Z with 2%Z;
          rewrite bpow_IZR by lia; reflexivity).
    apply F2R_le. lia.
Qed.

Lemma toRad_zero (u : float) :
  finite u = true -> B2R u = 0%R ->
  finite (toRad u) = true /\ B2R (toRad u) = 0%R.
Proof.
  intros Hu Vu. unfold toRad.
  destruct (mul_zero_l u Math_PI Hu Vu eq_refl) as [Hm Vm].
  apply div_zero_l; [exact Hm | exact Vm | reflexivity |].
  rewrite B2R_180. lra.
Qed.

Lemma half_zero (u : float) :
  finite u = true -> B2R u = 0%R ->
  finite (u / 2) = true /\ B2R (u / 2) = 0%R.
Proof.
  intros Hu Vu. apply div_zero_l; [exact Hu | exact Vu | reflexivity |].
  rewrite B2R_2. lra.
Qed.

(** A latitude within 90 degrees has a finite measure in radians. *)
Lemma toRad_finite (u : float) :
  (Math_abs u <=? 90) = true -> finite (toRad u) = true.
Proof.
  intros Hu.
  destruct (geb_cases 90 (Math_abs u) eq_refl Hu) as [[Fa Va] | E];
    [|exfalso; exact (abs_not_neg_infinity u E)].
  rewrite abs_finite in Fa. rewrite B2R_abs, B2R_90 in Va.
  pose proof B2R_PI_bounds as Hpi.
  assert (- 90 <= B2R u <= 90)%R as Hb
    by (split; [apply Rabs_le_inv in Va; lra | apply Rabs_le_inv in Va; lra]).
  pose proof (mul_rounds u Math_PI Fa eq_refl) as Hm.
  apply (rounds_float _ _ (IZR (-360)) (IZR 360)) in Hm as (Fm & Bm & _).
  - unfold toRad.
    pose proof (div_rounds (u * Math_PI) 180 Fm eq_refl) as Hd.
    rewrite B2R_180 in Hd. specialize (Hd ltac:(lra)).
    apply (rounds_float _ _ (IZR (-2)) (IZR 2)) in Hd as (Fd & _).
    + exact Fd.
    + apply fmt_IZR. lia.
    + apply fmt_IZR. lia.
    + apply small_lt_bpow_1024. lia.
    + apply small_lt_bpow_1024. lia.
    + lra.
  - apply fmt_IZR. lia.
  - apply fmt_IZR. lia.
  - apply small_lt_bpow_1024. lia.
  - apply small_lt_bpow_1024. lia.
  - nra.
Qed.

(* ================================================================== *)
(** ** [distanceMeters]: symmetric, and zero between a point and itself *)
(* ================================================================== *)

Section Distance.

Variable sin_approx cos_approx : float -> float.
Variable atan2_approx : float -> float -> float.

(** What is asked of the engine: its sine is an odd function, and its
    cosine of a finite number is within [-1, 1]. *)
Hypothesis sin_odd : forall x, sin_approx (- x) = - sin_approx x.
Hypothesis cos_bounded :
  forall x, finite x = true -> (Math_abs (cos_approx x) <=? 1) = true.

#[local] Abbreviation Math_sin := (Math_sin sin_approx).
#[local] Abbreviation Math_cos := (Math_cos cos_approx).
#[local] Abbreviation Math_atan2 := (Math_atan2 atan2_approx).
#[local] Abbreviation distanceMeters :=
  (distanceMeters sin_approx cos_approx atan2_approx).


Lemma Math_sin_zero (x : float) :
  finite x = true -> B2R x = 0%R -> Math_sin x = x.
Proof.
  intros Hx Vx. unfold App.Math_sin.
  rewrite (finite_is_nan x Hx), (proj2 (is_zero_B2R x Hx) Vx). reflexivity.
Qed.

Lemma Math_cos_bounded (x : float) :
  finite x = true ->
  finite (Math_cos x) = true /\ (Rabs (B2R (Math_cos x)) <= 1)%R.
Proof using cos_bounded.
  intros Hx. unfold App.Math_cos.
  rewrite (finite_is_nan x Hx), (finite_is_infinity x Hx).
  destruct (is_zero x).
  - split; [reflexivity|]. rewrite B2R_1, Rabs_pos_eq; lra.
  - destruct (geb_cases 1 _ eq_refl (cos_bounded x Hx)) as [[Fa Va] | E];
      [|exfalso; exact (abs_not_neg_infinity _ E)].
    rewrite abs_finite in Fa. rewrite B2R_abs, B2R_1 in Va. auto.
Qed.



Lemma distanceMeters_diag (a : LatLng) :
  (Math_abs (lat a) <=? 90) = true -> finite (lng a) = true ->
  finite (distanceMeters a a) = true /\ B2R (distanceMeters a a) = 0%R.
Proof using cos_bounded.
  intros Hlat Hlng.
  assert (finite (lat a) = true) as Flat.
  { destruct (geb_cases 90 _ eq_refl Hlat) as [[Fa _] | E];
      [rewrite abs_finite in Fa; exact Fa
      | exfalso; exact (abs_not_neg_infinity _ E)]. }
  unfold App.distanceMeters. cbv zeta.
  destruct (sub_self (lat a) Flat) as [F1 V1].
  destruct (toRad_zero _ F1 V1) as [F2 V2].
  destruct (half_zero _ F2 V2) as [F3 V3].
  rewrite (Math_sin_zero _ F3 V3).
  destruct (sub_self (lng a) Hlng) as [G1 W1].
  destruct (toRad_zero _ G1 W1) as [G2 W2].
  destruct (half_zero _ G2 W2) as [G3 W3].
  rewrite (Math_sin_zero _ G3 W3).
  set (z1 := toRad (lat a - lat a) / 2) in *.
  set (z2 := toRad (lng a - lng a) / 2) in *.
  destruct (mul_zero_l z1 z1 F3 V3 F3) as [F4 V4].
  destruct (Math_cos_bounded _ (toRad_finite _ Hlat)) as [Fc Vc].
  set (c := Math_cos (toRad (lat a))) in *.
  assert (finite (c * c) = true) as Fcc.
  { pose proof (mul_rounds c c Fc Fc) as Hm.
    apply (rounds_float _ _ (IZR (-1)) (IZR 1)) in Hm as (Fm & _).
    - exact Fm.
    - apply fmt_IZR. lia.
    - apply fmt_IZR. lia.
    - apply small_lt_bpow_1024. lia.
    - apply small_lt_bpow_1024. lia.
    - apply Rabs_le_inv in Vc. nra. }
  destruct (mul_zero_r (c * c) z2 Fcc G3 W3) as [F5 V5].
  destruct (mul_zero_r (c * c * z2) z2 F5 G3 W3) as [F6 V6].
  destruct (add_zero _ _ F4 V4 F6 V6) as [F7 V7].
  set (aa := z1 * z1 + c * c * z2 * z2) in *.
  rewrite (one_minus_zero aa F7 V7).
  destruct (sqrt_zero aa F7 V7) as [F8 V8].
  assert (Math_atan2 (Math_sqrt aa) (Math_sqrt 1) = Math_sqrt aa) as ->.
  { unfold App.Math_atan2.
    rewrite (finite_is_nan _ F8), (proj2 (is_zero_B2R _ F8) V8).
    reflexivity. }
  destruct (mul_zero_r 2 _ eq_refl F8 V8) as [F9 V9].
  apply mul_zero_r; [reflexivity | exact F9 | exact V9].
Qed.


End Distance.


(* ================================================================== *)
(** ** Rounding to an integer, and the ranges of what a guess draws *)
(* ================================================================== *)

(** [(2 t + 2^k) >> (k + 1)] is [t / 2^k] rounded to the nearest
    integer, the larger one on a tie. *)
Lemma round_half_up_spec (t e : Z) :
  (e < 0)%Z ->
  (IZR (Z.shiftl (2 * t + 2 ^ (- e)) (e - 1)) - / 2
     <= F2R t e
     < IZR (Z.shiftl (2 * t + 2 ^ (- e)) (e - 1)) + / 2)%R.
Proof.
  intros He. set (k := (- e)%Z).
  assert (0 < 2 ^ k)%Z as H2k by (apply Z.pow_pos_nonneg; lia).
  rewrite Z.shiftl_div_pow2 by lia.
  replace (- (e - 1))%Z with (k + 1)%Z by lia.
  rewrite Z.pow_add_r by lia. change (2 ^ 1)%Z with 2%Z.
  set (n := ((2 * t + 2 ^ k) / (2 ^ k * 2))%Z).
  pose proof (Z.div_mod (2 * t + 2 ^ k) (2 ^ k * 2) ltac:(lia)) as Hdm.
  pose proof (Z.mod_pos_bound (2 * t + 2 ^ k) (2 ^ k * 2) ltac:(lia)) as Hr.
  fold n in Hdm. set (r := ((2 * t + 2 ^ k) mod (2 ^ k * 2))%Z) in *.
  assert (2 * t = 2 ^ k * (2 * n) + (r - 2 ^ k))%Z as Ht by lia.
  apply (f_equal IZR) in Ht.
  rewrite plus_IZR, !mult_IZR, minus_IZR in Ht.
  destruct Hr as [Hr0 Hr1]. apply IZR_le in Hr0. apply IZR_lt in Hr1.
  rewrite mult_IZR in Hr1. apply IZR_lt in H2k.
  set (P := IZR (2 ^ k)) in *.
  assert (F2R t e * P = IZR t)%R as Hy.
  { unfold F2R, P. rewrite <- bpow_IZR by lia.
    rewrite Rmult_assoc, <- bpow_add.
    replace (e + k)%Z with 0%Z by lia. rewrite bpow_0. lra. }
  set (y := F2R t e) in *.
  split.
  - apply (Rmult_le_reg_r P); [exact H2k|]. rewrite Hy. nra.
  - apply (Rmult_lt_reg_r P); [exact H2k|]. rewrite Hy. nra.
Qed.

(** [Math.round] of a finite number is the nearest integer, the larger
    one on a tie. *)
Lemma Math_round_spec (x : float) :
  finite x = true ->
  exists n : Z,
    (IZR n - / 2 <= B2R x < IZR n + / 2)%R
    /\ finite (Math_round x) = true
    /\ B2R (Math_round x) = IZR n.
Proof.
  intros Hx. pose proof (Prim2SF_valid x) as Hv.
  unfold finite, B2R, Math_round in *.
  destruct (Prim2SF x) as [s|s| |s m e] eqn:E; try discriminate.
  - exists 0%Z. rewrite E. cbn [SF2R SFfinite]. repeat split; lra.
  - apply valid_finite_inv in Hv as (Hm & He & _).
    destruct (Z.leb_spec 0 e) as [He0 | He0].
    + exists (signed s m * 2 ^ e)%Z. rewrite E. cbn [SF2R SFfinite].
      rewrite F2R_IZR by lia. repeat split; lra.
    + cbn [SF2R].
      pose proof (round_half_up_spec (signed s m) e He0) as Hn.
      set (n := Z.shiftl (2 * signed s m + 2 ^ (- e)) (e - 1)) in *.
      exists n. split; [exact Hn|].
      assert (Rabs (F2R (signed s m) e) <= bpow 52)%R as Hb.
      { assert (IZR (- 2 ^ 53) <= IZR (signed s m) <= IZR (2 ^ 53))%R as Hs
          by (split; apply IZR_le; destruct s; cbn [signed]; lia).
        rewrite opp_IZR, <- bpow_IZR in Hs by lia.
        assert (0 < bpow e <= bpow (-1))%R as [Hp Hq]
          by (split; [apply bpow_gt_0 | apply bpow_le; lia]).
        replace (bpow 53) with (bpow 52 * 2)%R in Hs
          by (replace 53%Z with (52 + 1)%Z by lia; rewrite bpow_succ; lra).
        replace (bpow (-1)) with (/ 2)%R in Hq
          by (unfold bpow; simpl; lra).
        pose proof (bpow_gt_0 52) as H52.
        unfold F2R. apply Rabs_le. split; nra. }
      destruct (Z.eqb_spec n 0) as [E0 | E0].
      * rewrite E0. destruct s; split; reflexivity.
      * apply Z2float_spec.
        apply Rabs_le_inv in Hb. rewrite bpow_IZR in Hb by lia.
        assert (IZR n < IZR (2 ^ 52) + 1)%R as H1 by lra.
        assert (- IZR (2 ^ 52) - 1 < IZR n)%R as H2 by lra.
        rewrite <- plus_IZR in H1. apply lt_IZR in H1.
        replace (- IZR (2 ^ 52) - 1)%R with (IZR (- 2 ^ 52 - 1)) in H2
          by (rewrite minus_IZR, opp_IZR; lra).
        apply lt_IZR in H2. lia.
Qed.

Lemma fmt_bpow (e : Z) : (emin <= e)%Z -> fmt (bpow e).
Proof.
  intros He. replace (bpow e) with (F2R 1 e) by (unfold F2R; lra).
  apply fmt_F2R; [exact He | lia].
Qed.

Lemma Rabs_bpow_lt (e : Z) : (e < 1024)%Z -> (Rabs (bpow e) < bpow 1024)%R.
Proof.
  intros He. rewrite Rabs_pos_eq by (apply Rlt_le, bpow_gt_0).
  apply bpow_lt. exact He.
Qed.

(** Below zero the heat is 1: the quotient is not positive and the
    difference not below 1. *)
Lemma heatOf_negative (d : float) :
  finite d = true -> (B2R d < 0)%R -> heatOf d = 1.
Proof.
  intros Hd Hneg. unfold heatOf, HOT_RADIUS_METERS.
  rewrite (Math_min_le d 1200 Hd eq_refl eq_refl)
    by (rewrite B2R_1200; lra).
  pose proof (div_rounds d 1200 Hd eq_refl) as Hq. rewrite B2R_1200 in Hq.
  specialize (Hq ltac:(lra)).
  destruct (B2R_fmt d) as [_ Hbig].
  pose proof (bpow_gt_0 1014) as Hp.
  assert (bpow 1024 = bpow 1014 * 1024)%R as E1024.
  { replace 1024%Z with (1014 + 10)%Z at 1 by lia.
    rewrite bpow_add, (bpow_IZR 10) by lia. reflexivity. }
  apply Rabs_def2 in Hbig.
  apply (rounds_float _ _ (- bpow 1014)%R 0%R) in Hq as (Fq & Bq & _);
    [ | apply fmt_opp, fmt_bpow; rewrite emin_eq; lia | apply fmt_0
      | rewrite Rabs_Ropp; apply Rabs_bpow_lt; lia
      | rewrite Rabs_R0; apply bpow_gt_0 | lra ].
  pose proof (sub_rounds 1 (d / 1200) eq_refl Fq) as Hr. rewrite B2R_1 in Hr.
  assert (bpow 1015 = bpow 1014 * 2)%R as E1015.
  { replace 1015%Z with (1014 + 1)%Z by lia. rewrite bpow_succ. lra. }
  assert (1 <= bpow 1014)%R as Hone
    by (rewrite <- bpow_0; apply bpow_le; lia).
  apply (rounds_float _ _ 1%R (bpow 1015)) in Hr as (Fr & Br & _);
    [ | rewrite <- B2R_1; apply B2R_fmt | apply fmt_bpow; rewrite emin_eq; lia
      | rewrite <- B2R_1; apply B2R_fmt | apply Rabs_bpow_lt; lia | lra ].
  rewrite (Math_min_le 1 (1 - d / 1200) eq_refl Fr)
    by (try (apply is_zero_false_B2R; [exact Fr | lra]); rewrite ?B2R_1; lra).
  reflexivity.
Qed.

(** The heat of every distance that is a number lies in [0, 1]. *)
Lemma heatOf_range (d : float) :
  is_nan d = false ->
  finite (heatOf d) = true /\ (0 <= B2R (heatOf d) <= 1)%R.
Proof.
  intros Hnan.
  assert (finite 0 = true /\ (0 <= B2R 0 <= 1)%R) as H0
    by (split; [reflexivity | rewrite B2R_0; lra]).
  assert (finite 1 = true /\ (0 <= B2R 1 <= 1)%R) as H1
    by (split; [reflexivity | rewrite B2R_1; lra]).
  destruct (float_kinds d) as [-> | [-> | [-> | Hd]]];
    [discriminate Hnan | exact H0 | exact H1 |].
  destruct (Rlt_le_dec (B2R d) 0) as [Hneg | Hpos];
    [rewrite (heatOf_negative d Hd Hneg); exact H1|].
  destruct (Rle_lt_dec (B2R d) 1200) as [Hle | Hgt].
  - destruct (heatOf_near d Hd (conj Hpos Hle))
      as (_ & _ & _ & _ & Br & _ & Fh & Vh).
    split; [exact Fh | rewrite Vh; exact Br].
  - rewrite heatOf_far; [exact H0|].
    apply leb_B2R; [reflexivity | exact Hd |].
    unfold HOT_RADIUS_METERS. rewrite B2R_1200. lra.
Qed.

(** A number written as an integer literal has that integer for value. *)
Lemma B2R_integer (c : float) (N : Z) :
  c = Z2float N -> (Z.abs N <= 2 ^ 53)%Z ->
  finite c = true /\ B2R c = IZR N.
Proof. intros -> HN. apply Z2float_spec, HN. Qed.

Ltac integer_constant c N F V :=
  destruct (B2R_integer c N ltac:(vm_compute; reflexivity) ltac:(lia))
    as [F V].

Lemma IZR_between (n lo hi : Z) (q : R) :
  (IZR n - / 2 <= q < IZR n + / 2)%R -> (IZR lo <= q <= IZR hi)%R ->
  (lo <= n <= hi)%Z.
Proof.
  intros Hn Hq. split.
  - destruct (Z.le_gt_cases lo n) as [H|H]; [exact H|].
    assert (n + 1 <= lo)%Z as H' by lia. apply IZR_le in H'.
    rewrite plus_IZR in H'. lra.
  - destruct (Z.le_gt_cases n hi) as [H|H]; [exact H|].
    assert (hi + 1 <= n)%Z as H' by lia. apply IZR_le in H'.
    rewrite plus_IZR in H'. lra.
Qed.

(** [Math.round (a + b * t)] for integers [a], [b] and [t] in [0, 1] is
    an integer between [a] and [a + b]. *)
Lemma interpolated_integer (a b t : float) (A B : Z) :
  finite a = true -> B2R a = IZR A ->
  finite b = true -> B2R b = IZR B ->
  (Z.abs A <= 1000)%Z -> (Z.abs B <= 1000)%Z ->
  finite t = true -> (0 <= B2R t <= 1)%R ->
  exists n : Z,
    (Z.min A (A + B) <= n <= Z.max A (A + B))%Z
    /\ (IZR n - / 2 <= B2R (a + b * t) < IZR n + / 2)%R
    /\ finite (Math_round (a + b * t)) = true
    /\ B2R (Math_round (a + b * t)) = IZR n.
Proof.
  intros Fa Va Fb Vb HA HB Ft Vt.
  pose proof (mul_rounds b t Fb Ft) as Hm. rewrite Vb in Hm.
  apply (rounds_float _ _ (IZR (Z.min 0 B)) (IZR (Z.max 0 B))) in Hm
    as (Fm & Bm & _);
    [ | apply fmt_IZR; lia | apply fmt_IZR; lia
      | apply small_lt_bpow_1024; lia | apply small_lt_bpow_1024; lia | ].
  2:{ destruct (Z.le_ge_cases 0 B) as [H|H].
      - rewrite Z.min_l, Z.max_r by lia. apply IZR_le in H. nra.
      - rewrite Z.min_r, Z.max_l by lia. apply IZR_le in H. nra. }
  pose proof (add_rounds a (b * t) Fa Fm) as Hs. rewrite Va in Hs.
  apply (rounds_float _ _ (IZR (A + Z.min 0 B)) (IZR (A + Z.max 0 B))) in Hs
    as (Fs & Bs & _);
    [ | apply fmt_IZR; lia | apply fmt_IZR; lia
      | apply small_lt_bpow_1024; lia | apply small_lt_bpow_1024; lia
      | rewrite !plus_IZR; lra ].
  destruct (Math_round_spec (a + b * t) Fs) as (n & Hn & Fr & Vr).
  exists n. split; [|auto].
  pose proof (IZR_between n _ _ _ Hn Bs). lia.
Qed.

(** The radius of the marker: an integer from 6 to 12. *)
Lemma marker_radius_spec (heat : float) :
  finite heat = true -> (0 <= B2R heat <= 1)%R ->
  exists n : Z,
    (6 <= n <= 12)%Z
    /\ finite (6 + Math_round (6 * heat)) = true
    /\ B2R (6 + Math_round (6 * heat)) = IZR n
    /\ (IZR n - 6 - / 2 <= B2R (6 * heat) < IZR n - 6 + / 2)%R.
Proof.
  intros Fh Vh.
  integer_constant 6 6%Z F6 V6.
  pose proof (mul_rounds 6 heat F6 Fh) as Hm. rewrite V6 in Hm.
  apply (rounds_float _ _ (IZR 0) (IZR 6)) in Hm as (Fm & Bm & _);
    [ | apply fmt_IZR; lia | apply fmt_IZR; lia
      | apply small_lt_bpow_1024; lia | apply small_lt_bpow_1024; lia | lra ].
  destruct (Math_round_spec (6 * heat) Fm) as (n & Hn & Fr & Vr).
  pose proof (IZR_between n _ _ _ Hn Bm) as Hrange.
  pose proof (add_rounds 6 (Math_round (6 * heat)) F6 Fr) as Hs.
  rewrite V6, Vr, <- plus_IZR in Hs.
  apply rounds_exact in Hs as [Fs Vs];
    [ | apply fmt_IZR; lia | apply small_lt_bpow_1024; lia ].
  exists (6 + n)%Z. split; [lia|]. split; [exact Fs|]. split; [exact Vs|].
  rewrite plus_IZR. lra.
Qed.

(** The radius of the ring: the distance clamped to [20, 300]. *)
Lemma ring_radius_spec (d : float) :
  let ring := Math_min (Math_max 20 d) 300 in
  ((d <=? 20) = true -> ring = 20)
  /\ ((20 <=? d) = true -> (d <=? 300) = true -> ring = d)
  /\ ((300 <=? d) = true -> ring = 300).
Proof.
  integer_constant 20 20%Z F20 V20.
  integer_constant 300 300%Z F300 V300.
  assert (forall x, finite x = true -> B2R x = 20%R -> x = 20) as E20.
  { intros x Fx Vx.
    destruct (B2R_inj x 20 Fx F20) as [E | [_ E]];
      [rewrite V20; exact Vx | exact E | discriminate E]. }
  assert (forall x, finite x = true -> B2R x = 300%R -> x = 300) as E300.
  { intros x Fx Vx.
    destruct (B2R_inj x 300 Fx F300) as [E | [_ E]];
      [rewrite V300; exact Vx | exact E | discriminate E]. }
  assert (forall x, finite x = true ->
                    Math_max 20 x = if x <? 20 then 20 else x) as Hmax.
  { intros x Fx. unfold Math_max. rewrite (finite_is_nan x Fx). reflexivity. }
  assert (forall x, finite x = true ->
                    Math_min x 300 = if x <? 300 then x else 300) as Hmin.
  { intros x Fx. unfold Math_min. rewrite (finite_is_nan x Fx).
    cbn [orb]. change (is_zero 300) with false. rewrite andb_false_r.
    reflexivity. }
  intros ring. subst ring. split; [|split].
  - intros Hle.
    destruct (geb_cases 20 d F20 Hle) as [[Fd Vd] | ->]; [|reflexivity].
    rewrite (Hmax d Fd). rewrite V20 in Vd.
    destruct (d <? 20) eqn:E; [reflexivity|].
    apply (ltb_false_B2R d 20 Fd F20) in E. rewrite V20 in E.
    rewrite (E20 d Fd) by lra. reflexivity.
  - intros Hlo Hhi.
    pose proof (leb_finite 20 d 300 F20 F300 Hlo Hhi) as Fd.
    apply (leb_B2R 20 d F20 Fd) in Hlo. apply (leb_B2R d 300 Fd F300) in Hhi.
    rewrite V20 in Hlo. rewrite V300 in Hhi.
    rewrite (Hmax d Fd).
    rewrite (proj2 (ltb_false_B2R d 20 Fd F20)) by (rewrite V20; lra).
    rewrite (Hmin d Fd).
    destruct (d <? 300) eqn:E; [reflexivity|].
    apply (ltb_false_B2R d 300 Fd F300) in E. rewrite V300 in E.
    symmetry. apply (E300 d Fd). lra.
  - intros Hge.
    destruct (leb_cases 300 d F300 Hge) as [[Fd Vd] | ->]; [|reflexivity].
    rewrite V300 in Vd. rewrite (Hmax d Fd).
    rewrite (proj2 (ltb_false_B2R d 20 Fd F20)) by (rewrite V20; lra).
    rewrite (Hmin d Fd).
    rewrite (proj2 (ltb_false_B2R d 300 Fd F300)) by (rewrite V300; lra).
    reflexivity.
Qed.

(** The opacity of the ring lies between its values at heat 0 and 1. *)
Lemma ring_opacity_spec (heat : float) :
  finite heat = true -> (0 <= B2R heat <= 1)%R ->
  (0.35 <=? 0.35 + 0.5 * heat) = true
  /\ (0.35 + 0.5 * heat <=? 0.35 + 0.5) = true.
Proof.
  intros Fh Vh.
  assert (0 <= B2R 0.35 <= / 2)%R as H35.
  { split.
    - rewrite <- B2R_0. apply (leb_B2R 0 0.35); reflexivity.
    - rewrite <- B2R_half. apply (leb_B2R 0.35 0.5); reflexivity. }
  pose proof (mul_rounds 0.5 heat eq_refl Fh) as Hm. rewrite B2R_half in Hm.
  apply (rounds_float _ _ 0%R (B2R 0.5)) in Hm as (Fm & Bm & _);
    [ | apply fmt_0 | apply B2R_fmt | rewrite Rabs_R0; apply bpow_gt_0
      | apply B2R_fmt | rewrite B2R_half; lra ].
  rewrite B2R_half in Bm.
  assert (forall x, finite x = true -> (0 <= B2R x <= / 2)%R ->
                    finite (0.35 + x) = true
                    /\ (B2R 0.35 <= B2R (0.35 + x))%R
                    /\ nearest (B2R 0.35 + B2R x) (B2R (0.35 + x))) as Hadd.
  { intros x Fx Vx. pose proof (add_rounds 0.35 x eq_refl Fx) as Hs.
    apply (rounds_float _ _ (B2R 0.35) 1%R) in Hs as (Fs & Bs & Ns);
      [ | apply B2R_fmt | rewrite <- B2R_1; apply B2R_fmt | apply B2R_fmt
        | rewrite <- B2R_1; apply B2R_fmt | lra ].
    split; [exact Fs|]. split; [apply Bs | exact Ns]. }
  destruct (Hadd (0.5 * heat) Fm Bm) as (F1 & L1 & N1).
  destruct (Hadd 0.5 eq_refl ltac:(rewrite B2R_half; lra)) as (F2 & _ & N2).
  split; [apply leb_B2R; [reflexivity | exact F1 | exact L1]|].
  apply leb_B2R; [exact F1 | exact F2 |].
  destruct (Rle_lt_or_eq_dec _ _ (proj2 Bm)) as [Hlt | Heq].
  - apply (nearest_mono _ _ _ _ N1 N2). rewrite B2R_half. lra.
  - destruct (B2R_inj (0.5 * heat) 0.5 Fm eq_refl) as [E | [_ E]];
      [rewrite B2R_half; exact Heq | rewrite E; lra | discriminate E].
Qed.

Lemma lerpColor_eq (t : float) :
  lerpColor t
  = "rgb(" ++ NumberToString (Math_round (44 + 182 * t)) ++ ","
      ++ NumberToString (Math_round (152 + -77 * t)) ++ ","
      ++ NumberToString (Math_round (240 + -165 * t)) ++ ")".
Proof. reflexivity. Qed.

Lemma lerpColor_range (t : float) :
  finite t = true -> (0 <= B2R t <= 1)%R ->
  exists r g b : Z,
    (44 <= r <= 226)%Z /\ (75 <= g <= 152)%Z /\ (75 <= b <= 240)%Z
    /\ lerpColor t
       = "rgb(" ++ string_of_Z r ++ "," ++ string_of_Z g ++ ","
           ++ string_of_Z b ++ ")".
Proof.
  intros Ft Vt. rewrite lerpColor_eq.
  integer_constant 44 44%Z F44 V44.
  integer_constant 182 182%Z F182 V182.
  integer_constant 152 152%Z F152 V152.
  integer_constant (-77) (-77)%Z F77 V77.
  integer_constant 240 240%Z F240 V240.
  integer_constant (-165) (-165)%Z F165 V165.
  destruct (interpolated_integer 44 182 t 44 182 F44 V44 F182 V182
              ltac:(lia) ltac:(lia) Ft Vt) as (r & Hr & _ & Fr & Vr).
  destruct (interpolated_integer 152 (-77) t 152 (-77) F152 V152 F77 V77
              ltac:(lia) ltac:(lia) Ft Vt) as (g & Hg & _ & Fg & Vg).
  destruct (interpolated_integer 240 (-165) t 240 (-165) F240 V240 F165 V165
              ltac:(lia) ltac:(lia) Ft Vt) as (b & Hb & _ & Fb & Vb).
  exists r, g, b.
  split; [lia|]. split; [lia|]. split; [lia|].
  rewrite (NumberToString_integer _ r Fr Vr) by lia.
  rewrite (NumberToString_integer _ g Fg Vg) by lia.
  rewrite (NumberToString_integer _ b Fb Vb) by lia.
  reflexivity.
Qed.

(** Each channel is the integer nearest to the value of its expression. *)
Lemma lerpColor_nearest (t : float) :
  finite t = true -> (0 <= B2R t <= 1)%R ->
  exists r g b : Z,
    lerpColor t
    = "rgb(" ++ string_of_Z r ++ "," ++ string_of_Z g ++ ","
        ++ string_of_Z b ++ ")"
    /\ (IZR r - / 2 <= B2R (44 + (226 - 44) * t) < IZR r + / 2)%R
    /\ (IZR g - / 2 <= B2R (152 + (75 - 152) * t) < IZR g + / 2)%R
    /\ (IZR b - / 2 <= B2R (240 + (75 - 240) * t) < IZR b + / 2)%R
    /\ (44 <= r <= 226)%Z /\ (75 <= g <= 152)%Z /\ (75 <= b <= 240)%Z.
Proof.
  intros Ft Vt. rewrite lerpColor_eq.
  integer_constant 44 44%Z F44 V44.
  integer_constant 182 182%Z F182 V182.
  integer_constant 152 152%Z F152 V152.
  integer_constant (-77) (-77)%Z F77 V77.
  integer_constant 240 240%Z F240 V240.
  integer_constant (-165) (-165)%Z F165 V165.
  destruct (interpolated_integer 44 182 t 44 182 F44 V44 F182 V182
              ltac:(lia) ltac:(lia) Ft Vt) as (r & Hr & Nr & Fr & Vr).
  destruct (interpolated_integer 152 (-77) t 152 (-77) F152 V152 F77 V77
              ltac:(lia) ltac:(lia) Ft Vt) as (g & Hg & Ng & Fg & Vg).
  destruct (interpolated_integer 240 (-165) t 240 (-165) F240 V240 F165 V165
              ltac:(lia) ltac:(lia) Ft Vt) as (b & Hb & Nb & Fb & Vb).
  exists r, g, b.
  rewrite (NumberToString_integer _ r Fr Vr) by lia.
  rewrite (NumberToString_integer _ g Fg Vg) by lia.
  rewrite (NumberToString_integer _ b Fb Vb) by lia.
  split; [reflexivity|].
  split; [exact Nr|]. split; [exact Ng|]. split; [exact Nb|].
  split; [lia|]. split; lia.
Qed.

(** *** The start offset *)

Lemma randBetween_range (random min max : float) :
  finite random = true -> (0 <= B2R random <= 1)%R ->
  finite min = true -> finite max = true ->
  finite (max - min) = true ->
  B2R (max - min) = (B2R max - B2R min)%R -> (B2R min <= B2R max)%R ->
  finite (randBetween random min max) = true
  /\ (B2R min <= B2R (randBetween random min max) <= B2R max)%R.
Proof.
  intros Fr Vr Fmin Fmax Fspan Vspan Hle. unfold randBetween.
  pose proof (mul_rounds random (max - min) Fr Fspan) as Hm.
  apply (rounds_float _ _ 0%R (B2R (max - min))) in Hm as (Fm & Bm & _);
    [ | apply fmt_0 | apply B2R_fmt | rewrite Rabs_R0; apply bpow_gt_0
      | apply B2R_fmt | rewrite Vspan; nra ].
  pose proof (add_rounds _ min Fm Fmin) as Hs.
  apply (rounds_float _ _ (B2R min) (B2R max)) in Hs as (Fs & Bs & _);
    [ | apply B2R_fmt | apply B2R_fmt | apply B2R_fmt | apply B2R_fmt
      | rewrite Vspan in Bm; lra ].
  split; assumption.
Qed.

Lemma unit_interval (r : float) :
  (0 <=? r) = true -> (r <? 1) = true ->
  finite r = true /\ (0 <= B2R r <= 1)%R.
Proof.
  intros H0 H1.
  destruct (leb_cases 0 r eq_refl H0) as [[Fr Vr] | ->]; [|discriminate H1].
  apply (ltb_B2R r 1 Fr eq_refl) in H1. rewrite B2R_0 in Vr.
  rewrite B2R_1 in H1. split; [exact Fr | lra].
Qed.

Lemma B2R_twice (c c2 : float) (m : positive) (e : Z) :
  Prim2SF c = S754_finite false m e ->
  Prim2SF c2 = S754_finite false m (e + 1) ->
  B2R c2 = (B2R c + B2R c)%R.
Proof.
  intros E1 E2. unfold B2R. rewrite E1, E2. cbn [SF2R signed].
  unfold F2R. rewrite bpow_succ. lra.
Qed.

(** *** Coordinates that are not finite *)

Lemma mul_finite_inv (x y : float) :
  finite (x * y) = true -> finite x = true /\ finite y = true.
Proof.
  unfold finite. rewrite mul_spec.
  destruct (Prim2SF x) as [| | |], (Prim2SF y) as [| | |];
    cbn; auto; discriminate.
Qed.

Lemma div_finite_inv (x y : float) :
  finite (x / y) = true -> finite x = true.
Proof.
  unfold finite. rewrite div_spec.
  destruct (Prim2SF x) as [| | |], (Prim2SF y) as [| | |];
    cbn; auto; discriminate.
Qed.

Lemma add_nan_l (y : float) : nan + y = nan.
Proof.
  apply Prim2SF_inj. rewrite add_spec.
  change (Prim2SF nan) with S754_nan. reflexivity.
Qed.

Lemma add_nan_r (x : float) : x + nan = nan.
Proof.
  apply Prim2SF_inj. rewrite add_spec.
  change (Prim2SF nan) with S754_nan. destruct (Prim2SF x); reflexivity.
Qed.

Lemma mul_nan_r (x : float) : x * nan = nan.
Proof.
  apply Prim2SF_inj. rewrite mul_spec.
  change (Prim2SF nan) with S754_nan. destruct (Prim2SF x); reflexivity.
Qed.

Lemma ltb_nan_l (x : float) : (nan <? x) = false.
Proof.
  rewrite FloatAxioms.ltb_spec. change (Prim2SF nan) with S754_nan.
  reflexivity.
Qed.

Lemma ltb_nan_r (x : float) : (x <? nan) = false.
Proof.
  rewrite FloatAxioms.ltb_spec. change (Prim2SF nan) with S754_nan.
  destruct (Prim2SF x); reflexivity.
Qed.

(** *** Negation and [formatDeg] *)

Lemma append_assoc (a b c : string) : (a ++ b) ++ c = a ++ (b ++ c).
Proof.
  induction a as [|ch a IH]; [reflexivity|].
  change (String ch ((a ++ b) ++ c) = String ch (a ++ (b ++ c))).
  rewrite IH. reflexivity.
Qed.

Lemma abs_opp (x : float) : Math_abs (- x) = Math_abs x.
Proof.
  unfold Math_abs. apply Prim2SF_inj. rewrite !abs_spec, opp_spec.
  destruct (Prim2SF x); reflexivity.
Qed.

Lemma negative_of_positive (x : float) :
  (0 <? x) = true -> (- x <? 0) = true /\ (x <? 0) = false.
Proof.
  rewrite !FloatAxioms.ltb_spec, opp_spec.
  change (Prim2SF 0) with (S754_zero false).
  destruct (Prim2SF x) as [s|s| |s m e]; try discriminate;
    destruct s; try discriminate; split; reflexivity.
Qed.

(** Rounding a real in [0, 64] to the format moves it by [2^-47] at
    most. *)
Lemma nearest_error_below_64 (x m : R) :
  nearest x m -> (0 <= x <= 64)%R -> (Rabs (x - m) <= bpow (-47))%R.
Proof.
  intros [_ Hn] Hx.
  pose proof (bpow_gt_0 47) as H47. pose proof (bpow_gt_0 (-47)) as Hm47.
  assert (bpow 47 * bpow (-47) = 1)%R as Hinv
    by (rewrite <- bpow_add; apply bpow_0).
  set (r := (x * bpow 47)%R).
  destruct (archimed r) as [Hup1 Hup2].
  set (k := (up r - 1)%Z).
  assert (IZR k <= r < IZR k + 1)%R as Hk
    by (unfold k; rewrite minus_IZR; lra).
  assert (0 <= k <= 2 ^ 53)%Z as Hrange.
  { assert (0 <= r <= 64 * bpow 47)%R as Hr by (unfold r; nra).
    replace (64 * bpow 47)%R with (IZR (2 ^ 53)) in Hr
      by (rewrite (bpow_IZR 47), <- mult_IZR by lia; reflexivity).
    split.
    - destruct (Z.le_gt_cases 0 k) as [H|H]; [exact H|].
      assert (k + 1 <= 0)%Z as H' by lia. apply IZR_le in H'.
      rewrite plus_IZR in H'. lra.
    - apply le_IZR. lra. }
  assert (fmt (F2R k (-47))) as Hfmt
    by (apply fmt_F2R; [rewrite emin_eq; lia | lia]).
  eapply Rle_trans; [apply (Hn _ Hfmt)|].
  assert (x = r * bpow (-47))%R as Ex by (unfold r; nra).
  unfold F2R. rewrite Ex. apply Rabs_le. split; nra.
Qed.

(** *** The drawing of a guess within the reveal radius *)

Lemma B2R_15_16 : B2R 0.9375 = (15 / 16)%R.
Proof.
  float_const 0.9375%float.
  change 8444249301319680%Z with (15 * 2 ^ 49)%Z.
  rewrite F2R_reduce by lia. unfold F2R, bpow. simpl. lra.
Qed.

Lemma heatOf_found (d : float) :
  (d <=? 20) = true ->
  finite (heatOf d) = true /\ (15 / 16 <= B2R (heatOf d) <= 1)%R.
Proof.
  intros Hd.
  assert (finite 1 = true /\ (15 / 16 <= B2R 1 <= 1)%R) as H1
    by (split; [reflexivity | rewrite B2R_1; lra]).
  integer_constant 20 20%Z F20 V20.
  destruct (geb_cases 20 d F20 Hd) as [[Fd Vd] | ->]; [|exact H1].
  destruct (Rlt_le_dec (B2R d) 0) as [Hneg | Hpos];
    [rewrite (heatOf_negative d Fd Hneg); exact H1|].
  assert ((0 <=? d) = true) as H0
    by (apply leb_B2R; [reflexivity | exact Fd | rewrite B2R_0; exact Hpos]).
  pose proof (heatOf_monotone d 20 H0 Hd) as Hmono.
  destruct (heatOf_range d (finite_is_nan d Fd)) as [Fh [_ Vh]].
  split; [exact Fh|]. split; [|exact Vh].
  apply (leb_B2R (heatOf 20) (heatOf d) eq_refl Fh) in Hmono.
  assert (B2R 0.9375 <= B2R (heatOf 20))%R as Hc
    by (apply (leb_B2R 0.9375 (heatOf 20)); reflexivity).
  rewrite B2R_15_16 in Hc. lra.
Qed.

Lemma marker_radius_found (d : float) :
  (d <=? 20) = true -> 6 + Math_round (6 * heatOf d) = 12.
Proof.
  intros Hd. destruct (heatOf_found d Hd) as [Fh Vh].
  destruct (marker_radius_spec (heatOf d) Fh ltac:(lra))
    as (n & Hn & Fr & Vr & Hround).
  integer_constant 6 6%Z F6 V6.
  integer_constant 12 12%Z F12 V12.
  pose proof (mul_rounds 6 (heatOf d) F6 Fh) as Hm. rewrite V6 in Hm.
  assert (fmt (11 / 2)) as Hfmt.
  { replace (11 / 2)%R with (F2R 11 (-1)) by (unfold F2R, bpow; simpl; lra).
    apply fmt_F2R; [rewrite emin_eq; lia | lia]. }
  apply (rounds_float _ _ (11 / 2)%R (IZR 6)) in Hm as (_ & Bm & _);
    [ | exact Hfmt | apply fmt_IZR; lia
      | apply Rle_lt_trans with (Rabs (IZR 6));
          [rewrite !Rabs_pos_eq; lra | apply small_lt_bpow_1024; lia]
      | apply small_lt_bpow_1024; lia | lra ].
  assert (n = 12)%Z as ->.
  { destruct (Z.le_gt_cases 12 n) as [H|H]; [lia|].
    assert (n <= 11)%Z as H' by lia. apply IZR_le in H'. lra. }
  destruct (B2R_inj _ 12 Fr F12) as [E | [_ E]];
    [rewrite V12; exact Vr | exact E | discriminate E].
Qed.

(** *** Distances that are not numbers *)

Lemma is_nan_true (x : float) : is_nan x = true -> x = nan.
Proof.
  intros H. destruct (float_kinds x) as [E | [-> | [-> | Hf]]];
    [exact E | discriminate H | discriminate H |].
  rewrite (finite_is_nan x Hf) in H. discriminate H.
Qed.

Lemma is_nan_not_finite (x : float) : is_nan x = true -> finite x = false.
Proof. intros H. rewrite (is_nan_true x H). reflexivity. Qed.

(** The radius of the ring is a number exactly when the distance is. *)
Lemma ring_radius_nan (d : float) :
  is_nan (Math_min (Math_max 20 d) 300) = is_nan d.
Proof.
  destruct (is_nan d) eqn:Hd.
  - rewrite (is_nan_true d Hd). reflexivity.
  - assert (is_nan (Math_max 20 d) = false) as Hm.
    { unfold Math_max. rewrite Hd. cbn [orb].
      change (is_zero 20) with false. cbn [andb].
      destruct (d <? 20); [reflexivity | exact Hd]. }
    unfold Math_min. rewrite Hm. cbn [orb].
    change (is_zero 300) with false. rewrite andb_false_r.
    destruct (Math_max 20 d <? 300); [exact Hm | reflexivity].
Qed.

Section NotFinite.

Context (sin_approx cos_approx : float -> float).
Context (atan2_approx : float -> float -> float).

Abbreviation Math_sin := (App.Math_sin sin_approx).
Abbreviation distanceMeters := (App.distanceMeters sin_approx cos_approx atan2_approx).

Lemma half_angle_sine_not_finite (u : float) :
  finite u = false -> Math_sin (toRad u / 2) = nan.
Proof.
  intros Hu.
  assert (finite (toRad u / 2) = false) as Hh.
  { destruct (finite (toRad u / 2)) eqn:E; [|reflexivity].
    apply div_finite_inv in E. unfold toRad in E.
    apply div_finite_inv in E. apply mul_finite_inv in E as [E _].
    congruence. }
  destruct (float_kinds (toRad u / 2)) as [-> | [-> | [-> | Hf]]];
    try reflexivity.
  congruence.
Qed.

Lemma sub_not_finite (x y : float) :
  finite x && finite y = false -> finite (y - x) = false.
Proof.
  intros H. destruct (finite (y - x)) eqn:E; [|reflexivity].
  apply sub_finite_inv in E as [E1 E2]. rewrite E1, E2 in H. discriminate H.
Qed.

Lemma distanceMeters_not_finite (a b : LatLng) :
  finite (lat a) && finite (lng a) && finite (lat b) && finite (lng b)
  = false ->
  distanceMeters a b = nan.
Proof.
  intros H. unfold App.distanceMeters. cbv zeta.
  destruct (finite (lat a) && finite (lat b)) eqn:Hlat.
  - assert (finite (lng a) && finite (lng b) = false) as Hlng.
    { apply andb_prop in Hlat as [E1 E2]. rewrite E1, E2 in H.
      destruct (finite (lng a)), (finite (lng b)); try discriminate H;
        reflexivity. }
    rewrite (half_angle_sine_not_finite _ (sub_not_finite _ _ Hlng)).
    rewrite !mul_nan_r, add_nan_r. reflexivity.
  - rewrite (half_angle_sine_not_finite (lat b - lat a)
               (sub_not_finite _ _ Hlat)).
    change (nan * nan) with nan. rewrite add_nan_l. reflexivity.
Qed.

(** A distance that is a number is the distance of two points whose
    coordinates are numbers. *)
Lemma distance_number_of_numbers (a b : LatLng) :
  is_nan (distanceMeters a b) = false ->
  is_nan (lat a) || is_nan (lng a) = false.
Proof.
  intros Hd.
  destruct (is_nan (lat a)) eqn:E1; [|destruct (is_nan (lng a)) eqn:E2];
    try reflexivity; exfalso.
  - rewrite distanceMeters_not_finite in Hd; [discriminate Hd|].
    rewrite (is_nan_not_finite _ E1). reflexivity.
  - rewrite distanceMeters_not_finite in Hd; [discriminate Hd|].
    rewrite (is_nan_not_finite _ E2).
    destruct (finite (lat a)); reflexivity.
Qed.

End NotFinite.
Example toFixed_samples :
  (toFixed 6.4689999999999 3, toFixed 42.5685 3, toFixed 0 3,
   toFixed 59.9996 3, toFixed 1.0005 3, toFixed 0.0004 3,
   toFixed 1234.5678 3, toFixed 0.0405 3, toFixed 2.5 0)
  = ("6.469", "42.569", "0.000", "60.000", "1.000", "0.000",
     "1234.568", "0.041", "3").
Proof. vm_compute. reflexivity. Qed.

Example NumberToString_samples :
  (NumberToString 32, NumberToString (-226), NumberToString 0.5,
   NumberToString 1e21, NumberToString (0.1 + 0.2), NumberToString nan)
  = ("32", "-226", "0.5", "1e+21", "0.30000000000000004", "NaN").
Proof. vm_compute. reflexivity. Qed.

Example Math_round_samples :
  (Math_round 2.5, Math_round (-2.5), Math_round 0.49999999999999994,
   Math_round 225.6, Math_floor 32.709466666666664, Math_floor (-2.5))
  = (3, -2, 0, 226, 32, -3).
Proof. vm_compute. reflexivity. Qed.


(* ================================================================== *)
(** ** Guess handling and target replacement: the state they leave *)
(* ================================================================== *)

Section Guessing.

Context (V : ViewModel).
Context (sin_approx cos_approx : float -> float).
Context (atan2_approx : float -> float -> float).

Abbreviation distanceMeters := (App.distanceMeters sin_approx cos_approx atan2_approx).
Abbreviation onMapClick := (App.onMapClick V sin_approx cos_approx atan2_approx).
Abbreviation onKeyDown := (App.onKeyDown V sin_approx cos_approx atan2_approx).
Abbreviation setTarget := (App.setTarget V).
Abbreviation initial_state := (App.initial_state V).
Abbreviation guess_state' := (guess_state V sin_approx cos_approx atan2_approx).
Abbreviation guess_marked' := (guess_marked sin_approx cos_approx atan2_approx).
Abbreviation guess_popup' := (guess_popup sin_approx cos_approx atan2_approx).
Abbreviation step := (App.step V sin_approx cos_approx atan2_approx).
Abbreviation run := (App.run V sin_approx cos_approx atan2_approx).
Abbreviation reachable := (App.reachable V sin_approx cos_approx atan2_approx).

(** *** [setTarget] *)

Lemma setTarget_not_numeric (lat lng opts : Js.Value) (s : State) :
  Js.typeof lat <> "number" \/ Js.typeof lng <> "number" ->
  setTarget lat lng opts s =
  Normal tt
    {| TARGET := TARGET s;
       START_OFFSET := START_OFFSET s;
       lastMarker := lastMarker s;
       lastCircle := lastCircle s;
       prevDistance := prevDistance s;
       map := map s;
       console := console s ++ "setTarget requires numeric lat and lng" :: nil |}.
Proof.
  intros [H | H]; destruct lat, lng; try (exfalso; apply H; reflexivity);
    reflexivity.
Qed.

Lemma setTarget_no_options (x y : float) (s : State) :
  setTarget (Js.Number x) (Js.Number y) Js.Undefined s =
  Normal tt
    {| TARGET := {| lat := x; lng := y |};
       START_OFFSET := START_OFFSET s;
       lastMarker := None;
       lastCircle := None;
       prevDistance := None;
       map := mkMap (cleared_layers s) (lastId (map s)) (center (map s))
                (zoom (map s)) (popup (map s));
       console := console s |}.
Proof.
  destruct s as [tg off mk ci pd [ls li ce zo po] co].
  unfold App.setTarget, cleared_layers, bind, gets; cbn.
  destruct mk, ci; reflexivity.
Qed.

(** However the call ends, the bindings are replaced and cleared before
    anything can throw; the view may have moved, and a debug marker may
    have been added under a fresh stamp. *)
Lemma setTarget_numeric (x y : float) (opts : Js.Value) (s : State) :
  let s' := final_state (setTarget (Js.Number x) (Js.Number y) opts s) in
  TARGET s' = {| lat := x; lng := y |}
  /\ START_OFFSET s' = START_OFFSET s
  /\ lastMarker s' = None
  /\ lastCircle s' = None
  /\ prevDistance s' = None
  /\ console s' = console s
  /\ ((layers (map s') = cleared_layers s /\ lastId (map s') = lastId (map s))
      \/ (layers (map s')
            = <[Pos.succ (lastId (map s)) := Marker {| lat := x; lng := y |}]>
                (cleared_layers s)
          /\ lastId (map s') = Pos.succ (lastId (map s)))).
Proof.
  destruct s as [tg off mk ci pd [ls li ce zo po] co].
  unfold App.setTarget, cleared_layers, bind, gets, lift, try_on_map,
    setView, Leaflet.marker, toLatLng; cbn.
  destruct opts as [| |b|n|str|props]; cbn;
    destruct mk, ci; cbn;
    repeat match goal with
           | |- context [if ?c then _ else _] => destruct c; cbn
           end;
    repeat split; auto.
Qed.

(** *** [onMapClick] *)

Lemma onMapClick_eq (e : LatLng) (s : State) :
  onMapClick e s =
  if is_nan (lat e) || is_nan (lng e)
  then Throw (invalid_LatLng e) (guess_rejected s)
  else if is_nan (distanceMeters e (TARGET s))
       then Throw (Js.PlainError "Circle radius cannot be NaN")
              (guess_marked' e s)
       else Normal tt (guess_state' e s).
Proof.
  destruct e as [elat elng], s as [tg off mk ci pd [ls li ce zo po] co].
  unfold App.onMapClick, guess_state, guess_map, guess_marked, guess_rejected,
    guess_popup, cleared_layers, bind, gets, lift, remove_if_set,
    Leaflet.circleMarker, Leaflet.circle, popupAt, toLatLng.
  cbn [lat lng TARGET lastMarker lastCircle prevDistance map].
  set (d := App.distanceMeters sin_approx cos_approx atan2_approx
              {| lat := elat; lng := elng |} tg).
  rewrite (ring_radius_nan d).
  destruct (is_nan elat || is_nan elng); [destruct mk, ci; reflexivity|].
  destruct (is_nan d); destruct mk, ci; reflexivity.
Qed.

Lemma onMapClick_returns (e : LatLng) (s : State) :
  is_nan (distanceMeters e (TARGET s)) = false ->
  onMapClick e s = Normal tt (guess_state' e s).
Proof.
  intros Hd. rewrite onMapClick_eq.
  rewrite (distance_number_of_numbers _ _ _ _ _ Hd), Hd. reflexivity.
Qed.

(** A guess throws exactly when its distance is not a number; the popup
    and the previous distance are then the ones of before. *)
Lemma onMapClick_throws (e : LatLng) (s : State) :
  is_nan (distanceMeters e (TARGET s)) = true ->
  exists err s',
    onMapClick e s = Throw err s'
    /\ popup (map s') = popup (map s)
    /\ center (map s') = center (map s)
    /\ zoom (map s') = zoom (map s)
    /\ prevDistance s' = prevDistance s
    /\ TARGET s' = TARGET s
    /\ START_OFFSET s' = START_OFFSET s
    /\ lastCircle s' = lastCircle s
    /\ console s' = console s
    /\ (is_nan (lat e) || is_nan (lng e) = false ->
        err = Js.PlainError "Circle radius cannot be NaN"
        /\ s' = guess_marked' e s).
Proof.
  intros Hd. rewrite onMapClick_eq, Hd.
  destruct (is_nan (lat e) || is_nan (lng e)); do 2 eexists;
    (split; [reflexivity|]); repeat split; discriminate.
Qed.

Lemma onMapClick_shown (e : LatLng) (s : State) :
  let d := distanceMeters e (TARGET s) in
  is_nan d = false ->
  shown (final_state (onMapClick e s))
  = popupContent (chooseTitle d (heatOf d) (prevDistance s))
      (popupBody d (TARGET s)).
Proof. intros d Hd. rewrite (onMapClick_returns e s Hd). reflexivity. Qed.

Lemma step_guess (e : LatLng) (s : State) :
  is_nan (distanceMeters e (TARGET s)) = false ->
  step s (Guess e) = guess_state' e s.
Proof.
  intros Hd. unfold App.step, handle. rewrite (onMapClick_returns e s Hd).
  reflexivity.
Qed.

(** The three ways a guess can end. *)
Lemma step_guess_cases (e : LatLng) (s : State) :
  step s (Guess e) = guess_rejected s
  \/ step s (Guess e) = guess_marked' e s
  \/ step s (Guess e) = guess_state' e s.
Proof.
  unfold App.step, handle. rewrite onMapClick_eq.
  destruct (is_nan (lat e) || is_nan (lng e)); [left; reflexivity|].
  destruct (is_nan (distanceMeters e (TARGET s)));
    [right; left | right; right]; reflexivity.
Qed.

Lemma step_key (key : string) (s : State) :
  step s (KeyDown key)
  = if String.eqb key "Enter" then step s (Guess (center (map s))) else s.
Proof.
  unfold App.step, handle, App.onKeyDown.
  destruct (String.eqb key "Enter"); reflexivity.
Qed.

Lemma step_setTarget_cases (lat lng opts : Js.Value) (s : State) :
  (exists x y, lat = Js.Number x /\ lng = Js.Number y)
  \/ step s (SetTarget lat lng opts)
     = {| TARGET := TARGET s; START_OFFSET := START_OFFSET s;
          lastMarker := lastMarker s; lastCircle := lastCircle s;
          prevDistance := prevDistance s; map := map s;
          console := console s
                     ++ "setTarget requires numeric lat and lng" :: nil |}.
Proof.
  destruct lat as [| | |x| |], lng as [| | |y| |];
    try (right; reflexivity).
  left. eauto.
Qed.

Lemma reachable_run (s : State) (evs : list Event) :
  reachable s -> reachable (run s evs).
Proof.
  revert s. induction evs as [|ev evs IH]; intros s Hs; [exact Hs|].
  cbn. apply IH. apply reachable_step. exact Hs.
Qed.

(** *** Invariants of the reachable states *)








Lemma in_step_console (s : State) (msgs : list string) :
  in_step s ->
  in_step {| TARGET := TARGET s; START_OFFSET := START_OFFSET s;
             lastMarker := lastMarker s; lastCircle := lastCircle s;
             prevDistance := prevDistance s; map := map s;
             console := msgs |}.
Proof. intros H. exact H. Qed.


Lemma initial_state_eq (random1 random2 : float) :
  layers (map (initial_state random1 random2))
  = <[2%positive := TileLayer tiles]> ∅
  /\ lastId (map (initial_state random1 random2)) = 2%positive
  /\ popup (map (initial_state random1 random2)) = None
  /\ lastMarker (initial_state random1 random2) = None
  /\ lastCircle (initial_state random1 random2) = None
  /\ prevDistance (initial_state random1 random2) = None
  /\ TARGET (initial_state random1 random2) = initial_TARGET
  /\ START_OFFSET (initial_state random1 random2)
     = randomOffset random1 random2
  /\ console (initial_state random1 random2) = nil.
Proof.
  unfold App.initial_state, setView. cbn.
  destruct (toLatLng _); repeat split; reflexivity.
Qed.


(* ================================================================== *)
(** ** The claims about guesses and targets *)
(* ================================================================== *)

(** C6: a call of [setTarget] whose [lat] or [lng] is not of type number
    returns normally (it does not throw, whatever the options are), logs
    one warning, and leaves the target, the previous distance, the marker
    and ring references and the whole map as they were. *)
Theorem setTarget_rejects_non_numbers (lat lng opts : Js.Value) (s : State) :
  Js.typeof lat <> "number" \/ Js.typeof lng <> "number" ->
  exists s',
    setTarget lat lng opts s = Normal tt s'
    /\ console s' = (console s ++ "setTarget requires numeric lat and lng" :: nil)%list
    /\ TARGET s' = TARGET s
    /\ prevDistance s' = prevDistance s
    /\ lastMarker s' = lastMarker s
    /\ lastCircle s' = lastCircle s
    /\ map s' = map s
    /\ START_OFFSET s' = START_OFFSET s.
Proof.
  intros H. rewrite (setTarget_not_numeric lat lng opts s H).
  eexists. split; [reflexivity|]. cbn. repeat split.
Qed.

(** C10: NaN has type number, so [setTarget] does not reject it: the
    target becomes the NaN-carrying coordinate, and the previous distance
    and the marker and ring are cleared, by the same state update as for
    any other pair of numbers. *)
Theorem setTarget_accepts_NaN (x y : float) (s : State) :
  is_nan x = true \/ is_nan y = true ->
  Js.typeof (Js.Number x) = "number"
  /\ Js.typeof (Js.Number y) = "number"
  /\ setTarget (Js.Number x) (Js.Number y) Js.Undefined s =
     Normal tt
       {| TARGET := {| lat := x; lng := y |};
          START_OFFSET := START_OFFSET s;
          lastMarker := None;
          lastCircle := None;
          prevDistance := None;
          map := mkMap (cleared_layers s) (lastId (map s)) (center (map s))
                   (zoom (map s)) (popup (map s));
          console := console s |}.
Proof.
  intros _. repeat split. apply setTarget_no_options.
Qed.

(** C1, as the code has it: the label of a guess is the string FOUND!
    (with the exclamation mark) if and only if its distance [d] to the
    current target satisfies [d <= 20], whatever the previous distance
    is.  When the distance is a number the guess shows its popup, which
    carries, after the label, the target's formatted coordinates exactly
    when [d <= 20]; when the distance is not a number, [d <= 20] is
    false, the guess throws and the popup is left as it was. *)
Theorem found_iff_within_reveal_radius (e : LatLng) (s : State) :
  let d := distanceMeters e (TARGET s) in
  let title := chooseTitle d (heatOf d) (prevDistance s) in
  let s' := final_state (onMapClick e s) in
  (title = "FOUND!" <-> (d <=? 20) = true)
  /\ (is_nan d = false ->
      shown s' =
      if d <=? 20
      then "<strong>FOUND!</strong><div style=" ++ dquote
             ++ "margin-top:6px;white-space:pre-line" ++ dquote ++ ">"
             ++ ("Coordinates: N " ++ formatDeg (lat (TARGET s))
                   ++ "  E " ++ formatDeg (lng (TARGET s)))
             ++ "</div>"
      else "<strong>" ++ title ++ "</strong>")
  /\ (is_nan d = true ->
      (d <=? 20) = false
      /\ exists err, onMapClick e s = Throw err s'
      /\ popup (map s') = popup (map s)).
Proof.
  intros d title s'. split; [|split].
  - subst title. unfold chooseTitle, FOUND_RADIUS_METERS.
    destruct (d <=? 20); [tauto|].
    split; [|discriminate].
    destruct (prevDistance s);
      repeat match goal with
             | |- context [if ?c then _ else _] => destruct c
             end; discriminate.
  - intros Hd. subst s'. rewrite (onMapClick_shown e s Hd). fold d. fold title.
    assert ((d <=? 20) = true -> title = "FOUND!") as Hfound.
    { intros Hle. subst title. unfold chooseTitle, FOUND_RADIUS_METERS.
      now rewrite Hle. }
    clearbody title. clearbody d.
    unfold popupBody, FOUND_RADIUS_METERS.
    generalize (formatDeg (lat (TARGET s))) (formatDeg (lng (TARGET s))).
    intros N E.
    destruct (d <=? 20); [rewrite Hfound by reflexivity|]; reflexivity.
  - intros Hd. split.
    + rewrite (is_nan_true d Hd). reflexivity.
    + destruct (onMapClick_throws e s Hd) as (err & s1 & E & Hp & _).
      subst s'. rewrite E. exists err. split; [reflexivity | exact Hp].
Qed.

(** C4: every guess that completes, a found one included, is labelled
    from the previous distance held before the call, and leaves its own
    distance [d] as the previous distance.  A guess completes exactly
    when its distance is a number; otherwise it throws before the
    update, and the previous distance and the popup stay as they were. *)
Theorem guess_uses_old_distance_then_stores_new (e : LatLng) (s : State) :
  let d := distanceMeters e (TARGET s) in
  (is_nan d = false ->
   exists s',
     onMapClick e s = Normal tt s'
     /\ shown s' = popupContent (chooseTitle d (heatOf d) (prevDistance s))
                     (popupBody d (TARGET s))
     /\ prevDistance s' = Some d)
  /\ (is_nan d = true ->
      exists err s',
        onMapClick e s = Throw err s'
        /\ prevDistance s' = prevDistance s
        /\ popup (map s') = popup (map s)).
Proof.
  intros d. split; intros Hd.
  - rewrite (onMapClick_returns e s Hd). eexists. split; [reflexivity|].
    split; reflexivity.
  - destruct (onMapClick_throws e s Hd) as (err & s' & E & Hp & _ & _ & Hpd & _).
    exists err, s'. auto.
Qed.

(** C8: on a guess whose distance is a number the marker's fill and the
    ring are drawn in [lerpColor heat], with the heat in [0, 1]; for
    such a [t] each channel of [lerpColor t] is the integer nearest to
    [cold + (hot - cold) * t], between the cold colour (44,152,240),
    that is #2c98f0, and the hot colour (226,75,75), that is #e24b4b;
    at [t = 0] it is the cold colour and at [t = 1] the hot colour. *)
Theorem color_is_linear_interpolation :
  (forall (e : LatLng) (s : State),
      let d := distanceMeters e (TARGET s) in
      let s' := final_state (onMapClick e s) in
      is_nan d = false ->
      (exists m c r1 r2 o,
          lastMarker s' = Some m /\ lastCircle s' = Some c
          /\ layers (map s') !! m
             = Some (CircleMarker e r1 (lerpColor (heatOf d)) "#fff" 2 0.95)
          /\ layers (map s') !! c
             = Some (Circle e r2 (lerpColor (heatOf d)) 1.4 o false))
      /\ finite (heatOf d) = true /\ (0 <= B2R (heatOf d) <= 1)%R)
  /\ (forall t,
         lerpColor t =
         "rgb(" ++ NumberToString (Math_round (44 + (226 - 44) * t))
           ++ "," ++ NumberToString (Math_round (152 + (75 - 152) * t))
           ++ "," ++ NumberToString (Math_round (240 + (75 - 240) * t))
           ++ ")")
  /\ (forall t,
         finite t = true -> (0 <= B2R t <= 1)%R ->
         exists r g b : Z,
           lerpColor t
           = "rgb(" ++ string_of_Z r ++ "," ++ string_of_Z g ++ ","
               ++ string_of_Z b ++ ")"
           /\ (IZR r - / 2 <= B2R (44 + (226 - 44) * t) < IZR r + / 2)%R
           /\ (IZR g - / 2 <= B2R (152 + (75 - 152) * t) < IZR g + / 2)%R
           /\ (IZR b - / 2 <= B2R (240 + (75 - 240) * t) < IZR b + / 2)%R
           /\ (44 <= r <= 226)%Z /\ (75 <= g <= 152)%Z /\ (75 <= b <= 240)%Z)
  /\ lerpColor 0 = "rgb(44,152,240)"
  /\ lerpColor 1 = "rgb(226,75,75)".
Proof.
  split; [|split; [reflexivity | split; [exact lerpColor_nearest | split;
                                        vm_compute; reflexivity]]].
  intros e s d s' Hd. split; [|exact (heatOf_range d Hd)].
  subst s'. rewrite (onMapClick_returns e s Hd). cbn.
  do 5 eexists. split; [reflexivity|]. split; [reflexivity|].
  split.
  - rewrite lookup_insert_ne by lia. rewrite lookup_insert_eq. reflexivity.
  - rewrite lookup_insert_eq. reflexivity.
Qed.


End Guessing.

Lemma setTarget_rejects_non_numbers_witness :
  let s := initial_state exact_view 0.25 0.75 in
  (Js.typeof (Js.Number 32.71) <> "number"
   \/ Js.typeof (Js.Str "35.11") <> "number")
  /\ exists s',
      setTarget exact_view (Js.Number 32.71) (Js.Str "35.11") Js.Undefined s
      = Normal tt s'
      /\ console s' = (console s ++ "setTarget requires numeric lat and lng" :: nil)%list
      /\ TARGET s' = TARGET s
      /\ prevDistance s' = prevDistance s
      /\ lastMarker s' = lastMarker s
      /\ lastCircle s' = lastCircle s
      /\ map s' = map s
      /\ START_OFFSET s' = START_OFFSET s.
Proof.
  assert (Js.typeof (Js.Number 32.71) <> "number"
          \/ Js.typeof (Js.Str "35.11") <> "number") as H
    by (right; discriminate).
  split; [exact H|].
  exact (setTarget_rejects_non_numbers exact_view _ _ _ _ H).
Defined.

Lemma setTarget_accepts_NaN_witness :
  let s := initial_state exact_view 0.25 0.75 in
  (is_nan nan = true \/ is_nan 35.11 = true)
  /\ TARGET (final_state (setTarget exact_view (Js.Number nan)
                            (Js.Number 35.11) Js.Undefined s))
     = {| lat := nan; lng := 35.11 |}.
Proof.
  assert (is_nan nan = true \/ is_nan 35.11 = true) as H
    by (left; reflexivity).
  split; [exact H|].
  destruct (setTarget_accepts_NaN exact_view nan 35.11
              (initial_state exact_view 0.25 0.75) H)
    as (_ & _ & ->).
  reflexivity.
Defined.

(** C1 as stated does not hold: a guess at distance 0 is within the
    reveal radius, and its label is the string FOUND! with an exclamation
    mark, which differs from the string FOUND. *)
Lemma found_label_has_exclamation_mark :
  (0 <=? 20) = true
  /\ chooseTitle 0 (heatOf 0) None = "FOUND!"
  /\ String.eqb (chooseTitle 0 (heatOf 0) None) "FOUND" = false.
Proof. vm_compute. repeat split. Qed.

(** The colour at the two ends of the scale. *)
Lemma lerpColor_cold : lerpColor 0 = "rgb(44,152,240)".
Proof. vm_compute. reflexivity. Qed.

Lemma lerpColor_hot : lerpColor 1 = "rgb(226,75,75)".
Proof. vm_compute. reflexivity. Qed.

Lemma guess_uses_old_distance_then_stores_new_witness :
  exists s',
    App.onMapClick exact_view sin1 cos1 atan2_1 {| lat := 32.7; lng := 35.1 |}
      (initial_state exact_view 0.25 0.75)
    = Normal tt s'
    /\ prevDistance s'
       = Some (App.distanceMeters sin1 cos1 atan2_1
                 {| lat := 32.7; lng := 35.1 |}
                 (TARGET (initial_state exact_view 0.25 0.75))).
Proof.
  destruct (proj1 (guess_uses_old_distance_then_stores_new exact_view
                     sin1 cos1 atan2_1 {| lat := 32.7; lng := 35.1 |}
                     (initial_state exact_view 0.25 0.75)) eq_refl)
    as (s' & H1 & _ & H2).
  exists s'. split; assumption.
Defined.



(* ================================================================== *)
(** ** Further properties of [setTarget] *)
(* ================================================================== *)


Section Retargeting.

Context (V : ViewModel).

Abbreviation setTarget := (App.setTarget V).

(** X1: [setTarget] with two numbers and [null] for the options throws a
    TypeError when it reads [opts.recenter], after the target has been
    replaced and the marker, the ring and the previous distance have
    been cleared; the view, the popup and the console are untouched. *)
Theorem setTarget_null_options_throws (x y : float) (s : State) :
  exists s',
    setTarget (Js.Number x) (Js.Number y) Js.Null s
    = Throw (Js.TypeError "Cannot read properties of null") s'
    /\ TARGET s' = {| lat := x; lng := y |}
    /\ lastMarker s' = None /\ lastCircle s' = None
    /\ prevDistance s' = None
    /\ layers (map s') = cleared_layers s
    /\ center (map s') = center (map s)
    /\ zoom (map s') = zoom (map s)
    /\ popup (map s') = popup (map s)
    /\ console s' = console s.
Proof.
  destruct s as [tg off mk ci pd [ls li ce zo po] co].
  unfold App.setTarget, cleared_layers, bind, gets, lift; cbn.
  destruct mk, ci; cbn; eexists; repeat split; reflexivity.
Qed.

(** The state once the bindings are replaced and cleared. *)
Lemma setTarget_cleared (x y : float) (s : State) :
  final_state (setTarget (Js.Number x) (Js.Number y) Js.Undefined s)
  = {| TARGET := {| lat := x; lng := y |};
       START_OFFSET := START_OFFSET s;
       lastMarker := None;
       lastCircle := None;
       prevDistance := None;
       map := mkMap (cleared_layers s) (lastId (map s)) (center (map s))
                (zoom (map s)) (popup (map s));
       console := console s |}.
Proof. rewrite setTarget_no_options. reflexivity. Qed.

(** [setTarget] with an options object whose [debug] is falsy: the
    call is the two-argument call, followed by the [setView] that
    [recenter] asks for, if any. *)
Lemma setTarget_without_debug
  (x y : float) (props : list (string * Js.Value)) (s : State) :
  Js.truthy (Js.assoc "debug" props) = false ->
  let s0 := final_state
              (setTarget (Js.Number x) (Js.Number y) Js.Undefined s) in
  let recenter := Js.assoc "recenter" props in
  let z := Js.or_else (Js.assoc "zoom" props) (zoom (map s)) in
  let moved (c : LatLng) :=
    if is_nan (lat c) || is_nan (lng c)
    then Throw (invalid_LatLng c) s0
    else Normal tt
           {| TARGET := TARGET s0; START_OFFSET := START_OFFSET s0;
              lastMarker := None; lastCircle := None; prevDistance := None;
              map := with_view (settle V c z (view (map s0))) (map s0);
              console := console s0 |} in
  setTarget (Js.Number x) (Js.Number y) (Js.Object props) s
  = if Js.is_true recenter
    then moved {| lat := x + lat (START_OFFSET s);
                  lng := y + lng (START_OFFSET s) |}
    else if Js.is_string "center" recenter
         then moved {| lat := x; lng := y |}
         else Normal tt s0.
Proof.
  intros Hdebug. cbv zeta. rewrite setTarget_cleared.
  destruct s as [tg off mk ci pd [ls li ce zo po] co].
  unfold App.setTarget, cleared_layers, bind, gets, lift, try_on_map,
    setView, toLatLng; cbn.
  rewrite Hdebug.
  destruct mk, ci; cbn;
    destruct (Js.is_true (Js.assoc "recenter" props)); cbn;
    try (destruct (is_nan (x + lat off) || is_nan (y + lng off)); cbn;
         reflexivity);
    destruct (Js.is_string "center" (Js.assoc "recenter" props)); cbn;
    try (destruct (is_nan x || is_nan y); cbn; reflexivity);
    reflexivity.
Qed.





(** X10: [setTarget] with options that do not ask for the debug marker
    is idempotent: a second call with the same arguments changes
    nothing. *)
Theorem setTarget_twice_is_once
  (x y : float) (props : list (string * Js.Value)) (s : State) :
  Js.truthy (Js.assoc "debug" props) = false ->
  let s1 := final_state
              (setTarget (Js.Number x) (Js.Number y) (Js.Object props) s) in
  final_state (setTarget (Js.Number x) (Js.Number y) (Js.Object props) s1)
  = s1.
Proof.
  intros Hdebug.
  assert (forall c z v, (settle V c (if Js.truthy z then z
                                     else (settle V c (if Js.truthy z then z else v.2) v).2)
                           (settle V c (if Js.truthy z then z else v.2) v))
                        = settle V c (if Js.truthy z then z else v.2) v)
    as Hview.
  { intros c z v. destruct (Js.truthy z); [apply settle_again|].
    rewrite settle_zoom. apply settle_again. }
  cbv zeta.
  rewrite !(setTarget_without_debug x y props _ Hdebug). cbv zeta.
  rewrite !setTarget_cleared. unfold Js.or_else.
  destruct s as [tg off mk ci pd [ls li ce zo po] co].
  destruct (Js.is_true (Js.assoc "recenter" props)); cbn.
  - destruct (is_nan (x + lat off) || is_nan (y + lng off)) eqn:E; cbn;
      rewrite ?E; cbn; [reflexivity|].
    unfold with_view, view, cleared_layers; cbn.
    pose proof (Hview {| lat := x + lat off; lng := y + lng off |}
                  (Js.assoc "zoom" props) (ce, zo)) as Hv. cbn in Hv.
    rewrite <- !surjective_pairing, Hv. reflexivity.
  - destruct (Js.is_string "center" (Js.assoc "recenter" props)); cbn;
      [|reflexivity].
    destruct (is_nan x || is_nan y) eqn:E; cbn; rewrite ?E; cbn;
      [reflexivity|].
    unfold with_view, view, cleared_layers; cbn.
    pose proof (Hview {| lat := x; lng := y |}
                  (Js.assoc "zoom" props) (ce, zo)) as Hv. cbn in Hv.
    rewrite <- !surjective_pairing, Hv. reflexivity.
Qed.

End Retargeting.


Lemma setTarget_twice_is_once_witness :
  final_state
    (App.setTarget exact_view (Js.Number 10) (Js.Number 20)
       (Js.Object (("recenter", Js.Boolean true) :: nil))
       (final_state
          (App.setTarget exact_view (Js.Number 10) (Js.Number 20)
             (Js.Object (("recenter", Js.Boolean true) :: nil))
             (initial_state exact_view 0.25 0.75))))
  = final_state
      (App.setTarget exact_view (Js.Number 10) (Js.Number 20)
         (Js.Object (("recenter", Js.Boolean true) :: nil))
         (initial_state exact_view 0.25 0.75)).
Proof.
  exact (setTarget_twice_is_once exact_view 10 20
           (("recenter", Js.Boolean true) :: nil)
           (initial_state exact_view 0.25 0.75) eq_refl).
Defined.

(* ================================================================== *)
(** ** Runs of events: what every reachable state satisfies *)
(* ================================================================== *)


Section Runs.

Context (V : ViewModel).
Context (sin_approx cos_approx : float -> float).
Context (atan2_approx : float -> float -> float).

Abbreviation distanceMeters := (App.distanceMeters sin_approx cos_approx atan2_approx).
Abbreviation onMapClick := (App.onMapClick V sin_approx cos_approx atan2_approx).
Abbreviation onKeyDown := (App.onKeyDown V sin_approx cos_approx atan2_approx).
Abbreviation initial_state := (App.initial_state V).
Abbreviation step := (App.step V sin_approx cos_approx atan2_approx).
Abbreviation run := (App.run V sin_approx cos_approx atan2_approx).
Abbreviation reachable := (App.reachable V sin_approx cos_approx atan2_approx).




(** X6: the start offset never changes, and the target changes only
    through a call of [setTarget] with two numbers: over a run without
    such a call it stays what it was. *)
Theorem target_changes_only_by_setTarget (s : State) (evs : list Event) :
  START_OFFSET (run s evs) = START_OFFSET s
  /\ (forallb (fun ev => negb (is_retarget ev)) evs = true ->
      TARGET (run s evs) = TARGET s).
Proof.
  revert s. induction evs as [|ev evs IH]; intros s; [split; reflexivity|].
  cbn [App.run fold_left forallb].
  change (fold_left step evs (step s ev)) with (run (step s ev) evs).
  destruct (IH (step s ev)) as [IHo IHt].
  assert (forall e, START_OFFSET (step s (Guess e)) = START_OFFSET s
                    /\ TARGET (step s (Guess e)) = TARGET s) as Hguess.
  { intros e.
    destruct (step_guess_cases V sin_approx cos_approx atan2_approx e s)
      as [-> | [-> | ->]]; split; reflexivity. }
  assert (START_OFFSET (step s ev) = START_OFFSET s
          /\ (is_retarget ev = false -> TARGET (step s ev) = TARGET s))
    as [Ho Ht].
  { destruct ev as [e | key | lat lng opts].
    - split; [|intros _]; apply Hguess.
    - rewrite step_key.
      destruct (String.eqb key "Enter"); [|split; reflexivity].
      split; [|intros _]; apply Hguess.
    - destruct (step_setTarget_cases V sin_approx cos_approx atan2_approx
                  lat lng opts s)
        as [(x & y & -> & ->) | ->]; [|split; reflexivity].
      split; [|discriminate].
      unfold App.step, handle.
      pose proof (setTarget_numeric V x y opts s) as H. cbv zeta in H.
      apply H. }
  split; [rewrite IHo; exact Ho|].
  intros Hall. apply andb_prop in Hall as [Hev Hall].
  apply negb_true_iff in Hev. rewrite (IHt Hall). exact (Ht Hev).
Qed.

End Runs.


Lemma target_changes_only_by_setTarget_witness :
  TARGET (App.run exact_view sin1 cos1 atan2_1
            (App.initial_state exact_view 0.25 0.75)
            (Guess {| lat := 32.5; lng := 35 |}
             :: KeyDown "Enter"
             :: SetTarget (Js.Str "32.5") (Js.Number 35) Js.Undefined
             :: nil))
  = initial_TARGET.
Proof.
  exact (proj2 (target_changes_only_by_setTarget exact_view sin1 cos1 atan2_1
                  (App.initial_state exact_view 0.25 0.75)
                  (Guess {| lat := 32.5; lng := 35 |}
                   :: KeyDown "Enter"
                   :: SetTarget (Js.Str "32.5") (Js.Number 35) Js.Undefined
                   :: nil)) eq_refl).
Defined.

(* ================================================================== *)
(** ** Guesses repeated, the Enter key and the touch listener *)
(* ================================================================== *)

(** No number is below itself minus a half, or above itself plus a half:
    the comparison of a distance with itself is never Warmer or Colder. *)
Lemma chooseTitle_same_distance (d heat : float) :
  chooseTitle d heat (Some d)
  = if d <=? FOUND_RADIUS_METERS then "FOUND!" else "Same".
Proof.
  unfold chooseTitle, FOUND_RADIUS_METERS.
  destruct (d <=? 20) eqn:Hd; [reflexivity|].
  destruct (float_kinds d) as [-> | [-> | [-> | Hf]]];
    [reflexivity | reflexivity | discriminate Hd |].
  assert ((20 <? d) = true) as Hlt.
  { apply ltb_B2R; [reflexivity | exact Hf |].
    apply (leb_false_B2R d 20 Hf eq_refl). exact Hd. }
  destruct (sub_self d Hf) as [Fz Vz].
  assert ((Math_abs (d - d) <=? 0.5) = true) as Habs.
  { apply leb_B2R; [rewrite abs_finite; exact Fz | reflexivity |].
    rewrite B2R_abs, Vz, Rabs_R0, B2R_half. lra. }
  destruct (same_band d d Hlt Habs) as [-> ->]. reflexivity.
Qed.

Section Repeats.

Context (V : ViewModel).
Context (sin_approx cos_approx : float -> float).
Context (atan2_approx : float -> float -> float).
Context (mouseEventToContainerPoint : Map -> Touch -> Js.Error + Point).
Context (containerPointToLatLng : Map -> Point -> Js.Error + LatLng).

Abbreviation distanceMeters := (App.distanceMeters sin_approx cos_approx atan2_approx).
Abbreviation onMapClick := (App.onMapClick V sin_approx cos_approx atan2_approx).
Abbreviation onKeyDown := (App.onKeyDown V sin_approx cos_approx atan2_approx).
Abbreviation step := (App.step V sin_approx cos_approx atan2_approx).

(** A guess whose distance is not a number leaves the popup, the target
    and the previous distance as they were. *)
Lemma step_guess_thrown (e : LatLng) (s : State) :
  is_nan (distanceMeters e (TARGET s)) = true ->
  exists err,
    onMapClick e s = Throw err (step s (Guess e))
    /\ popup (map (step s (Guess e))) = popup (map s)
    /\ prevDistance (step s (Guess e)) = prevDistance s
    /\ TARGET (step s (Guess e)) = TARGET s
    /\ console (step s (Guess e)) = console s.
Proof.
  intros Hd.
  destruct (onMapClick_throws V _ _ _ e s Hd)
    as (err & s' & E & Hp & _ & _ & Hprev & Ht & _ & _ & Hc & _).
  exists err. unfold App.step, handle. rewrite E. cbn [final_state].
  repeat split; assumption.
Qed.

(** X7: a guess repeated at the same place, the target unchanged in
    between, is never answered Warmer or Colder: when the distance is a
    number, infinite or not, the second popup reads FOUND! within the
    reveal radius and Same otherwise; when the distance is not a number
    both guesses throw and the popup stays what it was before them. *)
Theorem repeated_guess_is_same (e : LatLng) (s : State) :
  let d := distanceMeters e (TARGET s) in
  (is_nan d = false ->
   shown (step (step s (Guess e)) (Guess e))
   = popupContent (if d <=? 20 then "FOUND!" else "Same")
       (popupBody d (TARGET s)))
  /\ (is_nan d = true ->
      shown (step (step s (Guess e)) (Guess e)) = shown s).
Proof.
  intros d. split; intros Hd.
  - rewrite (step_guess V _ _ _ e s Hd).
    rewrite (step_guess V _ _ _ e
               (guess_state V sin_approx cos_approx atan2_approx e s) Hd).
    unfold shown. cbn. fold d.
    rewrite chooseTitle_same_distance. reflexivity.
  - destruct (step_guess_thrown e s Hd) as (_ & _ & Hp & _ & Ht & _).
    assert (is_nan (distanceMeters e (TARGET (step s (Guess e)))) = true)
      as Hd' by (rewrite Ht; exact Hd).
    destruct (step_guess_thrown e _ Hd') as (_ & _ & Hp' & _).
    unfold shown. rewrite Hp', Hp. reflexivity.
Qed.

(** X8: the key listener reacts to the key named Enter only (any other
    key, a lower-case enter included, changes nothing); Enter is a guess
    at the centre of the view, returning or throwing as that guess does;
    when the distance from the centre to the target is a number, the
    popup of the guess is opened at that centre. *)
Theorem enter_key_guesses_at_the_centre (key : string) (s : State) :
  (key <> "Enter" -> onKeyDown key s = Normal tt s)
  /\ onKeyDown "Enter" s = onMapClick (center (map s)) s
  /\ step s (KeyDown "Enter") = step s (Guess (center (map s)))
  /\ let d := distanceMeters (center (map s)) (TARGET s) in
     is_nan d = false ->
     popup (map (step s (KeyDown "Enter")))
     = Some (mkPopup (center (map s))
               (popupContent (chooseTitle d (heatOf d) (prevDistance s))
                  (popupBody d (TARGET s)))).
Proof.
  split.
  { intros Hk. unfold App.onKeyDown.
    destruct (String.eqb_spec key "Enter"); [contradiction | reflexivity]. }
  split; [reflexivity|]. split; [reflexivity|].
  intros d Hd.
  change (step s (KeyDown "Enter")) with (step s (Guess (center (map s)))).
  rewrite (step_guess V _ _ _ _ s Hd). reflexivity.
Qed.

(** X9: the touch listener never throws.  Without a touch point it does
    nothing; when one of the two conversions of the first touch point
    throws, the error is caught: one warning is logged and nothing else
    changes; when both succeed it is a guess at the converted position,
    and since the guess is inside the same try block, a guess that
    throws is caught as well and logged as a failed conversion, after
    what it did to the drawing. *)
Theorem touch_listener_never_throws
  (changedTouches : option (list Touch)) (s : State) :
  exists s',
    onTouchEnd V sin_approx cos_approx atan2_approx
      mouseEventToContainerPoint containerPointToLatLng changedTouches s
    = Normal tt s'
    /\ match changedTouches with
       | Some (t :: _) =>
           match mouseEventToContainerPoint (map s) t with
           | inr p =>
               match containerPointToLatLng (map s) p with
               | inr latlng =>
                   match onMapClick latlng s with
                   | Normal _ s1 => s' = s1
                   | Throw err s1 =>
                       s1 = step s (Guess latlng)
                       /\ s' = final_state
                                 (console_warn
                                    ("touchend conversion failed "
                                     ++ error_text err) s1)
                       /\ TARGET s' = TARGET s
                       /\ popup (map s') = popup (map s)
                       /\ prevDistance s' = prevDistance s
                   end
               | inl err =>
                   s' = final_state
                          (console_warn
                             ("touchend conversion failed " ++ error_text err)
                             s)
                   /\ TARGET s' = TARGET s /\ map s' = map s
                   /\ prevDistance s' = prevDistance s
               end
           | inl err =>
               s' = final_state
                      (console_warn
                         ("touchend conversion failed " ++ error_text err) s)
               /\ TARGET s' = TARGET s /\ map s' = map s
               /\ prevDistance s' = prevDistance s
           end
       | _ => s' = s
       end.
Proof.
  unfold onTouchEnd.
  destruct changedTouches as [[|t rest]|];
    try (exists s; split; reflexivity).
  unfold try_catch, bind, gets, lift.
  destruct (mouseEventToContainerPoint (map s) t) as [err | p].
  { eexists. split; [reflexivity|]. repeat split. }
  destruct (containerPointToLatLng (map s) p) as [err | latlng].
  { eexists. split; [reflexivity|]. repeat split. }
  unfold App.step, handle.
  rewrite onMapClick_eq.
  destruct (is_nan (lat latlng) || is_nan (lng latlng));
    [|destruct (is_nan (distanceMeters latlng (TARGET s)))];
    eexists; (split; [reflexivity|]); repeat split.
Qed.

End Repeats.

(* ================================================================== *)
(** ** What a guess draws, the start offset, and odd coordinates *)
(* ================================================================== *)

(** X11: for a heat between 0 and 1, [lerpColor] is a well-formed CSS
    colour whose channels are integers between those of the cold and
    the hot colour: red in 44..226, green in 75..152, blue in 75..240. *)
Theorem lerpColor_is_between_cold_and_hot (t : float) :
  (0 <=? t) = true -> (t <=? 1) = true ->
  exists r g b : Z,
    (44 <= r <= 226)%Z /\ (75 <= g <= 152)%Z /\ (75 <= b <= 240)%Z
    /\ lerpColor t
       = "rgb(" ++ string_of_Z r ++ "," ++ string_of_Z g ++ ","
           ++ string_of_Z b ++ ")".
Proof.
  intros H0 H1.
  pose proof (leb_finite 0 t 1 eq_refl eq_refl H0 H1) as Ft.
  apply (leb_B2R 0 t eq_refl Ft) in H0. apply (leb_B2R t 1 Ft eq_refl) in H1.
  rewrite B2R_0 in H0. rewrite B2R_1 in H1.
  apply lerpColor_range; [exact Ft | lra].
Qed.

Lemma lerpColor_is_between_cold_and_hot_witness :
  exists r g b : Z,
    (44 <= r <= 226)%Z /\ (75 <= g <= 152)%Z /\ (75 <= b <= 240)%Z
    /\ lerpColor 0.4
       = "rgb(" ++ string_of_Z r ++ "," ++ string_of_Z g ++ ","
           ++ string_of_Z b ++ ")".
Proof. exact (lerpColor_is_between_cold_and_hot 0.4 eq_refl eq_refl). Defined.

Section StartUp.

Context (V : ViewModel).

Abbreviation initial_state := (App.initial_state V).

(** X14: with the two draws of [Math.random] in [0, 1), the start
    offset is within 0.6 degrees of latitude and 1.2 degrees of
    longitude, both bounds included; the first view is centred on the
    target moved by this offset, and the offset is what [setTarget]
    later uses to recentre. *)
Theorem randomOffset_range (random1 random2 : float) :
  (0 <=? random1) = true -> (random1 <? 1) = true ->
  (0 <=? random2) = true -> (random2 <? 1) = true ->
  (-0.6 <=? lat (randomOffset random1 random2)) = true
  /\ (lat (randomOffset random1 random2) <=? 0.6) = true
  /\ (-1.2 <=? lng (randomOffset random1 random2)) = true
  /\ (lng (randomOffset random1 random2) <=? 1.2) = true
  /\ START_OFFSET (initial_state random1 random2)
     = randomOffset random1 random2
  /\ center (map (initial_state random1 random2))
     = {| lat := lat initial_TARGET + lat (randomOffset random1 random2);
          lng := lng initial_TARGET + lng (randomOffset random1 random2) |}.
Proof.
  intros H1 H1' H2 H2'.
  destruct (unit_interval random1 H1 H1') as [F1 V1].
  destruct (unit_interval random2 H2 H2') as [F2 V2].
  assert (B2R 1.2 = B2R 0.6 + B2R 0.6)%R as E12
    by (apply (B2R_twice 0.6 1.2 5404319552844595 (-53)); reflexivity).
  assert (B2R 2.4 = B2R 1.2 + B2R 1.2)%R as E24
    by (apply (B2R_twice 1.2 2.4 5404319552844595 (-52)); reflexivity).
  assert (0 <= B2R 0.6)%R as P06
    by (rewrite <- B2R_0; apply (leb_B2R 0 0.6); reflexivity).
  assert (B2R (-0.6) = - B2R 0.6)%R as N06 by apply (B2R_opp 0.6).
  assert (B2R (-1.2) = - B2R 1.2)%R as N12 by apply (B2R_opp 1.2).
  destruct (randBetween_range random1 (-0.6) 0.6 F1 V1 eq_refl eq_refl eq_refl)
    as [Fa [La Ua]];
    [change (0.6 - -0.6) with 1.2; lra | lra |].
  destruct (randBetween_range random2 (-1.2) 1.2 F2 V2 eq_refl eq_refl eq_refl)
    as [Fo [Lo Uo]];
    [change (1.2 - -1.2) with 2.4; lra | lra |].
  cbn [randomOffset lat lng].
  split; [apply leb_B2R; [reflexivity | exact Fa | exact La]|].
  split; [apply leb_B2R; [exact Fa | reflexivity | exact Ua]|].
  split; [apply leb_B2R; [reflexivity | exact Fo | exact Lo]|].
  split; [apply leb_B2R; [exact Fo | reflexivity | exact Uo]|].
  split; [apply (initial_state_eq V)|].
  unfold App.initial_state, setView, toLatLng, with_view, view. cbn.
  destruct (is_nan _ || is_nan _); [reflexivity|]. cbn.
  exact (f_equal fst (settle_current V (_, Js.Number START_ZOOM))).
Qed.

End StartUp.



Lemma randomOffset_range_witness :
  (-0.6 <=? lat (randomOffset 0.25 0.99)) = true
  /\ (lat (randomOffset 0.25 0.99) <=? 0.6) = true
  /\ (-1.2 <=? lng (randomOffset 0.25 0.99)) = true
  /\ (lng (randomOffset 0.25 0.99) <=? 1.2) = true.
Proof.
  destruct (randomOffset_range exact_view 0.25 0.99 eq_refl eq_refl eq_refl eq_refl)
    as (H1 & H2 & H3 & H4 & _).
  auto.
Defined.

(** X17: for a positive value, finite or not, the formatter prints the
    negated value as the value itself followed by W/S: a southern
    latitude and a western longitude of the same magnitude are printed
    alike. *)
Theorem formatDeg_negated (v : float) :
  (0 <? v) = true -> formatDeg (- v) = formatDeg v ++ "W/S".
Proof.
  intros Hv. destruct (negative_of_positive v Hv) as [Hn Hp].
  unfold formatDeg. rewrite abs_opp, Hn, Hp.
  rewrite !append_assoc. reflexivity.
Qed.

Lemma formatDeg_negated_witness :
  formatDeg (- 35.10781666666667) = formatDeg 35.10781666666667 ++ "W/S".
Proof. exact (formatDeg_negated 35.10781666666667 eq_refl). Defined.

(** X18: for a finite value below [2^53] in magnitude, the degrees [D]
    and the thousandths of minutes [n] that the formatter prints give
    the value back: the printed minutes differ from the minutes of the
    value, [(|v| - D) * 60], by half a thousandth plus [2^-47] at most. *)
Theorem formatDeg_accuracy (v : float) :
  finite v = true -> (Math_abs v <? 9007199254740992) = true ->
  exists (D n : Z) (suffix : string),
    formatDeg v
    = string_of_Z D ++ "° "
        ++ (string_of_Z (n / 1000) ++ "." ++ fraction_digits (n mod 1000) 3)
        ++ "'" ++ suffix
    /\ (0 <= D)%Z /\ (0 <= n <= 60000)%Z
    /\ (Rabs ((Rabs (B2R v) - IZR D) * 60 - IZR n / 1000)
        <= / 2000 + bpow (-47))%R.
Proof.
  intros Hv Hsmall.
  assert (finite (Math_abs v) = true) as Ha by (rewrite abs_finite; exact Hv).
  apply ltb_B2R in Hsmall; [|exact Ha|reflexivity].
  rewrite B2R_2p53 in Hsmall.
  assert (0 <= B2R (Math_abs v))%R as Hpos
    by (rewrite B2R_abs; apply Rabs_pos).
  destruct (Math_floor_spec (Math_abs v) Ha (conj Hpos Hsmall))
    as (D & HD & Hbounds & Ff & Vf & Hfmt).
  destruct (minutes_spec (Math_abs v) D Ha Ff Vf Hbounds Hfmt)
    as (Fm & Bm & Nm).
  set (minutes := (Math_abs v - Math_floor (Math_abs v)) * 60) in *.
  destruct (toFixed_spec minutes 3 Fm) as (n & Hn & Hstr).
  { split; [apply Bm|]. apply Rle_lt_trans with 60%R; [apply Bm|].
    apply IZR_lt. reflexivity. }
  change (IZR (10 ^ Z.of_nat 3)) with 1000%R in Hn.
  rewrite B2R_abs in *.
  pose proof (nearest_error_below_64 _ _ Nm ltac:(lra)) as Herr.
  exists D, n, (if v <? 0 then "W/S" else "").
  split.
  { unfold formatDeg. fold minutes. rewrite Hstr.
    rewrite (NumberToString_integer _ D Ff Vf HD). reflexivity. }
  split; [lia|].
  split.
  { apply (IZR_between n 0 60000 (1000 * B2R minutes)); [exact Hn | lra]. }
  pose proof (bpow_gt_0 (-47)) as H47.
  apply Rabs_le_inv in Herr. apply Rabs_le. split; lra.
Qed.

Lemma formatDeg_accuracy_witness :
  exists (D n : Z) (suffix : string),
    formatDeg 32.709466666666664
    = string_of_Z D ++ "° "
        ++ (string_of_Z (n / 1000) ++ "." ++ fraction_digits (n mod 1000) 3)
        ++ "'" ++ suffix
    /\ (0 <= D)%Z /\ (0 <= n <= 60000)%Z
    /\ (Rabs ((Rabs (B2R 32.709466666666664) - IZR D) * 60 - IZR n / 1000)
        <= / 2000 + bpow (-47))%R.
Proof. exact (formatDeg_accuracy 32.709466666666664 eq_refl eq_refl). Defined.

Lemma leb_nan_l (x y : float) : is_nan x = true -> (x <=? y) = false.
Proof.
  intros H. rewrite (is_nan_true x H), FloatAxioms.leb_spec.
  change (Prim2SF nan) with S754_nan. reflexivity.
Qed.

Lemma leb_number_l (x y : float) : (x <=? y) = true -> is_nan x = false.
Proof.
  intros H. destruct (is_nan x) eqn:E; [|reflexivity].
  rewrite (leb_nan_l x y E) in H. discriminate H.
Qed.

Lemma leb_number_r (x y : float) : (x <=? y) = true -> is_nan y = false.
Proof.
  intros H. destruct (is_nan y) eqn:E; [|reflexivity].
  rewrite (leb_nan_r x y E) in H. discriminate H.
Qed.

Section Drawing.

Context (V : ViewModel).
Context (sin_approx cos_approx : float -> float).
Context (atan2_approx : float -> float -> float).

Abbreviation Math_sin := (App.Math_sin sin_approx).
Abbreviation distanceMeters := (App.distanceMeters sin_approx cos_approx atan2_approx).
Abbreviation onMapClick := (App.onMapClick V sin_approx cos_approx atan2_approx).
Abbreviation step := (App.step V sin_approx cos_approx atan2_approx).

Lemma guess_layers (e : LatLng) (s : State) :
  let d := distanceMeters e (TARGET s) in
  let heat := heatOf d in
  is_nan d = false ->
  layers (map (step s (Guess e))) !! Pos.succ (lastId (map s))
  = Some (CircleMarker e (6 + Math_round (6 * heat)) (lerpColor heat)
            "#fff" 2 0.95)
  /\ layers (map (step s (Guess e))) !! Pos.succ (Pos.succ (lastId (map s)))
     = Some (Circle e (Math_min (Math_max 20 d) 300) (lerpColor heat) 1.4
               (0.35 + 0.5 * heat) false).
Proof.
  intros d heat Hd. rewrite (step_guess V _ _ _ e s Hd). cbn. split.
  - rewrite lookup_insert_ne by lia. apply lookup_insert_eq.
  - apply lookup_insert_eq.
Qed.

(** X12: whenever the distance of a guess is a number, the marker drawn
    at the guess has a whole radius from 6 to 12 and the ring around it
    has the distance for radius, clamped to 20..300 m; the opacity of
    the ring is between 0.35 and 0.35 + 0.5, and both carry the same
    colour, with channels between the cold and the hot colour. *)
Theorem guess_draws_marker_and_ring (e : LatLng) (s : State) :
  is_nan (distanceMeters e (TARGET s)) = false ->
  let d := distanceMeters e (TARGET s) in
  exists (n r g b : Z) (radius ring opacity : float) (color : string),
    layers (map (step s (Guess e))) !! Pos.succ (lastId (map s))
    = Some (CircleMarker e radius color "#fff" 2 0.95)
    /\ layers (map (step s (Guess e))) !! Pos.succ (Pos.succ (lastId (map s)))
       = Some (Circle e ring color 1.4 opacity false)
    /\ finite radius = true /\ B2R radius = IZR n /\ (6 <= n <= 12)%Z
    /\ ((d <=? 20) = true -> ring = 20)
    /\ ((20 <=? d) = true -> (d <=? 300) = true -> ring = d)
    /\ ((300 <=? d) = true -> ring = 300)
    /\ (0.35 <=? opacity) = true /\ (opacity <=? 0.35 + 0.5) = true
    /\ color = "rgb(" ++ string_of_Z r ++ "," ++ string_of_Z g ++ ","
                 ++ string_of_Z b ++ ")"
    /\ (44 <= r <= 226)%Z /\ (75 <= g <= 152)%Z /\ (75 <= b <= 240)%Z.
Proof.
  intros Hnan d.
  destruct (guess_layers e s Hnan) as [Hm Hr]. fold d in Hm, Hr.
  destruct (heatOf_range d Hnan) as [Fh Vh].
  destruct (marker_radius_spec (heatOf d) Fh Vh) as (n & Hn & Fr & Vr & _).
  destruct (ring_radius_spec d) as (R1 & R2 & R3).
  destruct (ring_opacity_spec (heatOf d) Fh Vh) as [O1 O2].
  destruct (lerpColor_range (heatOf d) Fh Vh) as (r & g & b & Cr & Cg & Cb & Ec).
  exists n, r, g, b. do 4 eexists.
  split; [exact Hm|]. split; [exact Hr|].
  split; [exact Fr|]. split; [exact Vr|]. split; [exact Hn|].
  split; [exact R1|]. split; [exact R2|]. split; [exact R3|].
  split; [exact O1|]. split; [exact O2|].
  split; [exact Ec|]. auto.
Qed.

(** X13: a guess within the reveal radius is drawn with the largest
    marker, of radius 12, and with a ring of exactly 20 m, the reveal
    radius itself. *)
Theorem found_guess_is_drawn_largest (e : LatLng) (s : State) :
  (distanceMeters e (TARGET s) <=? 20) = true ->
  let heat := heatOf (distanceMeters e (TARGET s)) in
  layers (map (step s (Guess e))) !! Pos.succ (lastId (map s))
  = Some (CircleMarker e 12 (lerpColor heat) "#fff" 2 0.95)
  /\ layers (map (step s (Guess e))) !! Pos.succ (Pos.succ (lastId (map s)))
     = Some (Circle e 20 (lerpColor heat) 1.4 (0.35 + 0.5 * heat) false).
Proof.
  intros Hd heat.
  destruct (guess_layers e s (leb_number_l _ _ Hd)) as [Hm Hr].
  rewrite (marker_radius_found _ Hd) in Hm.
  rewrite (proj1 (ring_radius_spec _) Hd) in Hr.
  split; assumption.
Qed.

(** X15: when a coordinate of either point is not finite (not a number,
    or infinite), the distance is not a number, whatever the engine's
    sine, cosine and arc tangent are. *)
Theorem distance_of_odd_coordinates_is_nan (a b : LatLng) :
  finite (lat a) && finite (lng a) && finite (lat b) && finite (lng b)
  = false ->
  distanceMeters a b = nan.
Proof. exact (distanceMeters_not_finite _ _ _ a b). Qed.

(** X16: while the target has a coordinate that is not finite (which
    [setTarget] accepts), no guess is answered at all, and none is ever
    answered FOUND!: every guess throws, the popup, the previous
    distance and the ring are left as they were; when the guessed
    position is a pair of numbers, the error is the one of [L.circle],
    Circle radius cannot be NaN, and the marker of the guess is on the
    map all the same, with a radius that is not a number and the colour
    [rgb(NaN,NaN,NaN)]. *)
Theorem target_that_is_not_finite_is_never_found (e : LatLng) (s : State) :
  finite (lat (TARGET s)) && finite (lng (TARGET s)) = false ->
  exists err,
    onMapClick e s = Throw err (step s (Guess e))
    /\ shown (step s (Guess e)) = shown s
    /\ prevDistance (step s (Guess e)) = prevDistance s
    /\ lastCircle (step s (Guess e)) = lastCircle s
    /\ TARGET (step s (Guess e)) = TARGET s
    /\ (is_nan (lat e) || is_nan (lng e) = false ->
        err = Js.PlainError "Circle radius cannot be NaN"
        /\ lastMarker (step s (Guess e)) = Some (Pos.succ (lastId (map s)))
        /\ layers (map (step s (Guess e))) !! Pos.succ (lastId (map s))
           = Some (CircleMarker e nan "rgb(NaN,NaN,NaN)" "#fff" 2 0.95)).
Proof.
  intros Ht.
  assert (distanceMeters e (TARGET s) = nan) as Hd.
  { apply distanceMeters_not_finite.
    destruct (finite (lat e)), (finite (lng e)); cbn [andb];
      try reflexivity; exact Ht. }
  assert (is_nan (distanceMeters e (TARGET s)) = true) as Hn
    by (rewrite Hd; reflexivity).
  destruct (onMapClick_throws V _ _ _ e s Hn)
    as (err & s' & E & Hp & _ & _ & Hprev & Htg & _ & Hc & _ & Hm).
  exists err. unfold App.step, handle. rewrite E. cbn [final_state].
  split; [reflexivity|].
  split; [unfold shown; rewrite Hp; reflexivity|].
  split; [exact Hprev|]. split; [exact Hc|]. split; [exact Htg|].
  intros He. destruct (Hm He) as [-> ->].
  split; [reflexivity|]. split; [reflexivity|].
  unfold guess_marked. cbv zeta. cbn [map layers lastId]. rewrite Hd.
  apply lookup_insert_eq.
Qed.

End Drawing.

Lemma guess_draws_marker_and_ring_witness :
  exists (n : Z) (radius : float) (color : string),
    layers (map (App.step exact_view sin1 cos1 atan2_1
                   (App.initial_state exact_view 0.25 0.75)
                   (Guess {| lat := 32.5; lng := 35 |})))
      !! Pos.succ (lastId (map (App.initial_state exact_view 0.25 0.75)))
    = Some (CircleMarker {| lat := 32.5; lng := 35 |} radius color "#fff"
              2 0.95)
    /\ B2R radius = IZR n /\ (6 <= n <= 12)%Z.
Proof.
  destruct (guess_draws_marker_and_ring exact_view sin1 cos1 atan2_1
              {| lat := 32.5; lng := 35 |}
              (App.initial_state exact_view 0.25 0.75) eq_refl)
    as (n & r & g & b & radius & ring & opacity & color & H1 & _ & _ & H2 & H3 & _).
  exists n, radius, color. auto.
Defined.

Lemma found_guess_is_drawn_largest_witness :
  layers (map (App.step exact_view sin1 cos1 atan2_1
                 (App.initial_state exact_view 0.25 0.75)
                 (Guess initial_TARGET)))
    !! Pos.succ (lastId (map (App.initial_state exact_view 0.25 0.75)))
  = Some (CircleMarker initial_TARGET 12
            (lerpColor
               (heatOf (App.distanceMeters sin1 cos1 atan2_1 initial_TARGET
                          (TARGET (App.initial_state exact_view 0.25 0.75)))))
            "#fff" 2 0.95).
Proof.
  exact (proj1 (found_guess_is_drawn_largest exact_view sin1 cos1 atan2_1
                  initial_TARGET (App.initial_state exact_view 0.25 0.75)
                  eq_refl)).
Defined.

Lemma distance_of_odd_coordinates_is_nan_witness :
  App.distanceMeters sin1 cos1 atan2_1
    {| lat := 32.5; lng := infinity |} {| lat := 32.5; lng := 35 |}
  = nan.
Proof.
  exact (distance_of_odd_coordinates_is_nan sin1 cos1 atan2_1
           {| lat := 32.5; lng := infinity |} {| lat := 32.5; lng := 35 |}
           eq_refl).
Defined.

Lemma target_that_is_not_finite_is_never_found_witness :
  let s := final_state
             (App.setTarget exact_view (Js.Number nan) (Js.Number 35)
                Js.Undefined (App.initial_state exact_view 0.25 0.75)) in
  exists err,
    App.onMapClick exact_view sin1 cos1 atan2_1 {| lat := 32.5; lng := 35 |} s
    = Throw err
        (App.step exact_view sin1 cos1 atan2_1 s
           (Guess {| lat := 32.5; lng := 35 |}))
    /\ shown (App.step exact_view sin1 cos1 atan2_1 s
                (Guess {| lat := 32.5; lng := 35 |})) = shown s.
Proof.
  intros s.
  destruct (target_that_is_not_finite_is_never_found exact_view
              sin1 cos1 atan2_1 {| lat := 32.5; lng := 35 |} s eq_refl)
    as (err & H1 & H2 & _).
  exists err. split; [exact H1 | exact H2].
Defined.

(* ================================================================== *)
(** ** Far guesses, the console, and finding a target that was set *)
(* ================================================================== *)

Section Further.

Context (V : ViewModel).
Context (sin_approx cos_approx : float -> float).
Context (atan2_approx : float -> float -> float).

Abbreviation distanceMeters := (App.distanceMeters sin_approx cos_approx atan2_approx).
Abbreviation setTarget := (App.setTarget V).
Abbreviation step := (App.step V sin_approx cos_approx atan2_approx).
Abbreviation run := (App.run V sin_approx cos_approx atan2_approx).

(** X19: at 1200 m and beyond (infinitely far included) every guess is
    drawn alike, so that the drawing gives no gradient out there: the
    smallest marker, of radius 6, in the cold colour, and a ring of
    300 m at opacity 0.35. *)
Theorem far_guess_is_drawn_cold (e : LatLng) (s : State) :
  (1200 <=? distanceMeters e (TARGET s)) = true ->
  layers (map (step s (Guess e))) !! Pos.succ (lastId (map s))
  = Some (CircleMarker e 6 "rgb(44,152,240)" "#fff" 2 0.95)
  /\ layers (map (step s (Guess e))) !! Pos.succ (Pos.succ (lastId (map s)))
     = Some (Circle e 300 "rgb(44,152,240)" 1.4 0.35 false).
Proof.
  intros Hd.
  destruct (guess_layers V sin_approx cos_approx atan2_approx e s
              (leb_number_r _ _ Hd)) as [Hm Hr].
  rewrite (heatOf_far _ Hd) in Hm, Hr.
  assert ((300 <=? distanceMeters e (TARGET s)) = true) as H300.
  { destruct (leb_cases 1200 _ eq_refl Hd) as [[Fd Vd] | ->]; [|reflexivity].
    apply leb_B2R; [reflexivity | exact Fd |].
    rewrite B2R_1200 in Vd.
    assert (B2R 300 <= B2R 1200)%R as H
      by (apply (leb_B2R 300 1200); reflexivity).
    rewrite B2R_1200 in H. lra. }
  rewrite (proj2 (proj2 (ring_radius_spec _)) H300) in Hr.
  split; [exact Hm | exact Hr].
Qed.



(** What is asked of the engine: a cosine within [-1, 1]. *)
Hypothesis cos_bounded :
  forall x, finite x = true -> (Math_abs (cos_approx x) <=? 1) = true.

(** X21: a target given to [setTarget] can be found: for a latitude
    within 90 degrees and a finite longitude, a guess at exactly the
    coordinate that was set is answered FOUND!, with the coordinates
    that were set in the popup. *)
Theorem target_that_was_set_is_found_there (x y : float) (s : State) :
  (Math_abs x <=? 90) = true -> finite y = true ->
  shown (step (final_state
                 (setTarget (Js.Number x) (Js.Number y) Js.Undefined s))
           (Guess {| lat := x; lng := y |}))
  = popupContent "FOUND!"
      ("Coordinates: N " ++ formatDeg x ++ "  E " ++ formatDeg y).
Proof using cos_bounded.
  intros Hx Hy. rewrite setTarget_no_options. cbn [final_state].
  destruct (distanceMeters_diag sin_approx cos_approx atan2_approx cos_bounded
              {| lat := x; lng := y |} Hx Hy) as [Fd Vd].
  unfold App.step, handle.
  rewrite onMapClick_shown by (cbn [TARGET]; apply finite_is_nan, Fd).
  cbn [TARGET prevDistance].
  assert ((distanceMeters {| lat := x; lng := y |} {| lat := x; lng := y |}
           <=? 20) = true) as Hd.
  { apply leb_B2R; [exact Fd | reflexivity |].
    rewrite Vd. rewrite <- B2R_0. apply (leb_B2R 0 20); reflexivity. }
  unfold chooseTitle, popupBody, FOUND_RADIUS_METERS. rewrite Hd.
  reflexivity.
Qed.

End Further.

Lemma far_guess_is_drawn_cold_witness :
  layers (map (App.step exact_view sin1 cos1 atan2_1
                 (App.initial_state exact_view 0.25 0.75)
                 (Guess {| lat := 33.5; lng := 35 |})))
    !! Pos.succ (lastId (map (App.initial_state exact_view 0.25 0.75)))
  = Some (CircleMarker {| lat := 33.5; lng := 35 |} 6 "rgb(44,152,240)"
            "#fff" 2 0.95).
Proof.
  exact (proj1 (far_guess_is_drawn_cold exact_view sin1 cos1 atan2_1
                  {| lat := 33.5; lng := 35 |}
                  (App.initial_state exact_view 0.25 0.75) eq_refl)).
Defined.

Lemma target_that_was_set_is_found_there_witness :
  shown (App.step exact_view sin1 cos1 atan2_1
           (final_state
              (App.setTarget exact_view (Js.Number 48.5) (Js.Number (-2.25))
                 Js.Undefined (App.initial_state exact_view 0.25 0.75)))
           (Guess {| lat := 48.5; lng := -2.25 |}))
  = popupContent "FOUND!"
      ("Coordinates: N " ++ formatDeg 48.5 ++ "  E " ++ formatDeg (-2.25)).
Proof.
  exact (target_that_was_set_is_found_there exact_view sin1 cos1 atan2_1
           (fun x _ => eq_refl) 48.5 (-2.25)
           (App.initial_state exact_view 0.25 0.75) eq_refl eq_refl).
Defined.
